(** * Projectsim: a checkout-lane simulation on top of simpy

    A shallow embedding of [Projectsim.py].  The program is a simpy
    discrete-event simulation: a [setup] process spawns [customer]
    processes, each customer picks the least loaded active lane, requests
    it, and runs a [checkout_customer] sub-process while holding it.

    Python generators are embedded as explicit program counters (one
    constructor per [yield]), simpy's event queue as the collection of its
    entries with [heappop] returning the least one, and the module level
    random generator as a stream [rng] of the values returned by the
    successive calls of [random.expovariate].

    Simulated time (a Python float) is embedded as a rational number, and
    the sums and differences of times are exact.  What is proved of the
    clock is what the rounding of a sum cannot change: the order of the
    events, counts and signs; where a bound depends on the size of a
    sample, the samples are taken where the float sums are exact.  The
    quotient of line 43 and the numbers of the output are rounded as
    Python rounds them. *)

From Stdlib Require Import List Arith ZArith QArith Qminmax Qround Qabs Qpower Lia Lqa Bool.
From Stdlib Require Import Permutation Sorted.
From Stdlib Require String DecimalString.
Import ListNotations.

Set Implicit Arguments.
Set Primitive Projections.

(** ** Module constants (lines 6-11) *)

Definition NUM_CHECKOUT_LANES : nat := 3.
Definition MAX_QUEUE : nat := 10.
Definition SIMULATION_TIME : Q := 600.

(** simpy's two scheduling priorities *)
Definition URGENT : nat := 0.
Definition NORMAL : nat := 1.

(** ** Data *)

(** The Python exceptions that the modelled code can raise. *)
Inductive exn := ValueError | ZeroDivisionError | IndexError | RuntimeError.

(** A [simpy.Resource.request()] event.  Each one is created by exactly one
    customer process, which is the only process ever waiting for it, so the
    object is identified by that customer's id and carries the locals of the
    customer generator suspended on it. *)
Record Request := mkRequest
  { rq_customer : nat;      (* customer_id of the requesting process *)
    rq_arrival  : Q;        (* its arrival_time *)
    rq_lane     : nat }.    (* its lane_number *)

(** [simpy.Resource(env)] with the default capacity 1: [users] holds the
    granted requests, [put_queue] (alias [queue]) the waiting ones. *)
Record Resource := mkResource
  { users : list Request;
    put_queue : list Request }.

Definition capacity : nat := 1.
Definition count (r : Resource) : nat := length (users r).
(** [lane.count + len(lane.queue)] *)
Definition load (r : Resource) : nat := count r + length (put_queue r).

(** Program counters of the three generator functions: where the generator
    is suspended, with the values of its live local variables. *)
Inductive SetupPc :=
| setup_start
| setup_line71 (customer_id : nat).

Inductive CustomerPc :=
| customer_start (customer_id : nat)
| customer_line62 (request : Request)
| customer_line66 (request : Request).

Inductive CheckoutPc :=
| checkout_start (customer_id lane_number : nat)
| checkout_line26 (customer_id lane_number : nat) (service_time : Q).

Inductive Generator :=
| GSetup (pc : SetupPc)
| GCustomer (pc : CustomerPc)
| GCheckout (pc : CheckoutPc).

(** A simpy event, with what its [callbacks] list holds when it is
    processed.  A process appears in a callback list as its generator:
    [waiting] are the processes that yielded the [Process] event of the
    process [g] runs in. *)
Inductive Event :=
| UntilEv                                            (* run(until=...): StopSimulation.callback *)
| InitializeEv (g : Generator) (waiting : list Generator)   (* [process._resume] *)
| TimeoutEv (g : Generator) (waiting : list Generator)      (* [process._resume] *)
| RequestEv (r : Request)                            (* [resource._trigger_get, customer._resume] *)
| ReleaseEv (lane : nat)                             (* [resource._trigger_put] *)
| ProcessEv (value : option exn) (waiting : list Generator). (* a finished process; None = ok *)

(** An entry of [env._queue]: [(time, priority, eid, event)]. *)
Record Entry := mkEntry
  { e_time : Q; e_prio : nat; e_eid : nat; e_event : Event }.

Record Environment := mkEnv
  { now : Q;
    queue : list Entry;
    eid : nat }.

Record GroceryStore := mkStore
  { checkout_lanes : list Resource;
    active_lanes : nat;
    waiting_times : list Q;
    service_times : list Q;
    average_queue_lengths : list Q;
    queue_record_times : list Q }.

(** What the program prints, one constructor per [print] call, with the
    values of the fields of its f-string; [text] below gives the characters. *)
Inductive Line :=
| CustomerCheckedOut (customer_id lane : nat) (service_time : Q)          (* line 27 *)
| LaneOpens (lane : nat) (t : Q)                                  (* lines 35, 39 *)
| CustomerArrives (customer_id : nat) (t : Q)                              (* line 49 *)
| CustomerJoins (customer_id lane queue_length : nat)                      (* line 59 *)
| CustomerWaited (customer_id : nat) (waiting_time : Q) (lane : nat).      (* line 65 *)

(** The whole program state: the environment, the store, the number of
    calls made to [random.expovariate] so far, and standard output. *)
Record World := mkWorld
  { env : Environment;
    store : GroceryStore;
    draws : nat;
    stdout : list Line }.

(** ** Python floats

    The quotient of line 43 is a Python float: IEEE 754 binary64, rounded
    to the nearest value, ties to the even one.  [binary64 x] is the double
    nearest to the rational [x], as a rational.  The range of the exponent
    is not bounded: the quotients of the program lie far inside it. *)

(** The integer nearest to [x], the even one of two *)
Definition round_half_even (x : Q) : Z :=
  let n := Qfloor x in
  match (x - inject_Z n ?= 1 # 2)%Q with
  | Lt => n
  | Eq => if Z.even n then n else (n + 1)%Z
  | Gt => (n + 1)%Z
  end.

(** [floor (log2 x)], for [0 < x] *)
Definition binade (x : Q) : Z :=
  let k := (Z.log2 (Qnum x) - Z.log2 (Z.pos (Qden x)))%Z in
  if Qle_bool (2 ^ k) x then k else (k - 1)%Z.

(** 53 significant bits, for [0 < x] *)
Definition nearest (x : Q) : Q :=
  let e := (binade x - 52)%Z in
  Qred (inject_Z (round_half_even (x * 2 ^ (- e))) * 2 ^ e).

Definition binary64 (x : Q) : Q :=
  match (x ?= 0)%Q with
  | Eq => 0
  | Gt => nearest x
  | Lt => - nearest (- x)
  end.

(** ** A state and exception monad for Python code

    A Python exception does not undo the mutations made before it, so the
    state is returned in both cases. *)
Inductive Result (A : Type) :=
| Val (a : A)
| Exc (e : exn).
Arguments Val {A} a.
Arguments Exc {A} e.

Definition Py (A : Type) := World -> Result A * World.

Definition ret {A} (a : A) : Py A := fun w => (Val a, w).
Definition raise {A} (e : exn) : Py A := fun w => (Exc e, w).
Definition bind {A B} (m : Py A) (f : A -> Py B) : Py B :=
  fun w => match m w with
           | (Val a, w') => f a w'
           | (Exc e, w') => (Exc e, w')
           end.

Declare Scope py_scope.
Delimit Scope py_scope with py.
Notation "x <- m ;; k" := (bind m (fun x => k))
  (at level 61, m at next level, right associativity) : py_scope.
Notation "m ;; k" := (bind m (fun _ => k))
  (at level 61, right associativity) : py_scope.
Open Scope py_scope.

Definition get {A} (f : World -> A) : Py A := fun w => (Val (f w), w).
Definition modify (f : World -> World) : Py unit := fun w => (Val tt, f w).

(** Field updates *)
Definition with_env (f : Environment -> Environment) (w : World) : World :=
  mkWorld (f (env w)) (store w) (draws w) (stdout w).
Definition with_store (f : GroceryStore -> GroceryStore) (w : World) : World :=
  mkWorld (env w) (f (store w)) (draws w) (stdout w).

Definition set_active_lanes (n : nat) (st : GroceryStore) : GroceryStore :=
  mkStore (checkout_lanes st) n (waiting_times st) (service_times st)
          (average_queue_lengths st) (queue_record_times st).
Definition set_checkout_lanes (l : list Resource) (st : GroceryStore) : GroceryStore :=
  mkStore l (active_lanes st) (waiting_times st) (service_times st)
          (average_queue_lengths st) (queue_record_times st).
Definition append_waiting_time (x : Q) (st : GroceryStore) : GroceryStore :=
  mkStore (checkout_lanes st) (active_lanes st) (waiting_times st ++ [x]) (service_times st)
          (average_queue_lengths st) (queue_record_times st).
Definition append_service_time (x : Q) (st : GroceryStore) : GroceryStore :=
  mkStore (checkout_lanes st) (active_lanes st) (waiting_times st) (service_times st ++ [x])
          (average_queue_lengths st) (queue_record_times st).
Definition append_queue_stats (avg t : Q) (st : GroceryStore) : GroceryStore :=
  mkStore (checkout_lanes st) (active_lanes st) (waiting_times st) (service_times st)
          (average_queue_lengths st ++ [avg]) (queue_record_times st ++ [t]).

(** [print(...)] *)
Definition printed (l : Line) (w : World) : World :=
  mkWorld (env w) (store w) (draws w) (stdout w ++ [l]).

Definition print (l : Line) : Py unit := modify (printed l).

(** ** The text of the output *)

Module Text.
Import String.
Local Open Scope string_scope.

(** [str(n)] for an int that is not negative *)
Definition decimal (n : nat) : string :=
  DecimalString.NilEmpty.string_of_uint (Nat.to_uint n).

(** The format [:.2f]: [x] with two decimals, the nearest such number,
    the even one of two; the sign is the sign of [x]. *)
Definition fixed2 (x : Q) : string :=
  let hundredths := Z.abs (round_half_even (x * 100)) in
  (match (x ?= 0)%Q with Lt => "-" | _ => "" end)
  ++ decimal (Z.to_nat (hundredths / 100)) ++ "."
  ++ decimal (Z.to_nat ((hundredths / 10) mod 10))
  ++ decimal (Z.to_nat (hundredths mod 10)).

(** The f-strings of lines 27, 35 and 39, 49, 59 and 65; [lane] is the
    lane counted from 1. *)
Definition line27 (customer_id lane : nat) (service_time : Q) : string :=
  "Customer " ++ decimal customer_id ++ " checked out at lane " ++ decimal lane
  ++ " in " ++ fixed2 service_time ++ " minutes.".

Definition line35 (lane : nat) (t : Q) : string :=
  "Lane " ++ decimal lane ++ " opens at time " ++ fixed2 t.

Definition line49 (customer_id : nat) (arrival_time : Q) : string :=
  "Customer " ++ decimal customer_id ++ " arrives at " ++ fixed2 arrival_time ++ " minutes.".

Definition line59 (customer_id lane queue_length : nat) : string :=
  "Customer " ++ decimal customer_id ++ " joins lane " ++ decimal lane
  ++ " with " ++ decimal queue_length ++ " people in queue.".

Definition line65 (customer_id : nat) (waiting_time : Q) (lane : nat) : string :=
  "Customer " ++ decimal customer_id ++ " waited for " ++ fixed2 waiting_time
  ++ " minutes at lane " ++ decimal lane ++ ".".

(** The characters a [print] call writes *)
Definition text (l : Line) : string :=
  match l with
  | CustomerCheckedOut customer_id lane service_time => line27 customer_id lane service_time
  | LaneOpens lane t => line35 lane t
  | CustomerArrives customer_id t => line49 customer_id t
  | CustomerJoins customer_id lane queue_length => line59 customer_id lane queue_length
  | CustomerWaited customer_id waiting_time lane => line65 customer_id waiting_time lane
  end.

End Text.
Import Text.

(** ** simpy: the environment *)

(** The binary heap [env._queue] is embedded as the list of its entries:
    [heappush] adds one, [heappop] below takes the least one out. *)
Definition heappush (q : list Entry) (x : Entry) : list Entry := x :: q.

(** [env.schedule(event, priority, delay)]: pushes
    [(now + delay, priority, next(eid), event)]. *)
Definition scheduled (ev : Event) (priority : nat) (delay : Q) (w : World) : World :=
  with_env (fun e =>
    mkEnv (now e)
          (heappush (queue e) (mkEntry (now e + delay) priority (eid e) ev))
          (S (eid e))) w.

Definition schedule (ev : Event) (priority : nat) (delay : Q) : Py unit :=
  modify (scheduled ev priority delay).

(** Python's [<] on the [(time, priority, eid, _)] tuples ([eid]s are
    unique, so the comparison never reaches the event). *)
Definition entry_ltb (a b : Entry) : bool :=
  match e_time a ?= e_time b with
  | Lt => true
  | Gt => false
  | Eq => (e_prio a <? e_prio b)%nat
          || ((e_prio a =? e_prio b)%nat && (e_eid a <? e_eid b)%nat)
  end.

(** [heappop]: removes and returns the least entry. *)
Fixpoint heappop (q : list Entry) : option (Entry * list Entry) :=
  match q with
  | [] => None
  | x :: rest =>
      match heappop rest with
      | None => Some (x, [])
      | Some (m, rest') =>
          if entry_ltb m x then Some (m, x :: rest') else Some (x, rest)
      end
  end.

(** [self._now, _, _, event = heappop(self._queue)] *)
Definition popped (entry : Entry) (rest : list Entry) (w : World) : World :=
  with_env (fun e => mkEnv (e_time entry) rest (eid e)) w.

Definition Qltb (x y : Q) : bool := negb (Qle_bool y x).

(** [env.timeout(delay)], yielded at once by the process [g]:
    [Timeout.__init__] raises [ValueError] on a negative delay and
    schedules itself otherwise. *)
Definition timeout (delay : Q) (g : Generator) (waiting : list Generator) : Py unit :=
  if Qltb delay 0 then raise ValueError
  else schedule (TimeoutEv g waiting) NORMAL delay.

(** [env.process(generator)]: [Process.__init__] schedules an urgent
    [Initialize] event.  [waiting] is who yields the new process. *)
Definition process (g : Generator) (waiting : list Generator) : Py unit :=
  schedule (InitializeEv g waiting) URGENT 0.

(** ** simpy: resources *)

(** [BaseResource._trigger_put] with [Resource._do_put]: [_do_put] returns
    [None], so the loop stops after the head of the queue.  Returns the
    request that was granted, if any; [succeed()] schedules it. *)
Definition _trigger_put (r : Resource) : Resource * option Request :=
  match put_queue r with
  | [] => (r, None)
  | put_event :: rest =>
      if (length (users r) <? capacity)%nat
      then (mkResource (users r ++ [put_event]) rest, Some put_event)
      else (r, None)
  end.

(** [list.remove(x)] on [users], where a missing [x] is ignored
    ([Resource._do_get] catches the [ValueError]). *)
Fixpoint users_remove (x : Request) (l : list Request) : list Request :=
  match l with
  | [] => []
  | y :: rest => if (rq_customer y =? rq_customer x)%nat then rest
                 else y :: users_remove x rest
  end.

Fixpoint list_set {A} (l : list A) (i : nat) (x : A) : list A :=
  match l, i with
  | [], _ => []
  | _ :: rest, O => x :: rest
  | y :: rest, S j => y :: list_set rest j x
  end.

(** [store.checkout_lanes[i]] *)
Definition checkout_lane (i : nat) : Py Resource :=
  fun w => match nth_error (checkout_lanes (store w)) i with
           | Some r => (Val r, w)
           | None => (Exc IndexError, w)
           end.

(** In place mutation of a lane object reached through a reference. *)
Definition update_lane (i : nat) (f : Resource -> Resource) : Py unit :=
  modify (with_store (fun st =>
    match nth_error (checkout_lanes st) i with
    | Some r => set_checkout_lanes (list_set (checkout_lanes st) i (f r)) st
    | None => st
    end)).

(** [resource._trigger_put(event)] on lane [i], scheduling the granted
    request. *)
Definition trigger_put (i : nat) : Py unit :=
  fun w => match nth_error (checkout_lanes (store w)) i with
           | Some r =>
               match _trigger_put r with
               | (r', Some granted) =>
                   (update_lane i (fun _ => r') ;;
                    schedule (RequestEv granted) NORMAL 0) w
               | (_, None) => (Val tt, w)
               end
           | None => (Val tt, w)
           end.

(** [store.checkout_lanes[lane_number].request()]: [Put.__init__] appends
    the request to [put_queue] and calls [_trigger_put]. *)
Definition request (r : Request) : Py unit :=
  _ <- checkout_lane (rq_lane r) ;;
  update_lane (rq_lane r) (fun res => mkResource (users res) (put_queue res ++ [r])) ;;
  trigger_put (rq_lane r).

(** [resource.release(request)]: [Get.__init__] calls [_trigger_get], whose
    [_do_get] removes the request from [users] and succeeds the release
    event at once. *)
Definition release (r : Request) : Py unit :=
  update_lane (rq_lane r) (fun res => mkResource (users_remove r (users res)) (put_queue res)) ;;
  schedule (ReleaseEv (rq_lane r)) NORMAL 0.

(** ** The program *)

Section Program.

(** [rng k] is the value returned by the [k]-th call of
    [random.expovariate] in the run (calls are numbered from 0, in
    execution order, over both call sites). *)
Variable rng : nat -> Q.

Definition drawn (w : World) : World :=
  mkWorld (env w) (store w) (S (draws w)) (stdout w).

Definition expovariate : Py Q :=
  fun w => (Val (rng (draws w)), drawn w).

Definition get_now : Py Q := get (fun w => now (env w)).

(** *** class GroceryStore *)

(** [add_waiting_time] (lines 30-31) *)
Definition add_waiting_time (waiting_time : Q) : Py unit :=
  modify (with_store (append_waiting_time waiting_time)).

(** [manage_checkouts] (lines 33-39).  The second test reads
    [self.active_lanes] after the first [if] may have assigned it, and
    [and] evaluates [checkout_lanes[1]] only when lanes are at least 2. *)
Definition manage_checkouts : Py unit :=
  lane0 <- checkout_lane 0 ;;
  (if (MAX_QUEUE <=? count lane0 + length (put_queue lane0))%nat then
     t <- get_now ;;
     print (LaneOpens 2 t) ;;
     modify (with_store (set_active_lanes 2))
   else ret tt) ;;
  al <- get (fun w => active_lanes (store w)) ;;
  if (2 <=? al)%nat then
    lane1 <- checkout_lane 1 ;;
    if (MAX_QUEUE <=? count lane1 + length (put_queue lane1))%nat then
      modify (with_store (set_active_lanes 3)) ;;
      t <- get_now ;;
      print (LaneOpens 3 t)
    else ret tt
  else ret tt.

(** Python's [/] on two ints: the double nearest to the quotient *)
Definition true_div (a b : nat) : Py Q :=
  if (b =? 0)%nat then raise ZeroDivisionError
  else ret (binary64 (inject_Z (Z.of_nat a) / inject_Z (Z.of_nat b))).

(** [update_queue_stats] (lines 41-45) *)
Definition update_queue_stats : Py unit :=
  st <- get store ;;
  let total_queue_length :=
    list_sum (map (fun lane => length (put_queue lane) + count lane)%nat
                  (firstn (active_lanes st) (checkout_lanes st))) in
  average_queue_length <- true_div total_queue_length (active_lanes st) ;;
  t <- get_now ;;
  modify (with_store (append_queue_stats average_queue_length t)).

(** *** Python's [min(iterable, key=...)]: the first element whose key is
    least; [ValueError] on an empty iterable. *)
Fixpoint min_loop (key : nat -> Py nat) (l : list nat) (best best_key : nat) : Py nat :=
  match l with
  | [] => ret best
  | x :: rest =>
      k <- key x ;;
      if (k <? best_key)%nat then min_loop key rest x k
      else min_loop key rest best best_key
  end.

Definition py_min (l : list nat) (key : nat -> Py nat) : Py nat :=
  match l with
  | [] => raise ValueError
  | x :: rest => k <- key x ;; min_loop key rest x k
  end.

(** The key of line 56 *)
Definition lane_key (i : nat) : Py nat :=
  lane <- checkout_lane i ;;
  ret (length (put_queue lane) + count lane)%nat.

(** Lines 54-57: the lane a new customer joins *)
Definition choose_lane : Py nat :=
  al <- get (fun w => active_lanes (store w)) ;;
  py_min (seq 0 al) lane_key.

(** *** The generators

    Each generator function takes its program counter, the callbacks of
    the process it runs in (they travel with the event the generator
    yields) and the exception thrown into it, if any; it runs up to the
    next [yield] or to its end. *)
Inductive Suspend := Yielded | Returned.

Definition throw (value : option exn) : Py unit :=
  match value with
  | Some e => raise e
  | None => ret tt
  end.

(** [checkout_customer] (lines 24-28) *)
Definition checkout_customer (pc : CheckoutPc) (callbacks : list Generator)
    (value : option exn) : Py Suspend :=
  throw value ;;
  match pc with
  | checkout_start customer_id lane_number =>
      service_time <- expovariate ;;
      timeout service_time
        (GCheckout (checkout_line26 customer_id lane_number service_time)) callbacks ;;
      ret Yielded
  | checkout_line26 customer_id lane_number service_time =>
      print (CustomerCheckedOut customer_id (lane_number + 1) service_time) ;;
      modify (with_store (append_service_time service_time)) ;;
      ret Returned
  end.

(** [customer] (lines 47-66); [customer_arrival] is its lines 48-57, up to
    the choice of the lane.  Leaving the [with] block, normally or by an
    exception, runs [Request.__exit__]: the request has been granted by
    then, so [cancel()] does nothing and the lane is released. *)
Definition customer_arrival (customer_id : nat) : Py (Q * nat) :=
  arrival_time <- get_now ;;
  print (CustomerArrives customer_id arrival_time) ;;
  manage_checkouts ;;
  update_queue_stats ;;
  lane_number <- choose_lane ;;
  ret (arrival_time, lane_number).

Definition customer (pc : CustomerPc) (value : option exn) : Py Suspend :=
  match pc with
  | customer_start customer_id =>
      throw value ;;
      arrival <- customer_arrival customer_id ;;
      let arrival_time := fst arrival in
      let lane_number := snd arrival in
      lane <- checkout_lane lane_number ;;
      let queue_length := (length (put_queue lane) + count lane)%nat in
      print (CustomerJoins customer_id (lane_number + 1) queue_length) ;;
      request (mkRequest customer_id arrival_time lane_number) ;;
      ret Yielded
  | customer_line62 r =>
      match value with
      | Some e => release r ;; raise e
      | None =>
          t <- get_now ;;
          let waiting_time := (t - rq_arrival r)%Q in
          add_waiting_time waiting_time ;;
          print (CustomerWaited (rq_customer r) waiting_time (rq_lane r + 1)) ;;
          process (GCheckout (checkout_start (rq_customer r) (rq_lane r)))
                  [GCustomer (customer_line66 r)] ;;
          ret Yielded
      end
  | customer_line66 r =>
      release r ;;
      throw value ;;
      ret Returned
  end.

(** [setup] (lines 68-73); [setup_loop] is the loop from its test on. *)
Definition setup_loop (customer_id : nat) (callbacks : list Generator) : Py Suspend :=
  t <- get_now ;;
  if Qltb t SIMULATION_TIME then
    delay <- expovariate ;;
    timeout delay (GSetup (setup_line71 customer_id)) callbacks ;;
    ret Yielded
  else ret Returned.

Definition setup (pc : SetupPc) (callbacks : list Generator)
    (value : option exn) : Py Suspend :=
  throw value ;;
  match pc with
  | setup_start => setup_loop 0 callbacks
  | setup_line71 customer_id =>
      let customer_id := S customer_id in
      process (GCustomer (customer_start customer_id)) [] ;;
      setup_loop customer_id callbacks
  end.

(** *** simpy: processes and the event loop *)

Definition send (g : Generator) (callbacks : list Generator)
    (value : option exn) : Py Suspend :=
  match g with
  | GSetup pc => setup pc callbacks value
  | GCustomer pc => customer pc value
  | GCheckout pc => checkout_customer pc callbacks value
  end.

(** [Process._resume]: runs the generator; when it returns or raises, the
    process event is scheduled with that outcome. *)
Definition _resume (g : Generator) (callbacks : list Generator)
    (value : option exn) (w : World) : World :=
  match send g callbacks value w with
  | (Val Yielded, w') => w'
  | (Val Returned, w') => scheduled (ProcessEv None callbacks) NORMAL 0 w'
  | (Exc e, w') => scheduled (ProcessEv (Some e) callbacks) NORMAL 0 w'
  end.

Inductive StepResult :=
| Continue (w : World)
| StopSimulation (w : World)        (* the until event was reached *)
| Raised (e : exn) (w : World)      (* a failed event nobody handled *)
| EmptySchedule.

(** [env.step()]: pops the next event, sets the clock and runs its
    callbacks.  A failed process event is re-raised unless a waiting
    process took it (the only processes that wait on a process are
    customers, and nothing waits on a customer). *)
Definition step (w : World) : StepResult :=
  match heappop (queue (env w)) with
  | None => EmptySchedule
  | Some (entry, rest) =>
      let w1 := popped entry rest w in
      match e_event entry with
      | UntilEv => StopSimulation w1
      | InitializeEv g callbacks => Continue (_resume g callbacks None w1)
      | TimeoutEv g callbacks => Continue (_resume g callbacks None w1)
      | RequestEv r => Continue (_resume (GCustomer (customer_line62 r)) [] None w1)
      | ReleaseEv lane => Continue (snd (trigger_put lane w1))
      | ProcessEv value callbacks =>
          let w2 := fold_left (fun w g => _resume g [] value w) callbacks w1 in
          match value, callbacks with
          | Some e, [] => Raised e w2
          | _, _ => Continue w2
          end
      end
  end.

(** Lines 77-79 and the start of [env.run(until=SIMULATION_TIME)], which
    schedules the until event as urgent. *)
Definition new_store : GroceryStore :=
  mkStore (repeat (mkResource [] []) NUM_CHECKOUT_LANES) 1 [] [] [] [].

Definition new_world : World := mkWorld (mkEnv 0 [] 0) new_store 0 [].

Definition run_start (until : Q) : Py unit :=
  t <- get_now ;;
  if Qle_bool until t then raise ValueError
  else schedule UntilEv URGENT (until - t).

Definition initial : World :=
  snd ((process (GSetup setup_start) [] ;; run_start SIMULATION_TIME) new_world).

Inductive Outcome :=
| Finished (w : World)              (* [env.run] returned *)
| Aborted (e : exn) (w : World)     (* [env.run] raised *)
| Running (w : World).              (* more steps are needed *)

(** The loop of [env.run]: [fuel] steps at most *)
Fixpoint run (fuel : nat) (w : World) : Outcome :=
  match fuel with
  | O => Running w
  | S n =>
      match step w with
      | Continue w' => run n w'
      | StopSimulation w' => Finished w'
      | Raised e w' => Aborted e w'
      | EmptySchedule => Aborted RuntimeError w   (* until was not reached *)
      end
  end.

(** The states the event loop goes through *)
Inductive reachable : World -> Prop :=
| reachable_initial : reachable initial
| reachable_step w w' : reachable w -> step w = Continue w' -> reachable w'.

End Program.

(** * Vocabulary of the statements and of the proofs *)

Local Open Scope nat_scope.

(** ** Orders and least elements *)

(** Python's tuple order, as a proposition *)
Definition entry_lt (a b : Entry) : Prop :=
  (e_time a < e_time b)%Q \/
  ((e_time a == e_time b)%Q /\
   (e_prio a < e_prio b \/ (e_prio a = e_prio b /\ e_eid a < e_eid b))).

(** where [min] stops: the first position of a least key *)
Definition first_min (keyf : nat -> nat) (l : list nat) (i : nat) : Prop :=
  exists l1 l2, l = l1 ++ i :: l2 /\
    (forall j, In j l1 -> keyf i < keyf j) /\
    (forall j, In j l2 -> keyf i <= keyf j).

(** ** The effect of the store's methods *)

(** The state after [manage_checkouts], given lanes 1 and 2 *)
Definition managed (lane0 lane1 : Resource) (w : World) : World :=
  let t := now (env w) in
  let w1 := if MAX_QUEUE <=? load lane0
            then with_store (set_active_lanes 2) (printed (LaneOpens 2 t) w)
            else w in
  if (2 <=? active_lanes (store w1)) && (MAX_QUEUE <=? load lane1)
  then printed (LaneOpens 3 t) (with_store (set_active_lanes 3) w1)
  else w1.

(** [sum(len(lane.queue) + lane.count for lane in checkout_lanes[:active_lanes])] *)
Definition total_queue_length (st : GroceryStore) : nat :=
  list_sum (map (fun lane => length (put_queue lane) + count lane)
                (firstn (active_lanes st) (checkout_lanes st))).

Definition average (st : GroceryStore) : Q :=
  binary64 (inject_Z (Z.of_nat (total_queue_length st)) / inject_Z (Z.of_nat (active_lanes st))).

(** The load the router sees for lane [i] *)
Definition lane_load (lanes : list Resource) (i : nat) : nat :=
  match nth_error lanes i with
  | Some lane => load lane
  | None => 0
  end.

(** The router's choice among the first [al] lanes: a lane of least load,
    the lowest such *)
Definition routed (lanes : list Resource) (al i : nat) : Prop :=
  i < al /\
  (forall j, j < al -> lane_load lanes i <= lane_load lanes j) /\
  (forall j, j < i -> lane_load lanes i < lane_load lanes j).

(** The lane count after [manage_checkouts] *)
Definition next_active (lane0 lane1 : Resource) (al : nat) : nat :=
  let al1 := if MAX_QUEUE <=? load lane0 then 2 else al in
  if (2 <=? al1) && (MAX_QUEUE <=? load lane1) then 3 else al1.

(** Replacing lane [i] *)
Definition put_lane (i : nat) (res : Resource) (w : World) : World :=
  with_store (fun st => set_checkout_lanes (list_set (checkout_lanes st) i res) st) w.

(** The state after [_trigger_put] on lane [i], which holds [res] *)
Definition triggered (i : nat) (res : Resource) (w : World) : World :=
  match _trigger_put res with
  | (res', Some granted) => scheduled (RequestEv granted) NORMAL 0 (put_lane i res' w)
  | (_, None) => w
  end.

(** The state after [request()] on a lane that holds [res] *)
Definition requested (r : Request) (res : Resource) (w : World) : World :=
  let res1 := mkResource (users res) (put_queue res ++ [r]) in
  triggered (rq_lane r) res1 (put_lane (rq_lane r) res1 w).

(** The state after [release(request)] *)
Definition released (r : Request) (w : World) : World :=
  scheduled (ReleaseEv (rq_lane r)) NORMAL 0
    (match nth_error (checkout_lanes (store w)) (rq_lane r) with
     | Some res => put_lane (rq_lane r) (mkResource (users_remove r (users res)) (put_queue res)) w
     | None => w
     end).

(** ** The invariant of the event loop *)

(** Generators that an [Initialize] event starts *)
Definition start_pc (g : Generator) : Prop :=
  match g with
  | GSetup setup_start | GCustomer (customer_start _) | GCheckout (checkout_start _ _) => True
  | _ => False
  end.

(** Generators suspended on a timeout; a pending service time is not
    negative, since [Timeout] refused the others. *)
Definition timeout_pc (g : Generator) : Prop :=
  match g with
  | GSetup (setup_line71 _) => True
  | GCheckout (checkout_line26 _ _ service_time) => (0 <= service_time)%Q
  | _ => False
  end.

(** The processes that wait for a process are customers at line 66. *)
Definition line66_pc (g : Generator) : Prop :=
  match g with
  | GCustomer (customer_line66 _) => True
  | _ => False
  end.

Definition event_ok (t : Q) (ev : Event) : Prop :=
  match ev with
  | UntilEv => True
  | InitializeEv g callbacks => start_pc g /\ Forall line66_pc callbacks
  | TimeoutEv g callbacks => timeout_pc g /\ Forall line66_pc callbacks
  | RequestEv r => (rq_arrival r <= t)%Q
  | ReleaseEv _ => True
  | ProcessEv value callbacks =>
      Forall line66_pc callbacks /\ (value = None \/ value = Some ValueError)
  end.

(** Checkout processes that have not finished yet *)
Definition in_service (ev : Event) : nat :=
  match ev with
  | InitializeEv (GCheckout _) _ | TimeoutEv (GCheckout _) _ => 1
  | _ => 0
  end.

Definition pending_services (q : list Entry) : nat :=
  list_sum (map (fun x => in_service (e_event x)) q).

Definition is_process (ev : Event) : Prop :=
  match ev with ProcessEv _ _ => True | _ => False end.

Record entry_ok (t : Q) (next : nat) (x : Entry) : Prop := mk_entry_ok
  { ok_time : (t <= e_time x)%Q;
    ok_prio : e_prio x <= NORMAL;
    ok_eid : e_eid x < next;
    ok_event : event_ok t (e_event x);
    ok_process : is_process (e_event x) -> (e_time x <= t)%Q;
    ok_until : e_event x = UntilEv -> (e_time x == SIMULATION_TIME)%Q;
    ok_horizon : e_event x = UntilEv \/ (e_time x < SIMULATION_TIME)%Q \/ 2 <= e_eid x }.

(** The until event of [env.run(until=SIMULATION_TIME)] is pending. *)
Definition until_ok (q : list Entry) : Prop :=
  exists u, In u q /\ e_event u = UntilEv /\
            (e_time u == SIMULATION_TIME)%Q /\ e_prio u = URGENT /\ e_eid u = 1.

Definition lane_empty (res : Resource) : Prop :=
  users res = [] /\ put_queue res = [].

Record shape_ok (lanes : list Resource) (al : nat) : Prop := mk_shape_ok
  { shape_length : length lanes = NUM_CHECKOUT_LANES;
    shape_active : 1 <= al <= NUM_CHECKOUT_LANES;
    shape_closed : al = 1 -> forall i res,
        1 <= i -> nth_error lanes i = Some res -> lane_empty res }.

Definition lane_ok (t : Q) (res : Resource) : Prop :=
  Forall (fun r => (rq_arrival r <= t)%Q) (put_queue res).

Definition is_checked_out (l : Line) : bool :=
  match l with CustomerCheckedOut _ _ _ => true | _ => false end.

(** The number of customers fully served, as printed *)
Definition checked_out (out : list Line) : nat := length (filter is_checked_out out).

(** [k] counts the wait times recorded for checkouts that are about to be
    started; it is 0 between two steps of the loop. *)
Record InvK (k : nat) (w : World) : Prop := mk_InvK
  { inv_shape : shape_ok (checkout_lanes (store w)) (active_lanes (store w));
    inv_lanes : Forall (lane_ok (now (env w))) (checkout_lanes (store w));
    inv_queue : Forall (entry_ok (now (env w)) (eid (env w))) (queue (env w));
    inv_until : until_ok (queue (env w));
    inv_now : (now (env w) < SIMULATION_TIME)%Q;
    inv_eid : 2 <= eid (env w);
    inv_waiting : Forall (fun x => (0 <= x)%Q) (waiting_times (store w));
    inv_service : Forall (fun x => (0 <= x)%Q) (service_times (store w));
    inv_counts : length (service_times (store w)) + pending_services (queue (env w)) + k
                 <= length (waiting_times (store w));
    inv_stdout : checked_out (stdout w) = length (service_times (store w)) }.

Definition Inv : World -> Prop := InvK 0.

(** ** The effect of a step of the event loop *)

(** The state after lines 48-57 *)
Definition observed (customer_id : nat) (lane0 lane1 : Resource) (w : World) : World :=
  let t := now (env w) in
  let w1 := managed lane0 lane1 (printed (CustomerArrives customer_id t) w) in
  with_store (append_queue_stats (average (store w1)) t) w1.

(** The state after a customer's arrival (lines 48-62) when it joins
    lane [i] *)
Definition arrived (customer_id i : nat) (lane0 lane1 lane : Resource) (w : World) : World :=
  let w2 := observed customer_id lane0 lane1 w in
  let w3 := printed (CustomerJoins customer_id (i + 1) (length (put_queue lane) + count lane)) w2 in
  requested (mkRequest customer_id (now (env w)) i) lane w3.

(** What [Process._resume] does with the outcome of the generator *)
Definition finish (callbacks : list Generator) (r : Result Suspend * World) : World :=
  match r with
  | (Val Yielded, w') => w'
  | (Val Returned, w') => scheduled (ProcessEv None callbacks) NORMAL 0 w'
  | (Exc e, w') => scheduled (ProcessEv (Some e) callbacks) NORMAL 0 w'
  end.

(** The state after a customer is granted its lane (lines 63-66) *)
Definition granted (r : Request) (w : World) : World :=
  let waiting_time := (now (env w) - rq_arrival r)%Q in
  scheduled (InitializeEv (GCheckout (checkout_start (rq_customer r) (rq_lane r)))
                          [GCustomer (customer_line66 r)]) URGENT 0
    (printed (CustomerWaited (rq_customer r) waiting_time (rq_lane r + 1))
       (with_store (append_waiting_time waiting_time) w)).

(** The state after a checkout process ends (lines 27-28) *)
Definition served (customer_id lane_number : nat) (service_time : Q)
    (callbacks : list Generator) (w : World) : World :=
  scheduled (ProcessEv None callbacks) NORMAL 0
    (with_store (append_service_time service_time)
       (printed (CustomerCheckedOut customer_id (lane_number + 1) service_time) w)).

(** The state after a customer waiting for its checkout is resumed: it
    leaves the [with] block and its process ends with the same outcome. *)
Definition departed (value : option exn) (g : Generator) (w : World) : World :=
  match g with
  | GCustomer (customer_line66 r) => scheduled (ProcessEv value []) NORMAL 0 (released r w)
  | _ => w
  end.

Section StepsOfTheLoop.

Variable rng : nat -> Q.

(** The state after [setup] is resumed at the test of its loop *)
Definition looped (customer_id : nat) (callbacks : list Generator) (w : World) : World :=
  if Qltb (now (env w)) SIMULATION_TIME then
    if Qltb (rng (draws w)) 0
    then scheduled (ProcessEv (Some ValueError) callbacks) NORMAL 0 (drawn w)
    else scheduled (TimeoutEv (GSetup (setup_line71 customer_id)) callbacks) NORMAL
                   (rng (draws w)) (drawn w)
  else scheduled (ProcessEv None callbacks) NORMAL 0 w.

(** The state after a checkout process is started *)
Definition started (customer_id lane_number : nat) (callbacks : list Generator)
    (w : World) : World :=
  if Qltb (rng (draws w)) 0
  then scheduled (ProcessEv (Some ValueError) callbacks) NORMAL 0 (drawn w)
  else scheduled (TimeoutEv (GCheckout (checkout_line26 customer_id lane_number
                                          (rng (draws w)))) callbacks)
                 NORMAL (rng (draws w)) (drawn w).

(** What [env.step()] does, event by event *)
Inductive stepped (w : World) (m : Entry) (rest : list Entry) : StepResult -> Prop :=
| stepped_until :
    e_event m = UntilEv ->
    stepped w m rest (StopSimulation (popped m rest w))
| stepped_setup_start callbacks :
    e_event m = InitializeEv (GSetup setup_start) callbacks ->
    stepped w m rest (Continue (looped 0 callbacks (popped m rest w)))
| stepped_setup_timeout customer_id callbacks :
    e_event m = TimeoutEv (GSetup (setup_line71 customer_id)) callbacks ->
    stepped w m rest
      (Continue (looped (S customer_id) callbacks
         (scheduled (InitializeEv (GCustomer (customer_start (S customer_id))) [])
                    URGENT 0 (popped m rest w))))
| stepped_customer_start customer_id callbacks lane0 lane1 i lane :
    e_event m = InitializeEv (GCustomer (customer_start customer_id)) callbacks ->
    nth_error (checkout_lanes (store w)) 0 = Some lane0 ->
    nth_error (checkout_lanes (store w)) 1 = Some lane1 ->
    nth_error (checkout_lanes (store w)) i = Some lane ->
    routed (checkout_lanes (store w))
           (next_active lane0 lane1 (active_lanes (store w))) i ->
    stepped w m rest
      (Continue (arrived customer_id i lane0 lane1 lane (popped m rest w)))
| stepped_request r :
    e_event m = RequestEv r ->
    (rq_arrival r <= e_time m)%Q ->
    stepped w m rest (Continue (granted r (popped m rest w)))
| stepped_checkout_start customer_id lane_number callbacks :
    e_event m = InitializeEv (GCheckout (checkout_start customer_id lane_number)) callbacks ->
    Forall line66_pc callbacks ->
    stepped w m rest
      (Continue (started customer_id lane_number callbacks (popped m rest w)))
| stepped_checkout_timeout customer_id lane_number service_time callbacks :
    e_event m = TimeoutEv (GCheckout (checkout_line26 customer_id lane_number service_time))
                          callbacks ->
    (0 <= service_time)%Q -> Forall line66_pc callbacks ->
    stepped w m rest
      (Continue (served customer_id lane_number service_time callbacks (popped m rest w)))
| stepped_release lane :
    e_event m = ReleaseEv lane ->
    stepped w m rest
      (Continue (match nth_error (checkout_lanes (store w)) lane with
                 | Some res => triggered lane res (popped m rest w)
                 | None => popped m rest w
                 end))
| stepped_process_ok callbacks :
    e_event m = ProcessEv None callbacks ->
    Forall line66_pc callbacks ->
    stepped w m rest
      (Continue (fold_left (fun w g => departed None g w) callbacks (popped m rest w)))
| stepped_process_failed g callbacks :
    e_event m = ProcessEv (Some ValueError) (g :: callbacks) ->
    Forall line66_pc (g :: callbacks) ->
    stepped w m rest
      (Continue (fold_left (fun w g => departed (Some ValueError) g w) (g :: callbacks)
                           (popped m rest w)))
| stepped_process_raised :
    e_event m = ProcessEv (Some ValueError) [] ->
    stepped w m rest (Raised ValueError (popped m rest w)).

End StepsOfTheLoop.

(** ** Pending events and counters *)

(** Events whose processing spawns a process *)
Definition weight (ev : Event) : nat :=
  match ev with
  | TimeoutEv (GSetup _) _ | RequestEv _ => 2
  | _ => 1
  end.

(** The entries that are not after [f], weighted *)
Definition ahead (f x : Entry) : nat :=
  if entry_ltb f x then 0 else weight (e_event x).

Definition distance (f : Entry) (q : list Entry) : nat :=
  list_sum (map (ahead f) q).

(** [f] was scheduled no later than now *)
Definition behind (f : Entry) (w : World) : Prop :=
  (e_time f <= now (env w))%Q /\ e_eid f < eid (env w) /\ e_prio f <= NORMAL.

(** A state change that keeps the clock and the pending events, and puts
    at most [c] in front of [f] *)
Record stays (f : Entry) (c : nat) (w w' : World) : Prop := mk_stays
  { stays_now : now (env w') = now (env w);
    stays_eid : eid (env w) <= eid (env w');
    stays_queue : forall x, In x (queue (env w)) -> In x (queue (env w'));
    stays_distance : distance f (queue (env w')) <= distance f (queue (env w)) + c }.

Definition failure (x : Entry) : Prop :=
  exists callbacks, e_event x = ProcessEv (Some ValueError) callbacks.

(** How a state change moves the three counters: wait times recorded,
    service times recorded, checkouts under way *)
Record tally (dw ds dp : nat) (w w' : World) : Prop := mk_tally
  { tally_waiting : length (waiting_times (store w')) = length (waiting_times (store w)) + dw;
    tally_service : length (service_times (store w')) = length (service_times (store w)) + ds;
    tally_pending : pending_services (queue (env w')) = pending_services (queue (env w)) + dp }.

(** Every wait time recorded belongs to a finished checkout or to one
    under way. *)
Definition balanced (w : World) : Prop :=
  length (waiting_times (store w)) =
  length (service_times (store w)) + pending_services (queue (env w)).

Definition has_failure (w : World) : Prop :=
  exists f, In f (queue (env w)) /\ failure f.

(** ** Runs and sample streams *)

(** [env.run] raises [ValueError] from [w], with the clock where it is *)
Definition aborts (rng : nat -> Q) (w : World) : Prop :=
  exists k w', run rng k w = Aborted ValueError w' /\ (now (env w') == now (env w))%Q.

(** [n] steps of the event loop, as far as it continues *)
Fixpoint advance (rng : nat -> Q) (n : nat) (w : World) : World :=
  match n with
  | O => w
  | S n' =>
      match step rng w with
      | Continue w' => advance rng n' w'
      | _ => w
      end
  end.

(** The states [env.run] returns in: the until event has just been taken
    off the queue *)
Definition final (rng : nat -> Q) (w' : World) : Prop :=
  exists w, reachable rng w /\ step rng w = StopSimulation w'.

(** A sample stream given by its first values *)
Definition rng_of (samples : list Q) (k : nat) : Q := nth k samples 1000%Q.

(** One customer arrives at 599 and needs 5 minutes. *)
Definition rng_late : nat -> Q := rng_of [599; 5; 5]%Q.

(** One customer arrives at 1 and its service time is 0. *)
Definition rng_zero : nat -> Q := rng_of [1; 700; 0]%Q.

(** One customer arrives at 1 and its service time is -1. *)
Definition rng_negative : nat -> Q := rng_of [1; 700; -1]%Q.

(** A customer arrives every minute; customers 1, 12 and 21 need 500
    minutes and customer 11 needs 10.5 minutes. *)
Definition rng_crowded (k : nat) : Q :=
  match k with
  | 2 => 500%Q
  | 13 => (21 # 2)%Q
  | 24 => 500%Q
  | 25 => 500%Q
  | _ => 1%Q
  end.

(** The state [env.run] returns in, if it does within [n] steps *)
Definition finished (rng : nat -> Q) (n : nat) : World :=
  match run rng n initial with
  | Finished w => w
  | Aborted _ w => w
  | Running w => w
  end.

Definition popped_entry (w : World) : Entry :=
  match heappop (queue (env w)) with
  | Some (m, _) => m
  | None => mkEntry 0 0 0 UntilEv
  end.

Definition popped_rest (w : World) : list Entry :=
  match heappop (queue (env w)) with
  | Some (_, rest) => rest
  | None => []
  end.

(** ** Statements in the words of the specification *)

(** C2 as stated: a customer admitted before the horizon has its wait time
    and its service time in the output. *)
Definition admitted_customers_finish (rng : nat -> Q) : Prop :=
  forall n w customer_id t,
    run rng n initial = Finished w ->
    In (CustomerArrives customer_id t) (stdout w) -> (t < SIMULATION_TIME)%Q ->
    (exists waiting_time lane,
        In (CustomerWaited customer_id waiting_time lane) (stdout w) /\
        In waiting_time (waiting_times (store w))) /\
    (exists lane service_time,
        In (CustomerCheckedOut customer_id lane service_time) (stdout w) /\
        In service_time (service_times (store w))).

(** C3 as stated: when the run ends both sequences are as long as the
    number of customers fully served. *)
Definition lengths_agree (rng : nat -> Q) : Prop :=
  forall n w,
    run rng n initial = Finished w ->
    length (waiting_times (store w)) = length (service_times (store w)) /\
    length (service_times (store w)) = checked_out (stdout w).

(** C5 as stated: a run in which a sample that is not positive was drawn
    does not finish. *)
Definition nonpositive_samples_abort (rng : nat -> Q) : Prop :=
  forall n w k,
    run rng n initial = Finished w -> k < draws w -> (0 < rng k)%Q.

(** The two-branch policy of C4, in the words of the specification: the
    lane count after one evaluation and the lanes it activates. *)
Definition manage_checkouts_policy (lane1_load lane2_load active : nat) : nat * list nat :=
  if (MAX_QUEUE <=? lane1_load) && (active <? 2) then (2, [2])
  else if (2 <=? active) && (MAX_QUEUE <=? lane2_load) then (3, [3])
  else (active, []).

(** * Vocabulary of the further properties *)

(** ** What a step records *)

(** What [manage_checkouts] prints at time [t] *)
Definition openings (lane0 lane1 : Resource) (al : nat) (t : Q) : list Line :=
  (if MAX_QUEUE <=? load lane0 then [LaneOpens 2 t] else []) ++
  (if (2 <=? (if MAX_QUEUE <=? load lane0 then 2 else al)) && (MAX_QUEUE <=? load lane1)
   then [LaneOpens 3 t] else []).

(** The average of line 43 over the first [al] lanes *)
Definition average_load (lanes : list Resource) (al : nat) : Q :=
  binary64 (inject_Z (Z.of_nat (list_sum (map load (firstn al lanes)))) / inject_Z (Z.of_nat al)).

(** The state changes that leave the clock, the output and the records of
    the store as they are *)
Record same_records (w w' : World) : Prop := mk_same_records
  { same_now : now (env w') = now (env w);
    same_stdout : stdout w' = stdout w;
    same_active : active_lanes (store w') = active_lanes (store w);
    same_waiting : waiting_times (store w') = waiting_times (store w);
    same_service : service_times (store w') = service_times (store w);
    same_averages : average_queue_lengths (store w') = average_queue_lengths (store w);
    same_times : queue_record_times (store w') = queue_record_times (store w) }.

(** What the processing of an event, popped in [w], adds to the output and
    to the records: nothing, or the lines and values of an arrival (lines
    48-59), of a grant (lines 63-65) or of the end of a checkout (lines
    27-28). *)
Inductive recorded (w w' : World) : Prop :=
| recorded_nothing :
    same_records w w' -> recorded w w'
| recorded_arrival customer_id i queue_length lane0 lane1 :
    nth_error (checkout_lanes (store w)) 0 = Some lane0 ->
    nth_error (checkout_lanes (store w)) 1 = Some lane1 ->
    i < next_active lane0 lane1 (active_lanes (store w)) ->
    now (env w') = now (env w) ->
    stdout w' = stdout w ++ CustomerArrives customer_id (now (env w))
                  :: openings lane0 lane1 (active_lanes (store w)) (now (env w))
                  ++ [CustomerJoins customer_id (i + 1) queue_length] ->
    active_lanes (store w') = next_active lane0 lane1 (active_lanes (store w)) ->
    waiting_times (store w') = waiting_times (store w) ->
    service_times (store w') = service_times (store w) ->
    average_queue_lengths (store w') =
      average_queue_lengths (store w) ++
      [average_load (checkout_lanes (store w))
                    (next_active lane0 lane1 (active_lanes (store w)))] ->
    queue_record_times (store w') = queue_record_times (store w) ++ [now (env w)] ->
    recorded w w'
| recorded_wait r :
    (rq_arrival r <= now (env w))%Q ->
    now (env w') = now (env w) ->
    stdout w' = stdout w ++ [CustomerWaited (rq_customer r) (now (env w) - rq_arrival r)
                                            (rq_lane r + 1)] ->
    active_lanes (store w') = active_lanes (store w) ->
    waiting_times (store w') = waiting_times (store w) ++ [(now (env w) - rq_arrival r)%Q] ->
    service_times (store w') = service_times (store w) ->
    average_queue_lengths (store w') = average_queue_lengths (store w) ->
    queue_record_times (store w') = queue_record_times (store w) ->
    recorded w w'
| recorded_service customer_id lane_number service_time :
    (0 <= service_time)%Q ->
    now (env w') = now (env w) ->
    stdout w' = stdout w ++ [CustomerCheckedOut customer_id (lane_number + 1) service_time] ->
    active_lanes (store w') = active_lanes (store w) ->
    waiting_times (store w') = waiting_times (store w) ->
    service_times (store w') = service_times (store w) ++ [service_time] ->
    average_queue_lengths (store w') = average_queue_lengths (store w) ->
    queue_record_times (store w') = queue_record_times (store w) ->
    recorded w w'.

(** ** The output against the records *)

Definition waits_printed (out : list Line) : list Q :=
  flat_map (fun l => match l with CustomerWaited _ waiting_time _ => [waiting_time] | _ => [] end)
           out.

Definition services_printed (out : list Line) : list Q :=
  flat_map (fun l => match l with
                     | CustomerCheckedOut _ _ service_time => [service_time]
                     | _ => []
                     end) out.

Definition arrivals_printed (out : list Line) : list (nat * Q) :=
  flat_map (fun l => match l with CustomerArrives customer_id t => [(customer_id, t)] | _ => [] end)
           out.

Definition is_opening (lane : nat) (l : Line) : bool :=
  match l with LaneOpens k _ => (k =? lane) | _ => false end.

(** "Lane [lane] opens" was printed *)
Definition lane_opened (lane : nat) (out : list Line) : bool := existsb (is_opening lane) out.

Definition records_printed (w : World) : Prop :=
  waiting_times (store w) = waits_printed (stdout w) /\
  service_times (store w) = services_printed (stdout w) /\
  queue_record_times (store w) = map snd (arrivals_printed (stdout w)).

Record stats_ok (w : World) : Prop := mk_stats_ok
  { stats_length : length (average_queue_lengths (store w)) =
                   length (queue_record_times (store w));
    stats_sorted : StronglySorted Qle (queue_record_times (store w));
    stats_times : Forall (fun t => (0 <= t <= now (env w))%Q) (queue_record_times (store w));
    stats_averages : Forall (fun a => (0 <= a)%Q) (average_queue_lengths (store w));
    stats_now : (0 <= now (env w))%Q }.

Definition opens_ok (w : World) : Prop :=
  (2 <=? active_lanes (store w)) = lane_opened 2 (stdout w) /\
  (active_lanes (store w) = 3 -> lane_opened 3 (stdout w) = true).

(** Lane [i] (counted from 0) of a state *)
Definition lane_at (i : nat) (w : World) : Resource :=
  nth i (checkout_lanes (store w)) (mkResource [] []).

(** Lane [j] (counted from 0) is not active and holds nobody. *)
Definition shut (j : nat) (w : World) : Prop :=
  active_lanes (store w) <= j /\
  exists lane, nth_error (checkout_lanes (store w)) j = Some lane /\ lane_empty lane.

(** A lane whose opening was not printed is shut. *)
Definition closed_ok (w : World) : Prop :=
  forall j, j = 1 \/ j = 2 -> lane_opened (j + 1) (stdout w) = false -> shut j w.

(** ** Predicates on the pending events *)

(** Every pending entry satisfies [P]. *)
Definition queue_all (P : Entry -> Prop) (w : World) : Prop := Forall P (queue (env w)).

(** A predicate on the event of an entry *)
Definition on_event (PE : Event -> Prop) (x : Entry) : Prop := PE (e_event x).

(** A sample below [n] is negative. *)
Definition negative_drawn (rng : nat -> Q) (n : nat) : Prop :=
  exists k, k < n /\ (rng k < 0)%Q.

(** [x] is one of the first [n] samples. *)
Definition sample (rng : nat -> Q) (n : nat) (x : Q) : Prop :=
  exists k, k < n /\ x = rng k.

Definition failure_explained (rng : nat -> Q) (n : nat) (ev : Event) : Prop :=
  match ev with
  | ProcessEv (Some _) _ => negative_drawn rng n
  | _ => True
  end.

Definition service_sampled (rng : nat -> Q) (n : nat) (ev : Event) : Prop :=
  match ev with
  | TimeoutEv (GCheckout (checkout_line26 _ _ service_time)) _ => sample rng n service_time
  | _ => True
  end.

Definition samples_ok (rng : nat -> Q) (w : World) : Prop :=
  queue_all (on_event (service_sampled rng (draws w))) w /\
  Forall (sample rng (draws w)) (service_times (store w)).

(** ** Counting the pending events and the customers who wait *)

(** The customers who wait in the lanes *)
Definition waiting (lanes : list Resource) : nat :=
  list_sum (map (fun lane => length (put_queue lane)) lanes).

(** The pending entries weighted by [cost], plus [q] for each customer who
    waits in a lane *)
Definition mu (cost : Q -> Event -> nat) (q : nat) (w : World) : nat :=
  list_sum (map (fun x => cost (e_time x) (e_event x)) (queue (env w))) +
  q * waiting (checkout_lanes (store w)).

Definition is_grant (t : Q) (ev : Event) : nat :=
  match ev with RequestEv _ => 1 | _ => 0 end.

(** The customers whose lane was granted and who have not resumed yet *)
Definition granted_pending (q : list Entry) : nat :=
  list_sum (map (fun x => is_grant (e_time x) (e_event x)) q).

(** Every customer who arrived waits in a lane, has its grant pending, or
    has its wait time recorded. *)
Definition accounted (w : World) : Prop :=
  length (queue_record_times (store w)) =
  length (waiting_times (store w)) + mu is_grant 1 w.

(** ** A bound on the length of a run *)

(** How many more customers can arrive after time [t] when every sample
    is at least [eps] *)
Definition arrivals_left (eps t : Q) : nat :=
  Z.to_nat (Qceiling ((SIMULATION_TIME - t) / eps)).

(** A bound on the number of steps that the processing of an event pending
    at time [t] can cause, itself included; a customer who waits in a lane
    counts for 6. *)
Definition steps_left (eps : Q) (t : Q) (ev : Event) : nat :=
  match ev with
  | UntilEv => 0
  | InitializeEv (GSetup _) callbacks => 8 * arrivals_left eps t + 3 + 2 * length callbacks
  | TimeoutEv (GSetup _) callbacks => 8 * arrivals_left eps t + 2 + 2 * length callbacks
  | InitializeEv (GCustomer _) _ => 7
  | TimeoutEv (GCustomer _) _ => 0
  | RequestEv _ => 6
  | InitializeEv (GCheckout _) callbacks => 3 + 2 * length callbacks
  | TimeoutEv (GCheckout _) callbacks => 2 + 2 * length callbacks
  | ReleaseEv _ => 1
  | ProcessEv _ callbacks => 1 + 2 * length callbacks
  end.

(** ** The numbering of the customers *)

Definition is_start (t : Q) (ev : Event) : nat :=
  match ev with InitializeEv (GCustomer (customer_start _)) _ => 1 | _ => 0 end.

Definition is_setup (t : Q) (ev : Event) : nat :=
  match ev with InitializeEv (GSetup _) _ | TimeoutEv (GSetup _) _ => 1 | _ => 0 end.

(** The customers spawned by [setup] that have not started yet *)
Definition starts (w : World) : nat := mu is_start 0 w.

(** The pending events of [setup] *)
Definition setups (w : World) : nat := mu is_setup 0 w.

(** The customers that have arrived *)
Definition arrived_count (w : World) : nat := length (arrivals_printed (stdout w)).

(** With [n] customers arrived and [k] spawned and not started: a customer
    about to start is customer [n + 1], it was spawned at the present time
    and is urgent; [setup] has counted [n + k] customers. *)
Definition id_entry_ok (t : Q) (n k : nat) (x : Entry) : Prop :=
  match e_event x with
  | InitializeEv (GCustomer (customer_start customer_id)) _ =>
      customer_id = S n /\ (e_time x <= t)%Q /\ e_prio x = URGENT
  | TimeoutEv (GSetup (setup_line71 customer_id)) _ =>
      customer_id = n + k /\ e_prio x = NORMAL
  | InitializeEv (GSetup setup_start) _ => n = 0 /\ k = 0
  | _ => True
  end.

Record ids_ok (w : World) : Prop := mk_ids_ok
  { ids_seq : map fst (arrivals_printed (stdout w)) = seq 1 (arrived_count w);
    ids_entries : queue_all (id_entry_ok (now (env w)) (arrived_count w) (starts w)) w;
    ids_starts : starts w <= 1;
    ids_setups : setups w <= 1 }.

(** ** The customers in the lanes *)

(** The customers suspended at line 66 among the callbacks of a process *)
Definition callback_requests (callbacks : list Generator) : list Request :=
  flat_map (fun g => match g with GCustomer (customer_line66 r) => [r] | _ => [] end) callbacks.

(** The requests that a pending event will resume or release: a granted
    request, or the requests of the customers who wait for the process. *)
Definition holder (ev : Event) : list Request :=
  match ev with
  | RequestEv r => [r]
  | InitializeEv _ callbacks | TimeoutEv _ callbacks | ProcessEv _ callbacks =>
      callback_requests callbacks
  | _ => []
  end.

Definition holders (q : list Entry) : list Request :=
  flat_map (fun x => holder (e_event x)) q.

(** A checkout process is waited for by the customer it serves; nobody
    waits for a customer that has not started. *)
Definition callbacks_ok (x : Entry) : Prop :=
  match e_event x with
  | InitializeEv (GCustomer _) callbacks => callback_requests callbacks = []
  | InitializeEv (GCheckout (checkout_start customer_id lane_number)) callbacks
  | TimeoutEv (GCheckout (checkout_line26 customer_id lane_number _)) callbacks =>
      exists r, callback_requests callbacks = [r] /\
                rq_customer r = customer_id /\ rq_lane r = lane_number
  | _ => True
  end.

(** Lane [i] with [n] customers arrived: one user at most, requests made
    for this lane by customers who have arrived, in the order of their ids *)
Record lane_fifo (n i : nat) (lane : Resource) : Prop := mk_lane_fifo
  { fifo_users : length (users lane) <= 1;
    fifo_requests : Forall (fun r => rq_lane r = i /\ 1 <= rq_customer r <= n)
                           (users lane ++ put_queue lane);
    fifo_sorted : StronglySorted lt (map rq_customer (users lane ++ put_queue lane)) }.

Definition lanes_fifo (n : nat) (lanes : list Resource) : Prop :=
  forall i lane, nth_error lanes i = Some lane -> lane_fifo n i lane.

Record lanes_ok (w : World) : Prop := mk_lanes_ok
  { lanes_fifo_ok : lanes_fifo (arrived_count w) (checkout_lanes (store w));
    lanes_holders : Permutation (holders (queue (env w)))
                                (flat_map users (checkout_lanes (store w)));
    lanes_callbacks : queue_all callbacks_ok w }.

(** The checkouts under way or about to start on lane [i] (from 0) *)
Definition is_checkout_on (i : nat) (ev : Event) : bool :=
  match ev with
  | InitializeEv (GCheckout (checkout_start _ lane_number)) _
  | TimeoutEv (GCheckout (checkout_line26 _ lane_number _)) _ => (lane_number =? i)
  | _ => false
  end.

Definition checkouts_on (i : nat) (q : list Entry) : nat :=
  length (filter (fun x => is_checkout_on i (e_event x)) q).

(** The invariant of the lanes while an event is processed: [extra] are the
    requests of the event that was popped and are not yet back in the
    queue. *)
Record lanes_pre (extra : list Request) (n : nat) (w : World) : Prop := mk_lanes_pre
  { pre_fifo : lanes_fifo n (checkout_lanes (store w));
    pre_holders : Permutation (extra ++ holders (queue (env w)))
                              (flat_map users (checkout_lanes (store w)));
    pre_callbacks : queue_all callbacks_ok w }.

(** The requests of [l] made for lane [i] *)
Definition count_lane (i : nat) (l : list Request) : nat :=
  list_sum (map (fun r => if rq_lane r =? i then 1 else 0) l).

(** ** A run that never ends *)

(** [setup] has an event pending at time 0. *)
Definition setup_pending (w : World) : Prop :=
  exists x, In x (queue (env w)) /\ is_setup (e_time x) (e_event x) = 1 /\ (e_time x == 0)%Q.

(** Every sample is 0. *)
Definition rng_stuck (k : nat) : Q := 0.

(** ** What the output names *)

(** A line names a customer who has arrived, among the first [n], and a
    lane of the store. *)
Definition line_ok (n : nat) (l : Line) : Prop :=
  match l with
  | CustomerArrives customer_id _ => 1 <= customer_id <= n
  | CustomerJoins customer_id lane _
  | CustomerWaited customer_id _ lane
  | CustomerCheckedOut customer_id lane _ =>
      1 <= customer_id <= n /\ 1 <= lane <= NUM_CHECKOUT_LANES
  | LaneOpens lane _ => lane = 2 \/ lane = 3
  end.

(** ** The lines of the records *)

Definition is_waited (l : Line) : bool :=
  match l with CustomerWaited _ _ _ => true | _ => false end.

Definition is_arrival (l : Line) : bool :=
  match l with CustomerArrives _ _ => true | _ => false end.

(** ** Samples on a grid *)

(** [x] is a multiple of [2^-k]. *)
Definition on_grid (k : nat) (x : Q) : Prop :=
  exists n : Z, (x == inject_Z n / 2 ^ Z.of_nat k)%Q.

(** The time of a pending event is a double, if it is below 1024. *)
Definition exact_time (x : Entry) : Prop :=
  (e_time x < 1024)%Q -> (binary64 (e_time x) == e_time x)%Q.

(** ** Where each customer stands *)

(** The request [r] is the one of customer [c]. *)
Definition names (c : nat) (r : Request) : nat :=
  if rq_customer r =? c then 1 else 0.

(** The lines that lines 49, 65 and 27 print for customer [c] *)
Definition arrival_of (c : nat) (l : Line) : bool :=
  match l with CustomerArrives customer_id _ => customer_id =? c | _ => false end.

Definition wait_of (c : nat) (l : Line) : bool :=
  match l with CustomerWaited customer_id _ _ => customer_id =? c | _ => false end.

Definition checkout_of (c : nat) (l : Line) : bool :=
  match l with CustomerCheckedOut customer_id _ _ => customer_id =? c | _ => false end.

Definition lines (p : Line -> bool) (out : list Line) : nat := length (filter p out).

(** The pending grant of the lane of customer [c] *)
Definition grant_of (c : nat) (t : Q) (ev : Event) : nat :=
  match ev with RequestEv r => names c r | _ => 0 end.

(** The checkout of customer [c], about to start or under way *)
Definition service_of (c : nat) (t : Q) (ev : Event) : nat :=
  match ev with
  | InitializeEv (GCheckout (checkout_start customer_id _)) _
  | TimeoutEv (GCheckout (checkout_line26 customer_id _ _)) _ =>
      if customer_id =? c then 1 else 0
  | _ => 0
  end.

(** The requests of customer [c] that wait in the queues of the lanes *)
Definition queued (c : nat) (lanes : list Resource) : nat :=
  list_sum (map (fun lane => list_sum (map (names c) (put_queue lane))) lanes).

(** The requests of customer [c] that wait in a queue or are granted and
    not resumed yet *)
Definition in_lanes (c : nat) (w : World) : nat :=
  mu (grant_of c) 0 w + queued c (checkout_lanes (store w)).

(** Customer [c] arrived as often as it waits for a lane or was given one,
    and it was given a lane as often as it checked out or is being
    served, unless a process has failed. *)
Record staged (c : nat) (w : World) : Prop := mk_staged
  { staged_arrival :
      lines (arrival_of c) (stdout w) = lines (wait_of c) (stdout w) + in_lanes c w;
    staged_service :
      has_failure w \/
      lines (wait_of c) (stdout w) =
      lines (checkout_of c) (stdout w) + mu (service_of c) 0 w }.

(** An event scheduled without a delay is due by time [t]. *)
Definition due_ok (t : Q) (x : Entry) : Prop :=
  match e_event x with
  | UntilEv | TimeoutEv _ _ => True
  | _ => (e_time x <= t)%Q
  end.

(** The wait time of customer [c] is in the output. *)
Definition wait_recorded (c : nat) (w : World) : Prop :=
  exists waiting_time lane,
    In (CustomerWaited c waiting_time lane) (stdout w) /\
    In waiting_time (waiting_times (store w)).

(** The service time of customer [c] is in the output. *)
Definition service_recorded (c : nat) (w : World) : Prop :=
  exists lane service_time,
    In (CustomerCheckedOut c lane service_time) (stdout w) /\
    In service_time (service_times (store w)).

(** Line 65 never ran for customer [c]. *)
Definition never_waited (c : nat) (w : World) : Prop :=
  forall waiting_time lane, ~ In (CustomerWaited c waiting_time lane) (stdout w).

(** Lines 27-28 never ran for customer [c]. *)
Definition never_checked_out (c : nat) (w : World) : Prop :=
  forall lane service_time, ~ In (CustomerCheckedOut c lane service_time) (stdout w).

(** The service of customer [c] is under way and ends at or after the
    horizon: its timeout is pending. *)
Definition service_cut_off (c : nat) (w : World) : Prop :=
  exists x lane_number service_time callbacks,
    In x (queue (env w)) /\
    e_event x = TimeoutEv (GCheckout (checkout_line26 c lane_number service_time)) callbacks /\
    (SIMULATION_TIME <= e_time x)%Q.

(** Customer [c] waits in the queue of a lane. *)
Definition still_queued (c : nat) (w : World) : Prop :=
  exists lane r,
    In lane (checkout_lanes (store w)) /\ In r (put_queue lane) /\ rq_customer r = c.

(** * Properties *)

(** ** Python floats *)

Section Floats.
Local Open Scope Q_scope.

Lemma pow2_pos (z : Z) : 0 < 2 ^ z.
Proof. apply Qpower_0_lt. reflexivity. Qed.

Lemma pow2_plus (a b : Z) : 2 ^ (a + b) == 2 ^ a * 2 ^ b.
Proof. apply Qpower_plus. discriminate. Qed.

Lemma pow2_inject (a : Z) : (0 <= a)%Z -> inject_Z (2 ^ a) == 2 ^ a.
Proof. intros H. now rewrite Zpower_Qpower. Qed.

Lemma pow2_cancel (x : Q) (e : Z) : x * 2 ^ (- e) * 2 ^ e == x.
Proof.
  rewrite <- Qmult_assoc, <- pow2_plus.
  replace (- e + e)%Z with 0%Z by lia. cbn. ring.
Qed.

Lemma binade_spec (x : Q) : 0 < x -> 2 ^ binade x <= x /\ x < 2 ^ (binade x + 1).
Proof.
  intros Hx. destruct x as [n d]. unfold binade. cbn [Qnum Qden].
  assert (Hn : (0 < n)%Z) by (unfold Qlt in Hx; cbn in Hx; lia).
  set (a := Z.log2 n). set (b := Z.log2 (Z.pos d)).
  assert (Ha : (0 <= a)%Z) by apply Z.log2_nonneg.
  assert (Hb : (0 <= b)%Z) by apply Z.log2_nonneg.
  destruct (Z.log2_spec n Hn) as [Ha1 Ha2]. fold a in Ha1, Ha2.
  destruct (Z.log2_spec (Z.pos d) eq_refl) as [Hb1 Hb2]. fold b in Hb1, Hb2.
  assert (Qa1 : 2 ^ a <= inject_Z n) by (rewrite <- pow2_inject by lia; now rewrite <- Zle_Qle).
  assert (Qa2 : inject_Z n < 2 ^ (a + 1))
    by (rewrite <- pow2_inject by lia; now rewrite <- Zlt_Qlt).
  assert (Qb1 : 2 ^ b <= inject_Z (Z.pos d))
    by (rewrite <- pow2_inject by lia; now rewrite <- Zle_Qle).
  assert (Qb2 : inject_Z (Z.pos d) < 2 ^ (b + 1))
    by (rewrite <- pow2_inject by lia; now rewrite <- Zlt_Qlt).
  assert (Hd : 0 < inject_Z (Z.pos d)) by reflexivity.
  assert (E : (n # d) * inject_Z (Z.pos d) == inject_Z n).
  { rewrite (Qmake_Qdiv n d). field. intros C. rewrite C in Hd. discriminate. }
  destruct (Qle_bool (2 ^ (a - b)) (n # d)) eqn:C.
  - apply Qle_bool_iff in C. split; [exact C|].
    apply Qmult_lt_r with (z := inject_Z (Z.pos d)); [exact Hd|]. rewrite E.
    eapply Qlt_le_trans; [exact Qa2|].
    replace (a + 1)%Z with ((a - b + 1) + b)%Z by lia. rewrite pow2_plus.
    apply Qmult_le_l; [apply pow2_pos | exact Qb1].
  - assert (C' : n # d < 2 ^ (a - b)).
    { apply Qnot_le_lt. intros C'. apply Qle_bool_iff in C'. congruence. }
    split.
    + apply Qmult_le_r with (z := inject_Z (Z.pos d)); [exact Hd|]. rewrite E.
      eapply Qle_trans; [|exact Qa1].
      replace a with ((a - b - 1) + (b + 1))%Z at 2 by lia. rewrite pow2_plus.
      apply Qmult_le_l; [apply pow2_pos | apply Qlt_le_weak, Qb2].
    + now replace (a - b - 1 + 1)%Z with (a - b)%Z by lia.
Qed.

Lemma round_half_even_spec (y : Q) :
  inject_Z (round_half_even y) - (1 # 2) <= y <= inject_Z (round_half_even y) + (1 # 2).
Proof.
  unfold round_half_even.
  assert (H1 := Qfloor_le y). assert (H2 := Qlt_floor y).
  rewrite inject_Z_plus in H2. change (inject_Z 1) with 1 in H2.
  destruct (y - inject_Z (Qfloor y) ?= 1 # 2) eqn:C;
    [apply Qeq_alt in C; destruct (Z.even (Qfloor y)) | apply Qlt_alt in C | apply Qgt_alt in C];
    rewrite ?inject_Z_plus; change (inject_Z 1) with 1;
    generalize dependent (inject_Z (Qfloor y)); intros f; intros; lra.
Qed.

Lemma round_half_even_Z (y : Q) (n : Z) : y == inject_Z n -> round_half_even y = n.
Proof.
  intros E. unfold round_half_even.
  assert (F : Qfloor y = n) by (rewrite E; apply Qfloor_Z). rewrite F.
  assert (C : (y - inject_Z n ?= 1 # 2) = Lt) 
    by (rewrite <- Qlt_alt, E; generalize (inject_Z n); intros; lra).
  now rewrite C.
Qed.

Lemma round_half_even_nonneg (y : Q) : 0 <= y -> (0 <= round_half_even y)%Z.
Proof.
  intros H. unfold round_half_even.
  assert (F : (0 <= Qfloor y)%Z).
  { change 0%Z with (Qfloor 0). now apply Qfloor_resp_le. }
  destruct (_ ?= _); [destruct (Z.even _)| |]; lia.
Qed.

Lemma nearest_eq (x : Q) :
  nearest x == inject_Z (round_half_even (x * 2 ^ (- (binade x - 52)))) * 2 ^ (binade x - 52).
Proof. unfold nearest. apply Qred_correct. Qed.

Lemma nearest_nonneg (x : Q) : 0 <= x -> 0 <= nearest x.
Proof.
  intros H. rewrite nearest_eq. apply Qmult_le_0_compat.
  - change 0 with (inject_Z 0). rewrite <- Zle_Qle. apply round_half_even_nonneg.
    apply Qmult_le_0_compat; [exact H | apply Qlt_le_weak, pow2_pos].
  - apply Qlt_le_weak, pow2_pos.
Qed.

Lemma nearest_close (x : Q) : 0 < x -> Qabs (nearest x - x) <= x / 2 ^ 53.
Proof.
  intros Hx. rewrite nearest_eq.
  set (e := (binade x - 52)%Z). set (y := x * 2 ^ (- e)).
  assert (Hy := round_half_even_spec y).
  assert (Ey : y * 2 ^ e == x) by apply pow2_cancel.
  assert (Hp := pow2_pos e).
  destruct (binade_spec Hx) as [Hb _].
  assert (Eb : 2 ^ binade x == 2 ^ e * 2 ^ 52).
  { rewrite <- pow2_plus. unfold e. now replace (binade x - 52 + 52)%Z with (binade x) by lia. }
  rewrite Eb in Hb.
  assert (E53 : 2 ^ 53 == 2 * 2 ^ 52) by reflexivity.
  set (m := inject_Z (round_half_even y)) in *.
  assert (Hd : Qabs (m * 2 ^ e - x) <= (1 # 2) * 2 ^ e).
  { rewrite <- Ey. apply Qabs_case; intros _; nra. }
  eapply Qle_trans; [exact Hd|].
  apply Qle_shift_div_l; [reflexivity|]. rewrite E53.
  assert (H52 : 0 < 2 ^ 52) by reflexivity. nra.
Qed.

Lemma nearest_exact (x : Q) (n : Z) :
  x * 2 ^ (- (binade x - 52)) == inject_Z n -> nearest x == x.
Proof.
  intros E. rewrite nearest_eq, (round_half_even_Z E), <- E. apply pow2_cancel.
Qed.

Lemma binary64_nonneg (x : Q) : 0 <= x -> 0 <= binary64 x.
Proof.
  intros H. unfold binary64. destruct (x ?= 0) eqn:C; [lra| |now apply nearest_nonneg].
  apply Qlt_alt in C. lra.
Qed.

Lemma binary64_close (x : Q) : 0 <= x -> Qabs (binary64 x - x) <= x / 2 ^ 53.
Proof.
  intros H. unfold binary64. destruct (x ?= 0) eqn:C.
  - apply Qeq_alt in C. rewrite C. vm_compute. discriminate.
  - apply Qlt_alt in C. lra.
  - apply Qgt_alt in C. now apply nearest_close.
Qed.

(** On the multiples of [2^-k] below 1024, [k <= 43], nothing is rounded. *)
Lemma binary64_grid (x : Q) (n : Z) (k : Z) :
  (0 <= k <= 43)%Z -> x == inject_Z n / 2 ^ k -> 0 <= x -> x < 1024 -> binary64 x == x.
Proof.
  intros Hk E H0 H1. unfold binary64. destruct (x ?= 0) eqn:C.
  - apply Qeq_alt in C. now rewrite C.
  - apply Qlt_alt in C. lra.
  - apply Qgt_alt in C. destruct (binade_spec C) as [Hb _].
    assert (Hb9 : (binade x < 10)%Z).
    { apply Qpower_lt_compat_l_inv with (q := 2); [|reflexivity].
      eapply Qle_lt_trans; [exact Hb|]. exact H1. }
    apply nearest_exact with (n := (n * 2 ^ (52 - binade x - k))%Z).
    set (b := binade x) in *. clearbody b.
    rewrite inject_Z_mult, pow2_inject by lia. rewrite E.
    replace (- (b - 52))%Z with (k + (52 - b - k))%Z by lia.
    rewrite pow2_plus. field. intros D. assert (P := pow2_pos k). rewrite D in P. discriminate.
Qed.

(** [20 / 3] in Python *)
Example true_div_rounds :
  fst (true_div 20 3 new_world) = Val (7505999378950827 # 1125899906842624).
Proof. vm_compute. reflexivity. Qed.

End Floats.

(** ** The order on queue entries and [heappop] *)

Lemma Qltb_lt (x y : Q) : Qltb x y = true <-> (x < y)%Q.
Proof.
  unfold Qltb. rewrite negb_true_iff. split; intro H.
  - apply Qnot_le_lt. intro Hle. apply Qle_bool_iff in Hle. congruence.
  - destruct (Qle_bool y x) eqn:E; [|reflexivity].
    apply Qle_bool_iff in E. lra.
Qed.

Lemma Qltb_ge (x y : Q) : Qltb x y = false <-> (y <= x)%Q.
Proof.
  unfold Qltb. rewrite negb_false_iff. apply Qle_bool_iff.
Qed.

Lemma entry_ltb_lt (a b : Entry) : entry_ltb a b = true <-> entry_lt a b.
Proof.
  unfold entry_ltb, entry_lt.
  destruct (e_time a ?= e_time b)%Q eqn:E.
  - apply Qeq_alt in E.
    rewrite orb_true_iff, andb_true_iff, !Nat.ltb_lt, Nat.eqb_eq.
    split; [intros H; right; tauto | intros [H | H]; [lra | tauto]].
  - apply Qlt_alt in E. split; [tauto | reflexivity].
  - apply Qgt_alt in E. split; [discriminate | intros [H | [H _]]; lra].
Qed.

Lemma entry_lt_asym (a b : Entry) : entry_lt a b -> ~ entry_lt b a.
Proof. unfold entry_lt. intros [H | [H H']] [G | [G G']]; try lra; lia. Qed.

Lemma entry_lt_neg_trans (a b c : Entry) :
  ~ entry_lt a b -> ~ entry_lt b c -> ~ entry_lt a c.
Proof.
  unfold entry_lt. intros Hab Hbc Hac.
  destruct (Qlt_le_dec (e_time a) (e_time b)) as [|Hab']; [tauto|].
  destruct (Qlt_le_dec (e_time b) (e_time c)) as [|Hbc']; [tauto|].
  destruct Hac as [Hac | [Hac Hac']]; [lra|].
  assert (Eab : (e_time a == e_time b)%Q) by lra.
  assert (Ebc : (e_time b == e_time c)%Q) by lra.
  assert (~ (e_prio a < e_prio b \/ (e_prio a = e_prio b /\ e_eid a < e_eid b))) by tauto.
  assert (~ (e_prio b < e_prio c \/ (e_prio b = e_prio c /\ e_eid b < e_eid c))) by tauto.
  lia.
Qed.

(** [heappop] takes out one entry, and no remaining entry is below it. *)
Lemma heappop_spec (q : list Entry) (m : Entry) (r : list Entry) :
  heappop q = Some (m, r) ->
  Permutation q (m :: r) /\ Forall (fun x => ~ entry_lt x m) r.
Proof.
  revert m r. induction q as [|x rest IH]; intros m r H; simpl in H; [discriminate|].
  destruct (heappop rest) as [[m' rest']|] eqn:E.
  - destruct (IH _ _ eq_refl) as [HP HF].
    destruct (entry_ltb m' x) eqn:L; inversion H; subst; clear H.
    + apply entry_ltb_lt in L. split.
      * rewrite HP. apply perm_swap.
      * constructor; [now apply entry_lt_asym | assumption].
    + assert (L' : ~ entry_lt m' m).
      { intro C. apply entry_ltb_lt in C. congruence. }
      split; [reflexivity|].
      eapply Permutation_Forall; [symmetry; exact HP|].
      constructor; [assumption|].
      eapply Forall_impl; [|exact HF]. intros y Hy.
      now apply entry_lt_neg_trans with m'.
  - destruct rest; [|simpl in E; destruct (heappop rest) as [[? ?]|];
                     [destruct (entry_ltb _ _)|]; discriminate].
    inversion H; subst. split; [reflexivity | constructor].
Qed.

Lemma heappop_none (q : list Entry) : heappop q = None -> q = [].
Proof.
  destruct q as [|x rest]; [reflexivity|]. simpl.
  destruct (heappop rest) as [[m rest']|]; [destruct (entry_ltb m x)|]; discriminate.
Qed.

Lemma heappop_in (q : list Entry) (m : Entry) (r : list Entry) (x : Entry) :
  heappop q = Some (m, r) -> In x q <-> x = m \/ In x r.
Proof.
  intros H. apply heappop_spec in H as [HP _]. split; intro Hx.
  - apply (Permutation_in _ HP) in Hx. destruct Hx; [left; congruence | now right].
  - apply (Permutation_in _ (Permutation_sym HP)). destruct Hx; [left; congruence | now right].
Qed.

(** ** Python's [min] *)

Section PyMin.

Variable key : nat -> Py nat.
Variable keyf : nat -> nat.
Variable w : World.

Lemma min_loop_spec (l : list nat) : forall best,
  (forall j, In j l -> key j w = (Val (keyf j), w)) ->
  exists i, min_loop key l best (keyf best) w = (Val i, w) /\
    ((i = best /\ forall j, In j l -> keyf best <= keyf j) \/
     (keyf i < keyf best /\ first_min keyf l i)).
Proof.
  induction l as [|x rest IH]; intros best Hkey.
  - exists best. split; [reflexivity|]. left. split; [reflexivity | intros j []].
  - simpl. unfold bind at 1. rewrite (Hkey x (or_introl eq_refl)).
    assert (Hrest : forall j, In j rest -> key j w = (Val (keyf j), w))
      by (intros j Hj; apply Hkey; now right).
    destruct (keyf x <? keyf best) eqn:E.
    + apply Nat.ltb_lt in E.
      destruct (IH x Hrest) as (i & Hrun & [[-> Hmin] | [Hlt (l1 & l2 & -> & H1 & H2)]]).
      * exists x. split; [exact Hrun|]. right. split; [exact E|].
        exists [], rest. repeat split; [intros j [] | exact Hmin].
      * exists i. split; [exact Hrun|]. right. split; [lia|].
        exists (x :: l1), l2. repeat split; [|exact H2].
        intros j [<- | Hj]; [exact Hlt | now apply H1].
    + apply Nat.ltb_ge in E.
      destruct (IH best Hrest) as (i & Hrun & [[-> Hmin] | [Hlt (l1 & l2 & -> & H1 & H2)]]).
      * exists best. split; [exact Hrun|]. left. split; [reflexivity|].
        intros j [<- | Hj]; [exact E | now apply Hmin].
      * exists i. split; [exact Hrun|]. right. split; [exact Hlt|].
        exists (x :: l1), l2. repeat split; [|exact H2].
        intros j [<- | Hj]; [lia | now apply H1].
Qed.

Lemma py_min_spec (l : list nat) :
  l <> [] ->
  (forall j, In j l -> key j w = (Val (keyf j), w)) ->
  exists i, py_min l key w = (Val i, w) /\ first_min keyf l i.
Proof.
  destruct l as [|x rest]; [congruence|]. intros _ Hkey.
  unfold py_min, bind. rewrite (Hkey x (or_introl eq_refl)).
  assert (Hrest : forall j, In j rest -> key j w = (Val (keyf j), w))
    by (intros j Hj; apply Hkey; now right).
  destruct (min_loop_spec rest x Hrest)
    as (i & Hrun & [[-> Hmin] | [Hlt (l1 & l2 & -> & H1 & H2)]]).
  - exists x. split; [exact Hrun|]. exists [], rest. repeat split; [intros j [] | exact Hmin].
  - exists i. split; [exact Hrun|]. exists (x :: l1), l2. repeat split; [|exact H2].
    intros j [<- | Hj]; [exact Hlt | now apply H1].
Qed.

End PyMin.

(** ** Lists updated in place *)

Lemma length_list_set {A} (l : list A) (i : nat) (x : A) :
  length (list_set l i x) = length l.
Proof.
  revert i. induction l as [|y rest IH]; intros [|i]; simpl; auto.
Qed.

Lemma nth_error_list_set_eq {A} (l : list A) (i : nat) (x : A) :
  i < length l -> nth_error (list_set l i x) i = Some x.
Proof.
  revert i. induction l as [|y rest IH]; intros [|i] H; simpl in *; try lia; auto.
  apply IH. lia.
Qed.

Lemma nth_error_list_set_neq {A} (l : list A) (i j : nat) (x : A) :
  i <> j -> nth_error (list_set l i x) j = nth_error l j.
Proof.
  revert i j. induction l as [|y rest IH]; intros [|i] [|j] H; simpl; auto; try lia.
Qed.

Lemma in_list_set {A} (l : list A) (i : nat) (x y : A) :
  In y (list_set l i x) -> y = x \/ In y l.
Proof.
  revert i. induction l as [|z rest IH]; intros [|i]; simpl; try tauto.
  - intros [H | H]; auto.
  - intros [H | H]; auto. destruct (IH _ H); auto.
Qed.

Lemma seq_split (n : nat) : forall a l1 i l2,
  seq a n = l1 ++ i :: l2 ->
  i = a + length l1 /\ i < a + n /\
  (forall j, In j l1 -> a <= j < i) /\ (forall j, In j l2 -> i < j < a + n).
Proof.
  induction n as [|n IH]; intros a l1 i l2 H; simpl in H.
  - destruct l1; discriminate.
  - destruct l1 as [|x l1]; simpl in H; inversion H; subst; clear H.
    + simpl. split; [lia|]. split; [lia|]. split; [intros j []|].
      intros j Hj. apply in_seq in Hj. lia.
    + destruct (IH _ _ _ _ H2) as (Hi & Hlt & H1 & H3). simpl.
      split; [lia|]. split; [lia|]. split.
      * intros j [<- | Hj]; [lia | apply H1 in Hj; lia].
      * intros j Hj. apply H3 in Hj. lia.
Qed.

(** ** What the store operations do when they do not raise *)

Local Arguments nth_error : simpl never.
Local Arguments Nat.leb : simpl never.
Local Arguments Nat.ltb : simpl never.
Local Arguments Nat.eqb : simpl never.

Lemma manage_checkouts_run (w : World) (lane0 lane1 : Resource) :
  nth_error (checkout_lanes (store w)) 0 = Some lane0 ->
  nth_error (checkout_lanes (store w)) 1 = Some lane1 ->
  manage_checkouts w = (Val tt, managed lane0 lane1 w).
Proof.
  intros H0 H1. unfold manage_checkouts, managed, bind, checkout_lane, load.
  rewrite H0. cbn.
  destruct (MAX_QUEUE <=? count lane0 + length (put_queue lane0)); cbn.
  - change (2 <=? 2) with true. cbn. rewrite H1. cbn.
    destruct (MAX_QUEUE <=? count lane1 + length (put_queue lane1)); reflexivity.
  - destruct (2 <=? active_lanes (store w)); cbn; [|reflexivity].
    rewrite H1. cbn.
    destruct (MAX_QUEUE <=? count lane1 + length (put_queue lane1)); reflexivity.
Qed.

Lemma update_queue_stats_run (w : World) :
  active_lanes (store w) <> 0 ->
  update_queue_stats w =
  (Val tt, with_store (append_queue_stats (average (store w)) (now (env w))) w).
Proof.
  intros H. unfold update_queue_stats, bind, get, true_div. cbn.
  destruct (Nat.eqb_spec (active_lanes (store w)) 0) as [E|E]; [contradiction|].
  reflexivity.
Qed.

Lemma choose_lane_run (w : World) :
  1 <= active_lanes (store w) <= length (checkout_lanes (store w)) ->
  exists i, choose_lane w = (Val i, w) /\
            routed (checkout_lanes (store w)) (active_lanes (store w)) i.
Proof.
  intros [Hlo Hhi]. unfold choose_lane, bind, get. cbn.
  set (lanes := checkout_lanes (store w)). set (al := active_lanes (store w)).
  destruct (@py_min_spec lane_key (lane_load lanes) w (seq 0 al))
    as (i & Hrun & l1 & l2 & Hsplit & H1 & H2).
  - subst al. destruct (active_lanes (store w)); [lia | discriminate].
  - intros j Hj. apply in_seq in Hj. unfold lane_key, bind, checkout_lane, lane_load.
    fold lanes. destruct (nth_error lanes j) eqn:E;
      [unfold ret, load; now rewrite Nat.add_comm|].
    apply nth_error_None in E. subst lanes al. lia.
  - exists i. split; [exact Hrun|].
    destruct (seq_split _ _ _ _ _ Hsplit) as (Hi & Hlt & Hl1 & Hl2).
    assert (Hin : forall j, j < al -> In j l1 \/ j = i \/ In j l2).
    { intros j Hj. assert (Hj' : In j (seq 0 al)) by (apply in_seq; lia).
      rewrite Hsplit in Hj'. apply in_app_or in Hj'.
      destruct Hj' as [|[|]]; auto. }
    split; [lia|]. split.
    + intros j Hj. destruct (Hin j Hj) as [Hj' | [-> | Hj']]; [|lia|].
      * specialize (H1 j Hj'). lia.
      * now apply H2.
    + intros j Hj. apply H1. destruct (Hin j) as [Hj' | [-> | Hj']]; auto; [lia..|].
      apply Hl2 in Hj'. lia.
Qed.

Lemma managed_active (lane0 lane1 : Resource) (w : World) :
  active_lanes (store (managed lane0 lane1 w)) =
  next_active lane0 lane1 (active_lanes (store w)).
Proof.
  unfold managed, next_active.
  destruct (MAX_QUEUE <=? load lane0); cbn; destruct (_ && _); reflexivity.
Qed.

Lemma managed_lanes (lane0 lane1 : Resource) (w : World) :
  checkout_lanes (store (managed lane0 lane1 w)) = checkout_lanes (store w).
Proof.
  unfold managed. destruct (MAX_QUEUE <=? load lane0); cbn; destruct (_ && _); reflexivity.
Qed.

Lemma managed_env (lane0 lane1 : Resource) (w : World) :
  env (managed lane0 lane1 w) = env w.
Proof.
  unfold managed. destruct (MAX_QUEUE <=? load lane0); cbn; destruct (_ && _); reflexivity.
Qed.

Lemma _trigger_put_cases (res : Resource) :
  _trigger_put res = (res, None) \/
  exists g rest, put_queue res = g :: rest /\ users res = [] /\
                 _trigger_put res = (mkResource [g] rest, Some g).
Proof.
  unfold _trigger_put. destruct (put_queue res) as [|g rest] eqn:E; [now left|].
  destruct (users res) as [|u us] eqn:U; cbn; [|now left].
  right. exists g, rest. auto.
Qed.

Lemma trigger_put_run (i : nat) (w : World) (res : Resource) :
  nth_error (checkout_lanes (store w)) i = Some res ->
  trigger_put i w = (Val tt, triggered i res w).
Proof.
  intros H. unfold trigger_put, triggered. rewrite H.
  destruct (_trigger_put res) as [res' [g|]]; [|reflexivity].
  unfold bind, update_lane, modify, schedule, put_lane, with_store. cbn.
  rewrite H. reflexivity.
Qed.

Lemma request_run (r : Request) (w : World) (res : Resource) :
  nth_error (checkout_lanes (store w)) (rq_lane r) = Some res ->
  request r w = (Val tt, requested r res w).
Proof.
  intros H. unfold request, requested, bind, checkout_lane, update_lane, modify.
  unfold put_lane, with_store. rewrite H. cbn. rewrite H.
  apply trigger_put_run. cbn.
  apply nth_error_list_set_eq. apply nth_error_Some. congruence.
Qed.

Lemma release_run (r : Request) (w : World) :
  release r w = (Val tt, released r w).
Proof.
  unfold release, released, bind, update_lane, modify, schedule, with_store. cbn.
  destruct (nth_error (checkout_lanes (store w)) (rq_lane r)); reflexivity.
Qed.

(** ** The invariant of the event loop *)

Lemma event_ok_mono (t t' : Q) (ev : Event) :
  (t <= t')%Q -> event_ok t ev -> event_ok t' ev.
Proof. destruct ev; simpl; auto. intros. lra. Qed.

Lemma entry_ok_next (t : Q) (n n' : nat) (x : Entry) :
  n <= n' -> entry_ok t n x -> entry_ok t n' x.
Proof. intros Hn [? ? ? ? ? ? ?]. constructor; auto. lia. Qed.

Lemma checked_out_app (out : list Line) (l : Line) :
  checked_out (out ++ [l]) = checked_out out + (if is_checked_out l then 1 else 0).
Proof.
  unfold checked_out. rewrite filter_app, length_app. simpl.
  destruct (is_checked_out l); reflexivity.
Qed.

Lemma pending_services_cons (x : Entry) (q : list Entry) :
  pending_services (x :: q) = in_service (e_event x) + pending_services q.
Proof. reflexivity. Qed.

Local Arguments pending_services : simpl never.
Local Arguments checked_out : simpl never.

(** *** The elementary state changes *)

Section Transformers.

Variables (k : nat) (w : World).

Lemma inv_weaken (k' : nat) : k' <= k -> InvK k w -> InvK k' w.
Proof. intros Hk [? ? ? ? ? ? ? ? ? ?]. constructor; auto. lia. Qed.

Lemma inv_scheduled (ev : Event) (priority : nat) (delay : Q) :
  InvK (in_service ev + k) w ->
  (0 <= delay)%Q -> priority <= NORMAL ->
  event_ok (now (env w)) ev -> ev <> UntilEv ->
  (is_process ev -> (delay == 0)%Q) ->
  InvK k (scheduled ev priority delay w).
Proof.
  intros [? ? ? [u (Hu & Hu')] ? ? ? ? ? ?] Hd Hp Hev Hne Hproc.
  constructor; cbn; auto.
  - constructor.
    + constructor; cbn; auto; try lra; try lia; try contradiction.
      intros Hpr. specialize (Hproc Hpr). lra.
    + eapply Forall_impl; [|eassumption]. intros x. apply entry_ok_next. lia.
  - exists u. split; [now right | assumption].
  - unfold heappush. rewrite pending_services_cons. cbn. lia.
Qed.

Lemma inv_printed (l : Line) :
  InvK k w -> is_checked_out l = false -> InvK k (printed l w).
Proof.
  intros [? ? ? ? ? ? ? ? ? ?] Hl. constructor; cbn; auto.
  rewrite checked_out_app, Hl. lia.
Qed.

Lemma inv_checked_out (customer_id lane : nat) (service_time : Q) :
  InvK (S k) w -> (0 <= service_time)%Q ->
  InvK k (with_store (append_service_time service_time)
            (printed (CustomerCheckedOut customer_id lane service_time) w)).
Proof.
  intros [? ? ? ? ? ? ? ? ? ?] Hs. constructor; cbn; auto.
  - apply Forall_app. split; [assumption | constructor; [assumption | constructor]].
  - rewrite length_app. simpl. lia.
  - rewrite checked_out_app, length_app. simpl. lia.
Qed.

Lemma inv_waited (x : Q) :
  InvK k w -> (0 <= x)%Q -> InvK (S k) (with_store (append_waiting_time x) w).
Proof.
  intros [? ? ? ? ? ? ? ? ? ?] Hx. constructor; cbn; auto.
  - apply Forall_app. split; [assumption | constructor; [assumption | constructor]].
  - rewrite length_app. simpl. lia.
Qed.

Lemma inv_active (n : nat) :
  InvK k w -> 2 <= n <= NUM_CHECKOUT_LANES -> InvK k (with_store (set_active_lanes n) w).
Proof.
  intros [[? ? ?] ? ? ? ? ? ? ? ? ?] Hn. constructor; cbn; auto.
  constructor; auto; [lia|]. intros ->. lia.
Qed.

Lemma inv_stats (a t : Q) :
  InvK k w -> InvK k (with_store (append_queue_stats a t) w).
Proof. intros [? ? ? ? ? ? ? ? ? ?]. constructor; cbn; auto. Qed.

Lemma inv_drawn : InvK k w -> InvK k (drawn w).
Proof. intros [? ? ? ? ? ? ? ? ? ?]. constructor; cbn; auto. Qed.

Lemma inv_put_lane (i : nat) (res : Resource) :
  InvK k w -> lane_ok (now (env w)) res ->
  (active_lanes (store w) = 1 -> 1 <= i -> lane_empty res) ->
  InvK k (put_lane i res w).
Proof.
  intros [[Hlen Hal Hcl] Hl ? ? ? ? ? ? ? ?] Hres Hi. constructor; cbn; auto.
  - constructor; cbn; auto.
    + now rewrite length_list_set.
    + intros Hone j res' Hj Hnth.
      destruct (Nat.eq_dec i j) as [<- | Hij].
      * assert (Hlt : i < length (checkout_lanes (store w))).
        { rewrite <- (length_list_set _ i res). apply nth_error_Some. congruence. }
        rewrite nth_error_list_set_eq in Hnth by assumption.
        inversion Hnth; subst. auto.
      * rewrite nth_error_list_set_neq in Hnth by assumption. eauto.
  - apply Forall_forall. intros x Hx. apply in_list_set in Hx.
    destruct Hx as [-> | Hx]; [assumption|].
    rewrite Forall_forall in Hl. auto.
Qed.

End Transformers.

Lemma pending_services_perm (q q' : list Entry) :
  Permutation q q' -> pending_services q = pending_services q'.
Proof.
  induction 1; rewrite ?pending_services_cons; lia.
Qed.

Lemma shape_lanes (lanes : list Resource) (al : nat) :
  shape_ok lanes al ->
  exists lane0 lane1 lane2, lanes = [lane0; lane1; lane2].
Proof.
  intros [Hlen _ _]. destruct lanes as [|l0 [|l1 [|l2 [|l3 rest]]]]; try discriminate.
  now exists l0, l1, l2.
Qed.

(** *** The operations of the store and of the lanes *)

Section Operations.

Variables (k : nat) (w : World).

Lemma inv_managed (lane0 lane1 : Resource) :
  InvK k w -> InvK k (managed lane0 lane1 w).
Proof.
  intros H. unfold managed.
  destruct (MAX_QUEUE <=? load lane0).
  - destruct (_ && _).
    + apply inv_printed; [|reflexivity]. apply inv_active; [|cbv; lia].
      apply inv_active; [|cbv; lia]. now apply inv_printed.
    + apply inv_active; [|cbv; lia]. now apply inv_printed.
  - destruct (_ && _); [|assumption].
    apply inv_printed; [|reflexivity]. apply inv_active; [assumption | cbv; lia].
Qed.

Lemma inv_triggered (i : nat) (res : Resource) :
  InvK k w -> nth_error (checkout_lanes (store w)) i = Some res ->
  InvK k (triggered i res w).
Proof.
  intros H Hnth. unfold triggered.
  destruct (_trigger_put_cases res) as [-> | (g & rest & Hq & Hu & ->)]; [assumption|].
  assert (Hres : lane_ok (now (env w)) res).
  { destruct H as [_ Hl _ _ _ _ _ _ _ _]. rewrite Forall_forall in Hl.
    apply Hl. eapply nth_error_In; eassumption. }
  unfold lane_ok in Hres. rewrite Hq in Hres. inversion Hres; subst.
  apply inv_scheduled; cbn; auto; try lra; try lia; try discriminate; try tauto.
  apply inv_put_lane; [assumption | assumption |].
  intros Hal Hi. destruct H as [[_ _ Hcl] _ _ _ _ _ _ _ _ _].
  destruct (Hcl Hal i res Hi Hnth) as [_ He]. congruence.
Qed.

End Operations.

Section Requests.

Variables (k : nat) (w : World).

Lemma inv_requested (r : Request) (res : Resource) :
  InvK k w -> nth_error (checkout_lanes (store w)) (rq_lane r) = Some res ->
  rq_lane r < active_lanes (store w) ->
  (rq_arrival r <= now (env w))%Q ->
  InvK k (requested r res w).
Proof.
  intros H Hnth Hlt Harr. unfold requested.
  assert (Hres : lane_ok (now (env w)) res).
  { destruct H as [_ Hl _ _ _ _ _ _ _ _]. rewrite Forall_forall in Hl.
    apply Hl. eapply nth_error_In; eassumption. }
  apply inv_triggered.
  - apply inv_put_lane; [assumption | |intros; lia].
    unfold lane_ok. cbn. apply Forall_app. split; [exact Hres|].
    constructor; [assumption | constructor].
  - cbn. apply nth_error_list_set_eq. apply nth_error_Some. congruence.
Qed.

Lemma users_remove_nil (r : Request) : users_remove r [] = [].
Proof. reflexivity. Qed.

Lemma inv_released (r : Request) :
  InvK k w -> InvK k (released r w).
Proof.
  intros H. unfold released.
  apply inv_scheduled; cbn; auto; try lra; try lia; try discriminate; try tauto.
  destruct (nth_error (checkout_lanes (store w)) (rq_lane r)) as [res|] eqn:Hnth;
    [|assumption].
  apply inv_put_lane; [assumption | |].
  - destruct H as [_ Hl _ _ _ _ _ _ _ _]. rewrite Forall_forall in Hl.
    apply (Hl res). eapply nth_error_In; eassumption.
  - intros Hal Hi. destruct H as [[_ _ Hcl] _ _ _ _ _ _ _ _ _].
    destruct (Hcl Hal _ res Hi Hnth) as [Hu Hq]. split; cbn; [|assumption].
    rewrite Hu. reflexivity.
Qed.

End Requests.

(** *** The generators and the event loop *)

Lemma bind_val {A B} (m : Py A) (f : A -> Py B) (w w' : World) (a : A) :
  m w = (Val a, w') -> bind m f w = f a w'.
Proof. intros H. unfold bind. now rewrite H. Qed.

Lemma bind_exc {A B} (m : Py A) (f : A -> Py B) (w w' : World) (e : exn) :
  m w = (Exc e, w') -> bind m f w = (Exc e, w').
Proof. intros H. unfold bind. now rewrite H. Qed.

(** One statement of a generator body *)
Ltac py_step := erewrite bind_val by reflexivity.
Ltac py_raise := erewrite bind_exc by reflexivity.

Ltac inv_sched :=
  apply inv_scheduled; cbn; auto; try lra; try (unfold URGENT, NORMAL; lia);
  try discriminate; try tauto; try (now repeat constructor).

Section Generators.

Variable rng : nat -> Q.

Lemma next_active_bounds (lane0 lane1 : Resource) (al : nat) :
  1 <= al <= NUM_CHECKOUT_LANES -> 1 <= next_active lane0 lane1 al <= NUM_CHECKOUT_LANES.
Proof.
  unfold next_active, NUM_CHECKOUT_LANES.
  destruct (MAX_QUEUE <=? load lane0); destruct (_ && _); lia.
Qed.

Lemma customer_arrival_run (customer_id : nat) (w : World) :
  shape_ok (checkout_lanes (store w)) (active_lanes (store w)) ->
  exists lane0 lane1 i lane,
    nth_error (checkout_lanes (store w)) 0 = Some lane0 /\
    nth_error (checkout_lanes (store w)) 1 = Some lane1 /\
    nth_error (checkout_lanes (store w)) i = Some lane /\
    routed (checkout_lanes (store w))
           (next_active lane0 lane1 (active_lanes (store w))) i /\
    customer_arrival customer_id w =
    (Val (now (env w), i), observed customer_id lane0 lane1 w).
Proof.
  intros Hshape.
  destruct (shape_lanes Hshape) as (lane0 & lane1 & lane2 & Hlanes).
  assert (H0 : nth_error (checkout_lanes (store w)) 0 = Some lane0) by now rewrite Hlanes.
  assert (H1 : nth_error (checkout_lanes (store w)) 1 = Some lane1) by now rewrite Hlanes.
  set (w0 := printed (CustomerArrives customer_id (now (env w))) w).
  set (w1 := managed lane0 lane1 w0).
  set (w2 := with_store (append_queue_stats (average (store w1)) (now (env w))) w1).
  assert (Hal : active_lanes (store w2) = next_active lane0 lane1 (active_lanes (store w))).
  { subst w2 w1. cbn. now rewrite managed_active. }
  assert (Hl : checkout_lanes (store w2) = checkout_lanes (store w)).
  { subst w2 w1. cbn. now rewrite managed_lanes. }
  assert (Hb := next_active_bounds lane0 lane1 (shape_active Hshape)).
  destruct (choose_lane_run w2) as (i & Hrun & Hrouted).
  { rewrite Hal, Hl, (shape_length Hshape). exact Hb. }
  rewrite Hal, Hl in Hrouted.
  assert (Hi : i < length (checkout_lanes (store w))).
  { rewrite (shape_length Hshape). destruct Hrouted. lia. }
  destruct (nth_error (checkout_lanes (store w)) i) as [lane|] eqn:Hnth;
    [|apply nth_error_None in Hnth; lia].
  exists lane0, lane1, i, lane. repeat (split; [assumption|]).
  unfold customer_arrival.
  erewrite bind_val by reflexivity.
  erewrite bind_val by reflexivity.
  erewrite bind_val by (apply manage_checkouts_run; eassumption).
  fold w0. fold w1.
  erewrite bind_val.
  2:{ rewrite update_queue_stats_run.
      - subst w1. rewrite managed_env. reflexivity.
      - subst w1. rewrite managed_active. cbn. lia. }
  fold w2.
  erewrite bind_val by exact Hrun.
  reflexivity.
Qed.

Lemma observed_lanes (customer_id : nat) (lane0 lane1 : Resource) (w : World) :
  checkout_lanes (store (observed customer_id lane0 lane1 w)) = checkout_lanes (store w).
Proof. unfold observed. cbn. now rewrite managed_lanes. Qed.

Lemma customer_start_run (customer_id : nat) (w : World) :
  shape_ok (checkout_lanes (store w)) (active_lanes (store w)) ->
  exists lane0 lane1 i lane,
    nth_error (checkout_lanes (store w)) 0 = Some lane0 /\
    nth_error (checkout_lanes (store w)) 1 = Some lane1 /\
    nth_error (checkout_lanes (store w)) i = Some lane /\
    routed (checkout_lanes (store w))
           (next_active lane0 lane1 (active_lanes (store w))) i /\
    customer (customer_start customer_id) None w =
    (Val Yielded, arrived customer_id i lane0 lane1 lane w).
Proof.
  intros Hshape.
  destruct (customer_arrival_run customer_id w Hshape)
    as (lane0 & lane1 & i & lane & H0 & H1 & Hnth & Hr & Hrun).
  exists lane0, lane1, i, lane. repeat (split; [assumption|]).
  unfold customer, throw.
  erewrite bind_val by reflexivity.
  erewrite bind_val by exact Hrun.
  cbn [fst snd].
  erewrite bind_val.
  2:{ unfold checkout_lane. rewrite observed_lanes, Hnth. reflexivity. }
  erewrite bind_val by reflexivity.
  erewrite bind_val.
  2:{ apply request_run. cbn [rq_lane]. unfold printed. cbn [store].
      rewrite observed_lanes. exact Hnth. }
  reflexivity.
Qed.

Lemma inv_arrived (k customer_id i : nat) (lane0 lane1 lane : Resource) (w : World) :
  InvK k w ->
  nth_error (checkout_lanes (store w)) i = Some lane ->
  i < next_active lane0 lane1 (active_lanes (store w)) ->
  InvK k (arrived customer_id i lane0 lane1 lane w).
Proof.
  intros H Hnth Hi. unfold arrived, observed.
  apply inv_requested; cbn.
  - apply inv_printed; [|reflexivity]. apply inv_stats. apply inv_managed.
    now apply inv_printed.
  - now rewrite managed_lanes.
  - now rewrite managed_active.
  - rewrite managed_env. cbn. lra.
Qed.

Lemma resume_finish (g : Generator) (callbacks : list Generator) (value : option exn)
    (w : World) :
  _resume rng g callbacks value w = finish callbacks (send rng g callbacks value w).
Proof. reflexivity. Qed.

Lemma inv_setup_loop (k customer_id : nat) (callbacks : list Generator) (w : World) :
  InvK k w -> Forall line66_pc callbacks ->
  InvK k (finish callbacks (setup_loop rng customer_id callbacks w)).
Proof.
  intros H Hcb. unfold setup_loop. py_step.
  destruct (Qltb (now (env w)) SIMULATION_TIME).
  - py_step. unfold timeout.
    destruct (Qltb (rng (draws w)) 0) eqn:E.
    + py_raise. inv_sched. now apply inv_drawn.
    + py_step. apply Qltb_ge in E. inv_sched. now apply inv_drawn.
  - inv_sched.
Qed.

Lemma inv_resume_initialize (g : Generator) (callbacks : list Generator) (w : World) :
  InvK (in_service (InitializeEv g callbacks)) w ->
  start_pc g -> Forall line66_pc callbacks ->
  Inv (_resume rng g callbacks None w).
Proof.
  intros H Hg Hcb. rewrite resume_finish.
  destruct g as [[|]|[c| |]|[c l|]]; try contradiction; cbn in H.
  - unfold send, setup, throw. py_step. apply inv_setup_loop; assumption.
  - destruct (customer_start_run c w (inv_shape H))
      as (lane0 & lane1 & i & lane & H0 & H1 & Hnth & Hr & Hrun).
    unfold send. rewrite Hrun. cbn. apply inv_arrived; [assumption.. |].
    destruct Hr. assumption.
  - unfold send, checkout_customer, throw. py_step. py_step. unfold timeout.
    destruct (Qltb (rng (draws w)) 0) eqn:E.
    + py_raise. inv_sched. apply inv_drawn. eapply inv_weaken; [|eassumption]. lia.
    + py_step. apply Qltb_ge in E. inv_sched. now apply inv_drawn.
Qed.

Lemma inv_resume_timeout (g : Generator) (callbacks : list Generator) (w : World) :
  InvK (in_service (TimeoutEv g callbacks)) w ->
  timeout_pc g -> Forall line66_pc callbacks ->
  Inv (_resume rng g callbacks None w).
Proof.
  intros H Hg Hcb. rewrite resume_finish.
  destruct g as [[|c]|[| |]|[|c l st]]; try contradiction; cbn in H, Hg.
  - unfold send, setup, throw, process. py_step. py_step.
    apply inv_setup_loop; [|assumption]. inv_sched.
  - unfold send, checkout_customer, throw. py_step. py_step. py_step.
    inv_sched. now apply inv_checked_out.
Qed.

Lemma inv_resume_request (r : Request) (w : World) :
  InvK 0 w -> (rq_arrival r <= now (env w))%Q ->
  Inv (_resume rng (GCustomer (customer_line62 r)) [] None w).
Proof.
  intros H Hr. rewrite resume_finish.
  unfold send, customer, add_waiting_time, process. py_step. py_step. py_step. py_step.
  inv_sched.
  apply (inv_printed (k:=1)); [|reflexivity].
  apply inv_waited; [assumption | lra].
Qed.

Lemma inv_trigger_put (lane : nat) (w : World) :
  InvK 0 w -> Inv (snd (trigger_put lane w)).
Proof.
  intros H. destruct (nth_error (checkout_lanes (store w)) lane) as [res|] eqn:E.
  - rewrite (trigger_put_run _ _ E). cbn. now apply inv_triggered.
  - unfold trigger_put. rewrite E. assumption.
Qed.

Lemma inv_resume_waiting (value : option exn) (callbacks : list Generator) :
  Forall line66_pc callbacks ->
  value = None \/ value = Some ValueError ->
  forall w, InvK 0 w ->
  Inv (fold_left (fun w g => _resume rng g [] value w) callbacks w).
Proof.
  intros Hcb Hv. induction Hcb as [|g rest Hg _ IH]; intros w H; [assumption|].
  cbn [fold_left]. apply IH. rewrite resume_finish.
  destruct g as [|[| |r]|]; try contradiction.
  unfold send, customer. erewrite bind_val by apply release_run.
  destruct Hv as [-> | ->]; unfold throw.
  - py_step. inv_sched. now apply inv_released.
  - py_raise. inv_sched. now apply inv_released.
Qed.

Lemma inv_pop (w : World) (m : Entry) (rest : list Entry) :
  Inv w -> heappop (queue (env w)) = Some (m, rest) -> e_event m <> UntilEv ->
  InvK (in_service (e_event m)) (popped m rest w) /\
  event_ok (e_time m) (e_event m) /\
  (now (env w) <= e_time m)%Q.
Proof.
  intros [Hsh Hl Hq (u & Hu & Hue & Hut & Hup & Hui) Hnow Heid Hw Hs Hc Hout] Hpop Hne.
  destruct (heappop_spec _ Hpop) as [Hperm Hmin].
  assert (Hq' : Forall (entry_ok (now (env w)) (eid (env w))) (m :: rest))
    by (eapply Permutation_Forall; eassumption).
  inversion Hq' as [|? ? Hm Hrest]; subst.
  assert (Hle : (now (env w) <= e_time m)%Q) by apply Hm.
  assert (Hur : In u rest).
  { apply (Permutation_in _ Hperm) in Hu. destruct Hu as [<- | Hu]; [contradiction | assumption]. }
  split; [|split; [eapply event_ok_mono; [exact Hle | apply Hm] | exact Hle]].
  constructor; cbn; auto.
  - eapply Forall_impl; [|exact Hl]. intros res. unfold lane_ok.
    apply Forall_impl. intros r Hr. lra.
  - rewrite Forall_forall in Hrest, Hmin. apply Forall_forall. intros x Hx.
    destruct (Hrest x Hx) as [? ? ? ? Hp ? ?]. specialize (Hmin x Hx).
    constructor; auto.
    + destruct (Qlt_le_dec (e_time x) (e_time m)) as [C|]; [|assumption].
      exfalso. apply Hmin. now left.
    + eapply event_ok_mono; eassumption.
    + intros Hpr. specialize (Hp Hpr). lra.
  - exists u. auto.
  - rewrite Forall_forall in Hmin. specialize (Hmin u Hur).
    destruct (Qlt_le_dec (e_time m) SIMULATION_TIME) as [|C]; [assumption|].
    exfalso. apply Hmin. unfold entry_lt.
    destruct (ok_horizon Hm) as [? | [? | He]]; [contradiction | lra |].
    destruct (Qlt_le_dec (e_time u) (e_time m)) as [|C']; [now left|].
    right. split; [lra|]. rewrite Hup, Hui. unfold URGENT.
    assert (P : e_prio m = 0 \/ 0 < e_prio m) by lia.
    destruct P as [P | P]; [right; split; [now symmetry | lia] | now left].
  - rewrite (pending_services_perm Hperm), pending_services_cons in Hc. lia.
Qed.

Theorem inv_step (w w' : World) :
  Inv w -> step rng w = Continue w' -> Inv w'.
Proof.
  intros H Hstep. unfold step in Hstep.
  destruct (heappop (queue (env w))) as [[m rest]|] eqn:Hpop; [|discriminate].
  cbv zeta in Hstep.
  destruct (e_event m) as [|g cbs|g cbs|r|lane|v cbs] eqn:Hev; [discriminate|..].
  all: destruct (inv_pop H Hpop) as (Hk & Hok & Hle); [congruence|].
  all: rewrite Hev in Hk, Hok; cbn in Hok.
  - inversion Hstep; subst. now apply inv_resume_initialize.
  - inversion Hstep; subst. now apply inv_resume_timeout.
  - inversion Hstep; subst. apply inv_resume_request; assumption.
  - inversion Hstep; subst. now apply inv_trigger_put.
  - assert (Hw' : w' = fold_left (fun w g => _resume rng g [] v w) cbs (popped m rest w)).
    { destruct v as [e|]; [destruct cbs; [discriminate|]|]; now inversion Hstep. }
    subst w'. now apply inv_resume_waiting.
Qed.

Lemma inv_initial : Inv initial.
Proof.
  constructor; cbn.
  - constructor; cbn; [reflexivity | unfold NUM_CHECKOUT_LANES; lia |].
    intros _ [|[|[|i]]] res Hi Hnth; try lia; cbv in Hnth;
      try (destruct i; discriminate); inversion Hnth; subst; split; reflexivity.
  - repeat constructor.
  - unfold heappush, SIMULATION_TIME, URGENT, NORMAL.
    constructor; [|constructor; [|constructor]].
    + constructor; cbn; try lra; try lia; try tauto.
      intros _. unfold SIMULATION_TIME. lra.
    + constructor; cbn; try lra; try lia; try tauto; try discriminate.
      * split; [exact I | constructor].
      * right. left. unfold SIMULATION_TIME. lra.
  - eexists. split; [left; reflexivity|]. cbn. unfold SIMULATION_TIME.
    repeat split.
  - reflexivity.
  - lia.
  - constructor.
  - constructor.
  - reflexivity.
  - reflexivity.
Qed.

Theorem reachable_inv (w : World) : reachable rng w -> Inv w.
Proof.
  induction 1 as [|w w' _ IH Hstep]; [apply inv_initial | eapply inv_step; eassumption].
Qed.
End Generators.

(** *** The steps of the event loop, case by case *)

Section Steps.

Variable rng : nat -> Q.

Lemma setup_loop_run (customer_id : nat) (callbacks : list Generator) (w : World) :
  finish callbacks (setup_loop rng customer_id callbacks w) = looped rng customer_id callbacks w.
Proof.
  unfold setup_loop, looped. py_step.
  destruct (Qltb (now (env w)) SIMULATION_TIME); [|reflexivity].
  py_step. unfold timeout. destruct (Qltb (rng (draws w)) 0).
  - now py_raise.
  - now py_step.
Qed.

Lemma resume_setup_start (callbacks : list Generator) (w : World) :
  _resume rng (GSetup setup_start) callbacks None w = looped rng 0 callbacks w.
Proof.
  rewrite resume_finish. unfold send, setup, throw. py_step. apply setup_loop_run.
Qed.

Lemma resume_setup_line71 (customer_id : nat) (callbacks : list Generator) (w : World) :
  _resume rng (GSetup (setup_line71 customer_id)) callbacks None w =
  looped rng (S customer_id) callbacks
    (scheduled (InitializeEv (GCustomer (customer_start (S customer_id))) []) URGENT 0 w).
Proof.
  rewrite resume_finish. unfold send, setup, throw, process. py_step. py_step.
  apply setup_loop_run.
Qed.

Lemma resume_checkout_start (customer_id lane_number : nat) (callbacks : list Generator)
    (w : World) :
  _resume rng (GCheckout (checkout_start customer_id lane_number)) callbacks None w =
  started rng customer_id lane_number callbacks w.
Proof.
  rewrite resume_finish. unfold send, checkout_customer, throw, started.
  py_step. py_step. unfold timeout. destruct (Qltb (rng (draws w)) 0).
  - now py_raise.
  - now py_step.
Qed.

Lemma resume_checkout_line26 (customer_id lane_number : nat) (service_time : Q)
    (callbacks : list Generator) (w : World) :
  _resume rng (GCheckout (checkout_line26 customer_id lane_number service_time))
          callbacks None w =
  served customer_id lane_number service_time callbacks w.
Proof.
  rewrite resume_finish. unfold send, checkout_customer, throw. now repeat py_step.
Qed.

Lemma resume_customer_line62 (r : Request) (w : World) :
  _resume rng (GCustomer (customer_line62 r)) [] None w = granted r w.
Proof.
  rewrite resume_finish. unfold send, customer, add_waiting_time, process.
  now repeat py_step.
Qed.

Lemma resume_customer_line66 (value : option exn) (g : Generator) (w : World) :
  line66_pc g -> _resume rng g [] value w = departed value g w.
Proof.
  destruct g as [|[| |r]|]; try contradiction. intros _.
  rewrite resume_finish. unfold send, customer, departed.
  erewrite bind_val by apply release_run.
  destruct value; unfold throw; [now py_raise | now py_step].
Qed.

Lemma fold_departed (value : option exn) (callbacks : list Generator) :
  Forall line66_pc callbacks -> forall w,
  fold_left (fun w g => _resume rng g [] value w) callbacks w =
  fold_left (fun w g => departed value g w) callbacks w.
Proof.
  induction 1 as [|g rest Hg _ IH]; intros w; [reflexivity|].
  cbn [fold_left]. now rewrite resume_customer_line66, IH.
Qed.

Lemma step_stepped (w : World) (m : Entry) (rest : list Entry) :
  Inv w -> heappop (queue (env w)) = Some (m, rest) ->
  stepped rng w m rest (step rng w).
Proof.
  intros H Hpop. unfold step. rewrite Hpop. cbv zeta.
  destruct (e_event m) as [|g cbs|g cbs|r|lane|v cbs] eqn:Hev.
  - now apply stepped_until.
  - destruct (inv_pop H Hpop) as (Hk & Hok & Hle); [congruence|].
    rewrite Hev in Hok. destruct Hok as [Hg Hcb].
    destruct g as [[|]|[c| |]|[c l|]]; try contradiction.
    + rewrite resume_setup_start. now apply stepped_setup_start.
    + destruct (customer_start_run c (popped m rest w) (inv_shape Hk))
        as (lane0 & lane1 & i & lane & H0 & H1 & Hnth & Hr & Hrun).
      rewrite resume_finish. unfold send. rewrite Hrun. cbn [finish].
      eapply stepped_customer_start; eassumption.
    + rewrite resume_checkout_start. now apply stepped_checkout_start.
  - destruct (inv_pop H Hpop) as (Hk & Hok & Hle); [congruence|].
    rewrite Hev in Hok. destruct Hok as [Hg Hcb].
    destruct g as [[|c]|[| |]|[|c l st]]; try contradiction.
    + rewrite resume_setup_line71. now apply stepped_setup_timeout.
    + rewrite resume_checkout_line26. now apply stepped_checkout_timeout.
  - destruct (inv_pop H Hpop) as (Hk & Hok & Hle); [congruence|].
    rewrite Hev in Hok. rewrite resume_customer_line62. now apply stepped_request.
  - replace (snd (trigger_put lane (popped m rest w)))
      with (match nth_error (checkout_lanes (store w)) lane with
            | Some res => triggered lane res (popped m rest w)
            | None => popped m rest w
            end); [now apply stepped_release|].
    destruct (nth_error (checkout_lanes (store w)) lane) as [res|] eqn:E.
    + now rewrite (trigger_put_run lane (popped m rest w) E).
    + unfold trigger_put. cbn [popped with_env store]. now rewrite E.
  - destruct (inv_pop H Hpop) as (Hk & Hok & Hle); [congruence|].
    rewrite Hev in Hok. destruct Hok as [Hcb Hv].
    rewrite (fold_departed _ Hcb).
    destruct Hv as [-> | ->]; [now apply stepped_process_ok|].
    destruct cbs as [|g cbs]; [now apply stepped_process_raised|].
    now apply stepped_process_failed.
Qed.

(** *** How far a pending event is from being processed *)

Local Arguments distance : simpl never.

Lemma distance_cons (f x : Entry) (q : list Entry) :
  distance f (x :: q) = ahead f x + distance f q.
Proof. reflexivity. Qed.

Lemma distance_perm (f : Entry) (q q' : list Entry) :
  Permutation q q' -> distance f q = distance f q'.
Proof. induction 1; rewrite ?distance_cons; lia. Qed.

Lemma stays_env (f : Entry) (w w' : World) : env w' = env w -> stays f 0 w w'.
Proof. intros H. constructor; rewrite H; auto; lia. Qed.

Lemma stays_trans (f : Entry) (c1 c2 : nat) (w1 w2 w3 : World) :
  stays f c1 w1 w2 -> stays f c2 w2 w3 -> stays f (c1 + c2) w1 w3.
Proof.
  intros [N1 E1 Q1 D1] [N2 E2 Q2 D2]. constructor; auto; try lia. congruence.
Qed.

Lemma behind_stays (f : Entry) (c : nat) (w w' : World) :
  stays f c w w' -> behind f w -> behind f w'.
Proof.
  intros [N E _ _] (Ht & He & Hp). unfold behind. rewrite N. repeat split; auto. lia.
Qed.

Lemma stays_scheduled_normal (f : Entry) (ev : Event) (delay : Q) (w0 w : World) :
  env w = env w0 -> behind f w0 -> (0 <= delay)%Q ->
  stays f 0 w0 (scheduled ev NORMAL delay w).
Proof.
  intros Henv (Ht & He & Hp) Hd.
  constructor; cbn; rewrite Henv; [reflexivity | lia | intros x Hx; now right |].
  unfold heappush. rewrite distance_cons. unfold ahead at 1.
  replace (entry_ltb f _) with true; [lia|].
  symmetry. apply entry_ltb_lt. unfold entry_lt. cbn.
  destruct (Qlt_le_dec (e_time f) (now (env w0) + delay)) as [|C]; [now left|].
  right. split; [lra|]. unfold NORMAL in *. lia.
Qed.

Lemma stays_scheduled_urgent (f : Entry) (ev : Event) (delay : Q) (w0 w : World) :
  env w = env w0 -> weight ev = 1 -> stays f 1 w0 (scheduled ev URGENT delay w).
Proof.
  intros Henv Hw.
  constructor; cbn; rewrite Henv; [reflexivity | lia | intros x Hx; now right |].
  unfold heappush. rewrite distance_cons. unfold ahead at 1. cbn.
  destruct (entry_ltb f _); lia.
Qed.

Lemma stays_triggered (f : Entry) (i : nat) (res : Resource) (w0 w : World) :
  env w = env w0 -> behind f w0 -> stays f 0 w0 (triggered i res w).
Proof.
  intros Henv Hb. unfold triggered.
  destruct (_trigger_put res) as [res' [g|]]; [|now apply stays_env].
  apply stays_scheduled_normal; [exact Henv | exact Hb | lra].
Qed.

Lemma stays_released (f : Entry) (r : Request) (w : World) :
  behind f w -> stays f 0 w (released r w).
Proof.
  intros Hb. unfold released.
  apply stays_scheduled_normal; [|exact Hb | lra].
  now destruct (nth_error (checkout_lanes (store w)) (rq_lane r)).
Qed.

Lemma stays_arrived (f : Entry) (customer_id i : nat) (lane0 lane1 lane : Resource)
    (w : World) :
  behind f w -> stays f 0 w (arrived customer_id i lane0 lane1 lane w).
Proof.
  intros Hb. unfold arrived, requested.
  apply stays_triggered; [|exact Hb].
  cbn. unfold observed. cbn. now rewrite managed_env.
Qed.

Lemma stays_looped (f : Entry) (customer_id : nat) (callbacks : list Generator)
    (w0 w : World) :
  env w = env w0 -> behind f w0 -> stays f 0 w0 (looped rng customer_id callbacks w).
Proof.
  intros Henv Hb. unfold looped.
  destruct (Qltb (now (env w)) SIMULATION_TIME);
    [destruct (Qltb (rng (draws w)) 0) eqn:E|].
  - apply stays_scheduled_normal; [exact Henv | exact Hb | lra].
  - apply Qltb_ge in E. now apply stays_scheduled_normal.
  - apply stays_scheduled_normal; [exact Henv | exact Hb | lra].
Qed.

Lemma stays_started (f : Entry) (customer_id lane_number : nat)
    (callbacks : list Generator) (w : World) :
  behind f w -> stays f 0 w (started rng customer_id lane_number callbacks w).
Proof.
  intros Hb. unfold started. destruct (Qltb (rng (draws w)) 0) eqn:E.
  - apply stays_scheduled_normal; [reflexivity | exact Hb | lra].
  - apply Qltb_ge in E. now apply stays_scheduled_normal.
Qed.

Lemma stays_departed (f : Entry) (value : option exn) (g : Generator) (w : World) :
  behind f w -> stays f 0 w (departed value g w).
Proof.
  intros Hb. destruct g as [|[| |r]|]; try now apply stays_env.
  unfold departed.
  eapply (stays_trans (c1:=0) (c2:=0)); [now apply stays_released|].
  apply stays_scheduled_normal; [reflexivity | | lra].
  eapply behind_stays; [apply stays_released|]; eassumption.
Qed.

Lemma stays_fold_departed (f : Entry) (value : option exn) (callbacks : list Generator) :
  forall w, behind f w ->
  stays f 0 w (fold_left (fun w g => departed value g w) callbacks w).
Proof.
  induction callbacks as [|g rest IH]; intros w Hb; [now apply stays_env|].
  cbn [fold_left]. eapply (stays_trans (c1:=0) (c2:=0)); [now apply stays_departed|].
  apply IH. eapply behind_stays; [apply stays_departed|]; eassumption.
Qed.

End Steps.

(** *** Progress of the event loop *)

Section Progress.

Variable rng : nat -> Q.

Lemma behind_popped (w : World) (m : Entry) (rest : list Entry) (f : Entry) :
  Inv w -> heappop (queue (env w)) = Some (m, rest) ->
  In f (queue (env w)) -> is_process (e_event f) ->
  behind f (popped m rest w) /\ ~ entry_lt f m.
Proof.
  intros H Hpop Hf Hp.
  destruct (heappop_spec _ Hpop) as [Hperm Hmin].
  assert (Hq := inv_queue H). rewrite Forall_forall in Hq.
  assert (Hm : In m (queue (env w))).
  { apply (Permutation_in _ (Permutation_sym Hperm)). now left. }
  destruct (Hq f Hf) as [? ? ? ? Hpf ? ?]. destruct (Hq m Hm) as [? ? ? ? ? ? ?].
  specialize (Hpf Hp). split.
  - unfold behind. cbn. repeat split; auto. lra.
  - apply (Permutation_in _ Hperm) in Hf. destruct Hf as [<- | Hf].
    + intros C. apply (entry_lt_asym C C).
    + rewrite Forall_forall in Hmin. now apply Hmin.
Qed.

(** A step keeps what it does not pop, advances the clock to the popped
    entry, and puts less in front of a pending entry than it removes. *)
Lemma step_stays (w w' : World) (m : Entry) (rest : list Entry) (f : Entry) :
  Inv w -> heappop (queue (env w)) = Some (m, rest) ->
  step rng w = Continue w' -> behind f (popped m rest w) ->
  stays f (weight (e_event m) - 1) (popped m rest w) w'.
Proof.
  intros H Hpop Hstep Hb.
  assert (Hs := step_stepped rng H Hpop). rewrite Hstep in Hs.
  inversion Hs as [ | cbs Hev | c cbs Hev | c cbs l0 l1 i l Hev | r Hev
                  | c l cbs Hev | c l st cbs Hev | l Hev | cbs Hev | g cbs Hev | ];
    subst; rewrite Hev; cbn [weight Nat.sub].
  - apply stays_looped; [reflexivity | exact Hb].
  - apply (stays_trans (c1:=1) (c2:=0)
             (w2:=scheduled (InitializeEv (GCustomer (customer_start (S c))) [])
                            URGENT 0 (popped m rest w))).
    + apply stays_scheduled_urgent; reflexivity.
    + apply stays_looped; [reflexivity|].
      eapply behind_stays; [|exact Hb]. apply stays_scheduled_urgent; reflexivity.
  - now apply stays_arrived.
  - unfold granted. apply stays_scheduled_urgent; reflexivity.
  - now apply stays_started.
  - unfold served. apply stays_scheduled_normal; [reflexivity | exact Hb | lra].
  - destruct (nth_error (checkout_lanes (store w)) l);
      [now apply stays_triggered | now apply stays_env].
  - now apply stays_fold_departed.
  - apply stays_fold_departed with (callbacks := g :: cbs). exact Hb.
Qed.

Lemma step_now (w w' : World) (m : Entry) (rest : list Entry) :
  Inv w -> heappop (queue (env w)) = Some (m, rest) ->
  step rng w = Continue w' -> now (env w') = e_time m.
Proof.
  intros H Hpop Hstep.
  assert (Hb : behind m (popped m rest w)).
  { assert (Hq := inv_queue H). rewrite Forall_forall in Hq.
    destruct (Hq m) as [? ? ? ? ? ? ?].
    - eapply heappop_in; [exact Hpop | now left].
    - unfold behind. cbn. repeat split; auto. lra. }
  apply (stays_now (step_stays H Hpop Hstep Hb)).
Qed.

(** *** A failed process event reaches the front of the queue *)

Lemma run_more (w w' : World) :
  step rng w = Continue w' -> (now (env w') == now (env w))%Q ->
  aborts rng w' -> aborts rng w.
Proof.
  intros Hstep Hnow (k & w'' & Hrun & Hclock). exists (S k), w''.
  split; [cbn; now rewrite Hstep | lra].
Qed.

Lemma until_not_first (w : World) (m : Entry) (rest : list Entry) (f : Entry) :
  Inv w -> heappop (queue (env w)) = Some (m, rest) ->
  In f (queue (env w)) -> is_process (e_event f) ->
  e_event m <> UntilEv.
Proof.
  intros H Hpop Hf Hp Hm.
  destruct (behind_popped f H Hpop Hf Hp) as [_ Hnlt].
  assert (Hq := inv_queue H). rewrite Forall_forall in Hq.
  assert (Hmq : In m (queue (env w))) by (eapply heappop_in; [exact Hpop | now left]).
  destruct (Hq m Hmq) as [? ? ? ? ? Hu ?]. destruct (Hq f Hf) as [? ? ? ? Hpf ? ?].
  specialize (Hu Hm). specialize (Hpf Hp). assert (Hn := inv_now H).
  apply Hnlt. left. lra.
Qed.

(** While a finished process is pending the clock stands still. *)
Lemma front_time (w : World) (m : Entry) (rest : list Entry) (f : Entry) :
  Inv w -> heappop (queue (env w)) = Some (m, rest) ->
  In f (queue (env w)) -> is_process (e_event f) ->
  (e_time m == now (env w))%Q.
Proof.
  intros H Hpop Hf Hp.
  destruct (behind_popped f H Hpop Hf Hp) as [_ Hnlt].
  assert (Hq := inv_queue H). rewrite Forall_forall in Hq.
  assert (Hmq : In m (queue (env w))) by (eapply heappop_in; [exact Hpop | now left]).
  destruct (Hq m Hmq) as [? ? ? ? ? ? ?]. destruct (Hq f Hf) as [? ? ? ? Hpf ? ?].
  specialize (Hpf Hp).
  destruct (Qlt_le_dec (e_time f) (e_time m)) as [C|C]; [|lra].
  exfalso. apply Hnlt. now left.
Qed.

(** The first entry of the queue, when [f] is a finished process in it *)
Ltac pop_first w f H Hf Hev m rest Hpop Hb Hperm Hd :=
  destruct (heappop (queue (env w))) as [[m rest]|] eqn:Hpop;
    [|apply heappop_none in Hpop; rewrite Hpop in Hf; contradiction];
  let Hp := fresh "Hp" in
  let Hnlt := fresh "Hnlt" in
  let Ha := fresh "Ha" in
  let Hw := fresh "Hw" in
  let E := fresh "E" in
  assert (Hp : is_process (e_event f)) by (rewrite Hev; exact I);
  destruct (behind_popped f H Hpop Hf Hp) as [Hb Hnlt];
  assert (Hclock := front_time f H Hpop Hf Hp);
  assert (Hperm := proj1 (heappop_spec _ Hpop));
  rewrite (distance_perm f Hperm), distance_cons in Hd;
  assert (Ha : ahead f m = weight (e_event m))
    by (unfold ahead; destruct (entry_ltb f m) eqn:E;
        [apply entry_ltb_lt in E; contradiction | reflexivity]);
  assert (Hw : 1 <= weight (e_event m))
    by (destruct (e_event m) as [|[]|[]| | |]; cbn; lia);
  rewrite Ha in Hd.

Lemma failure_aborts_empty (d : nat) : forall w f,
  Inv w -> In f (queue (env w)) ->
  e_event f = ProcessEv (Some ValueError) [] ->
  distance f (queue (env w)) <= d ->
  aborts rng w.
Proof.
  induction d as [|d IH]; intros w f H Hf Hev Hd;
    pop_first w f H Hf Hev m rest Hpop Hb Hperm Hd; [lia|].
  assert (Hs := step_stepped rng H Hpop).
  destruct (step rng w) as [w'|w'|e w'|] eqn:Hstep.
  - apply (Permutation_in _ Hperm) in Hf. destruct Hf as [<- | Hf].
    { inversion Hs; congruence. }
    assert (Hst := step_stays H Hpop Hstep Hb).
    eapply run_more; [exact Hstep | rewrite (step_now H Hpop Hstep); exact Hclock |].
    apply (IH w' f); [eapply inv_step; eassumption | | exact Hev |].
    + apply (stays_queue Hst). exact Hf.
    + assert (Hdist := stays_distance Hst).
      cbn [popped with_env env queue] in Hdist. lia.
  - exfalso. inversion Hs as [Hu | | | | | | | | | | ]; subst.
    eapply until_not_first; [exact H | exact Hpop | exact Hf | | exact Hu].
    rewrite Hev. exact I.
  - exists 1, w'. cbn. rewrite Hstep. inversion Hs; subst. split; [reflexivity | exact Hclock].
  - inversion Hs.
Qed.

Lemma departed_failure (g : Generator) (w : World) :
  line66_pc g ->
  exists f, In f (queue (env (departed (Some ValueError) g w))) /\
            e_event f = ProcessEv (Some ValueError) [] /\
            behind f (departed (Some ValueError) g w).
Proof.
  destruct g as [|[| |r]|]; try contradiction. intros _.
  eexists. split; [left; reflexivity|]. split; [reflexivity|].
  unfold behind. cbn. unfold NORMAL. repeat split; try lia. lra.
Qed.

Lemma fold_departed_failure (callbacks : list Generator) (g : Generator) (w : World) :
  line66_pc g ->
  exists f, In f (queue (env (fold_left (fun w g => departed (Some ValueError) g w)
                                        (g :: callbacks) w))) /\
            e_event f = ProcessEv (Some ValueError) [].
Proof.
  intros Hg. destruct (@departed_failure g w Hg) as (f & Hf & Hev & Hb).
  exists f. split; [|exact Hev]. cbn [fold_left].
  apply (stays_queue (@stays_fold_departed f (Some ValueError) callbacks _ Hb)). exact Hf.
Qed.

(** A failed process in the queue makes the run abort: the failure of a
    checkout is passed on to its customer, and nothing takes the failure
    of a customer or of [setup]. *)
Lemma failure_aborts (d : nat) : forall w f,
  Inv w -> In f (queue (env w)) -> failure f ->
  distance f (queue (env w)) <= d ->
  aborts rng w.
Proof.
  induction d as [|d IH]; intros w f H Hf [cbs Hev] Hd;
    pop_first w f H Hf Hev m rest Hpop Hb Hperm Hd; [lia|].
  assert (Hs := step_stepped rng H Hpop).
  destruct (step rng w) as [w'|w'|e w'|] eqn:Hstep.
  - eapply run_more; [exact Hstep | rewrite (step_now H Hpop Hstep); exact Hclock |].
    assert (Hinv' : Inv w') by (eapply inv_step; eassumption).
    apply (Permutation_in _ Hperm) in Hf. destruct Hf as [<- | Hf].
    + inversion Hs as [ | | | | | | | | | g cbs' Hev' Hcb | ]; try congruence. subst.
      inversion Hcb; subst.
      destruct (@fold_departed_failure cbs' g (popped m rest w))
        as (f' & Hf' & Hev''); [assumption|].
      eapply failure_aborts_empty;
        [exact Hinv' | exact Hf' | exact Hev'' | apply Nat.le_refl].
    + assert (Hst := step_stays H Hpop Hstep Hb).
      apply (IH w' f); [exact Hinv' | | now exists cbs |].
      * apply (stays_queue Hst). exact Hf.
      * assert (Hdist := stays_distance Hst).
        cbn [popped with_env env queue] in Hdist. lia.
  - exfalso. inversion Hs as [Hu | | | | | | | | | | ]; subst.
    eapply until_not_first; [exact H | exact Hpop | exact Hf | | exact Hu].
    rewrite Hev. exact I.
  - exists 1, w'. cbn. rewrite Hstep. inversion Hs; subst. split; [reflexivity | exact Hclock].
  - inversion Hs.
Qed.

(** The counters that no step but a draw changes *)
Lemma draws_triggered (i : nat) (res : Resource) (w : World) :
  draws (triggered i res w) = draws w.
Proof. unfold triggered. now destruct (_trigger_put res) as [? [?|]]. Qed.

Lemma draws_managed (lane0 lane1 : Resource) (w : World) :
  draws (managed lane0 lane1 w) = draws w.
Proof.
  unfold managed. destruct (MAX_QUEUE <=? load lane0); cbn; destruct (_ && _); reflexivity.
Qed.

Lemma draws_arrived (customer_id i : nat) (lane0 lane1 lane : Resource) (w : World) :
  draws (arrived customer_id i lane0 lane1 lane w) = draws w.
Proof.
  unfold arrived, requested. rewrite draws_triggered. cbn. unfold observed. cbn.
  now rewrite draws_managed.
Qed.

Lemma draws_departed (value : option exn) (g : Generator) (w : World) :
  draws (departed value g w) = draws w.
Proof.
  destruct g as [|[| |r]|]; try reflexivity. cbn.
  now destruct (nth_error (checkout_lanes (store w)) (rq_lane r)).
Qed.

Lemma draws_fold_departed (value : option exn) (callbacks : list Generator) :
  forall w, draws (fold_left (fun w g => departed value g w) callbacks w) = draws w.
Proof.
  induction callbacks as [|g rest IH]; intros w; [reflexivity|].
  cbn [fold_left]. now rewrite IH, draws_departed.
Qed.

(** A step that draws a negative sample leaves a failed process behind. *)
Lemma negative_draw_fails (w w' : World) :
  Inv w -> step rng w = Continue w' ->
  draws w' <> draws w -> (rng (draws w) < 0)%Q ->
  exists f, In f (queue (env w')) /\ failure f.
Proof.
  intros H Hstep Hdraw Hneg.
  destruct (heappop (queue (env w))) as [[m rest]|] eqn:Hpop;
    [|unfold step in Hstep; rewrite Hpop in Hstep; discriminate].
  assert (Hs := step_stepped rng H Hpop). rewrite Hstep in Hs.
  assert (Hlt : Qltb (rng (draws w)) 0 = true) by now apply Qltb_lt.
  inversion Hs as [ | cbs Hev | c cbs Hev | c cbs l0 l1 i l Hev | r Hev
                  | c l cbs Hev | c l st cbs Hev | l Hev | cbs Hev | g cbs Hev | ];
    subst.
  - unfold looped in *. cbn [popped with_env env now draws] in *.
    destruct (Qltb (e_time m) SIMULATION_TIME).
    + rewrite Hlt. eexists. split; [left; reflexivity | now eexists].
    + now contradiction Hdraw.
  - unfold looped in *. cbn [scheduled popped with_env env now draws] in *.
    destruct (Qltb (e_time m) SIMULATION_TIME).
    + rewrite Hlt. eexists. split; [left; reflexivity | now eexists].
    + now contradiction Hdraw.
  - contradiction Hdraw. now rewrite draws_arrived.
  - now contradiction Hdraw.
  - unfold started. cbn [popped with_env env now draws].
    rewrite Hlt. eexists. split; [left; reflexivity | now eexists].
  - now contradiction Hdraw.
  - contradiction Hdraw.
    destruct (nth_error (checkout_lanes (store w)) l); [now rewrite draws_triggered | reflexivity].
  - contradiction Hdraw. now rewrite draws_fold_departed.
  - contradiction Hdraw.
    exact (draws_fold_departed (Some ValueError) (g :: cbs) (popped m rest w)).
Qed.

End Progress.

(** *** Wait times against service times *)

Section Tally.

Variable rng : nat -> Q.

Lemma tally_same (w w' : World) :
  queue (env w') = queue (env w) ->
  waiting_times (store w') = waiting_times (store w) ->
  service_times (store w') = service_times (store w) ->
  tally 0 0 0 w w'.
Proof. intros Hq Hw Hs. constructor; rewrite ?Hq, ?Hw, ?Hs; lia. Qed.

Lemma tally_trans (a b c a' b' c' : nat) (w1 w2 w3 : World) :
  tally a b c w1 w2 -> tally a' b' c' w2 w3 -> tally (a + a') (b + b') (c + c') w1 w3.
Proof. intros [? ? ?] [? ? ?]. constructor; lia. Qed.

Lemma tally_scheduled (ev : Event) (priority : nat) (delay : Q) (w0 w : World) :
  tally 0 0 0 w0 w ->
  tally 0 0 (in_service ev) w0 (scheduled ev priority delay w).
Proof.
  intros [Hw Hs Hp]. constructor; cbn; try assumption.
  unfold heappush. rewrite pending_services_cons. cbn. lia.
Qed.

Lemma tally_triggered (i : nat) (res : Resource) (w0 w : World) :
  tally 0 0 0 w0 w -> tally 0 0 0 w0 (triggered i res w).
Proof.
  intros H. unfold triggered.
  destruct (_trigger_put res) as [res' [g|]]; [|assumption].
  apply (tally_scheduled (RequestEv g)). destruct H. now constructor.
Qed.

Lemma tally_managed (lane0 lane1 : Resource) (w : World) :
  tally 0 0 0 w (managed lane0 lane1 w).
Proof.
  unfold managed.
  destruct (MAX_QUEUE <=? load lane0); cbn; destruct (_ && _); now apply tally_same.
Qed.

Lemma tally_arrived (customer_id i : nat) (lane0 lane1 lane : Resource) (w : World) :
  tally 0 0 0 w (arrived customer_id i lane0 lane1 lane w).
Proof.
  unfold arrived, requested. apply tally_triggered.
  destruct (tally_managed lane0 lane1
              (printed (CustomerArrives customer_id (now (env w))) w)) as [Hw Hs Hp].
  constructor; cbn; unfold observed; cbn; assumption.
Qed.

Lemma tally_released (r : Request) (w : World) :
  tally 0 0 0 w (released r w).
Proof.
  unfold released. apply (tally_scheduled (ReleaseEv (rq_lane r))).
  destruct (nth_error (checkout_lanes (store w)) (rq_lane r)); now apply tally_same.
Qed.

Lemma tally_departed (value : option exn) (g : Generator) (w : World) :
  tally 0 0 0 w (departed value g w).
Proof.
  destruct g as [|[| |r]|]; try now apply tally_same.
  unfold departed. apply (tally_scheduled (ProcessEv value [])). apply tally_released.
Qed.

Lemma tally_fold_departed (value : option exn) (callbacks : list Generator) :
  forall w, tally 0 0 0 w (fold_left (fun w g => departed value g w) callbacks w).
Proof.
  induction callbacks as [|g rest IH]; intros w; [now apply tally_same|].
  cbn [fold_left]. apply (tally_trans (tally_departed value g w) (IH _)).
Qed.

Lemma head_failure (callbacks : list Generator) (delay : Q) (w : World) :
  has_failure (scheduled (ProcessEv (Some ValueError) callbacks) NORMAL delay w).
Proof. eexists. split; [left; reflexivity | eexists; reflexivity]. Qed.

Lemma tally_drawn (w0 w : World) : tally 0 0 0 w0 w -> tally 0 0 0 w0 (drawn w).
Proof. intros [? ? ?]. now constructor. Qed.

Lemma tally_looped (customer_id : nat) (callbacks : list Generator) (w0 w : World) :
  tally 0 0 0 w0 w ->
  has_failure (looped rng customer_id callbacks w) \/
  tally 0 0 0 w0 (looped rng customer_id callbacks w).
Proof.
  intros H. unfold looped.
  destruct (Qltb _ _); [destruct (Qltb _ _)|].
  - left. apply head_failure.
  - right. apply (tally_scheduled (TimeoutEv (GSetup (setup_line71 customer_id)) callbacks)).
    now apply tally_drawn.
  - right. now apply (tally_scheduled (ProcessEv None callbacks)).
Qed.

Lemma tally_started (customer_id lane_number : nat) (callbacks : list Generator)
    (w : World) :
  has_failure (started rng customer_id lane_number callbacks w) \/
  tally 0 0 1 w (started rng customer_id lane_number callbacks w).
Proof.
  unfold started. destruct (Qltb _ _).
  - left. apply head_failure.
  - right.
    apply (tally_scheduled
             (TimeoutEv (GCheckout (checkout_line26 customer_id lane_number
                                      (rng (draws w)))) callbacks)).
    apply tally_drawn. now apply tally_same.
Qed.

Lemma tally_served (customer_id lane_number : nat) (service_time : Q)
    (callbacks : list Generator) (w : World) :
  tally 0 1 0 w (served customer_id lane_number service_time callbacks w).
Proof.
  constructor; cbn; rewrite ?length_app; cbn; try lia.
  unfold heappush. rewrite pending_services_cons. cbn. lia.
Qed.

Lemma tally_granted (r : Request) (w : World) :
  tally 1 0 1 w (granted r w).
Proof.
  constructor; cbn; rewrite ?length_app; cbn; try lia.
  unfold heappush. rewrite pending_services_cons. cbn. lia.
Qed.

Lemma balanced_tally (dw ds dp : nat) (w0 w' : World) :
  tally dw ds dp w0 w' ->
  length (waiting_times (store w0)) + dw =
  length (service_times (store w0)) + ds + (pending_services (queue (env w0)) + dp) ->
  balanced w'.
Proof. intros [Hw Hs Hp] H. unfold balanced. lia. Qed.

Lemma behind_self (w : World) (m : Entry) (rest : list Entry) :
  Inv w -> heappop (queue (env w)) = Some (m, rest) -> behind m (popped m rest w).
Proof.
  intros H Hpop. assert (Hq := inv_queue H). rewrite Forall_forall in Hq.
  destruct (Hq m) as [? ? ? ? ? ? ?].
  - eapply heappop_in; [exact Hpop | now left].
  - unfold behind. cbn. repeat split; auto. lra.
Qed.

Lemma balanced_step (w w' : World) :
  Inv w -> has_failure w \/ balanced w ->
  step rng w = Continue w' ->
  has_failure w' \/ balanced w'.
Proof.
  intros H HJ Hstep.
  destruct (heappop (queue (env w))) as [[m rest]|] eqn:Hpop;
    [|unfold step in Hstep; rewrite Hpop in Hstep; discriminate].
  assert (Hs := step_stepped rng H Hpop). rewrite Hstep in Hs.
  assert (Hperm := proj1 (heappop_spec _ Hpop)).
  destruct HJ as [(f & Hf & Hfail) | Hbal].
  - left. apply (Permutation_in _ Hperm) in Hf. destruct Hf as [<- | Hf].
    + destruct Hfail as [cbs Hev].
      inversion Hs as [ | | | | | | | | | g cbs' Hev' Hcb | ]; try congruence. subst.
      inversion Hcb; subst.
      destruct (@fold_departed_failure cbs' g (popped m rest w)) as (f' & Hf' & Hev''); [assumption|].
      exists f'. split; [exact Hf' | exists []; exact Hev''].
    + exists f. split; [|exact Hfail].
      apply (stays_queue (@step_stays rng w w' m rest m H Hpop Hstep (behind_self H Hpop))).
      exact Hf.
  - unfold balanced in Hbal.
    rewrite (pending_services_perm Hperm), pending_services_cons in Hbal.
    set (w1 := popped m rest w) in *.
    assert (Ht0 : tally 0 0 0 w1 w1) by now apply tally_same.
    assert (Hw1 : length (waiting_times (store w1)) = length (waiting_times (store w)))
      by reflexivity.
    assert (Hs1 : length (service_times (store w1)) = length (service_times (store w)))
      by reflexivity.
    assert (Hp1 : pending_services (queue (env w1)) = pending_services rest) by reflexivity.
    inversion Hs as [ | cbs Hev | c cbs Hev | c cbs l0 l1 i l Hev | r Hev
                    | c l cbs Hev | c l st cbs Hev | l Hev | cbs Hev | g cbs Hev | ];
      subst w'; rewrite Hev in Hbal; cbn [in_service] in Hbal.
    + destruct (tally_looped 0 cbs Ht0) as [|T]; [now left | right].
      apply (balanced_tally T). lia.
    + destruct (@tally_looped (S c) cbs w1
                  (scheduled (InitializeEv (GCustomer (customer_start (S c))) [])
                             URGENT 0 w1)) as [|T]; [|now left | right].
      * now apply (tally_scheduled (InitializeEv (GCustomer (customer_start (S c))) [])).
      * apply (balanced_tally T). lia.
    + right. apply (balanced_tally (tally_arrived c i l0 l1 l w1)). lia.
    + right. apply (balanced_tally (tally_granted r w1)). lia.
    + destruct (tally_started c l cbs w1) as [|T]; [now left | right].
      apply (balanced_tally T). lia.
    + right. apply (balanced_tally (tally_served c l st cbs w1)). lia.
    + right. destruct (nth_error (checkout_lanes (store w)) l) as [res|].
      * apply (balanced_tally (tally_triggered l res Ht0)). lia.
      * apply (balanced_tally Ht0). lia.
    + right. apply (balanced_tally (tally_fold_departed None cbs w1)). lia.
    + right. apply (balanced_tally (tally_fold_departed (Some ValueError) (g :: cbs) w1)). lia.
Qed.

Lemma balanced_initial : balanced initial.
Proof. reflexivity. Qed.

Lemma reachable_balanced (w : World) :
  reachable rng w -> has_failure w \/ balanced w.
Proof.
  induction 1 as [|w w' Hr IH Hstep]; [right; apply balanced_initial|].
  eapply balanced_step; [apply (reachable_inv Hr) | exact IH | exact Hstep].
Qed.

Lemma stop_balanced (w w' : World) :
  reachable rng w -> step rng w = StopSimulation w' -> balanced w'.
Proof.
  intros Hr Hstep. assert (H := reachable_inv Hr).
  destruct (heappop (queue (env w))) as [[m rest]|] eqn:Hpop;
    [|unfold step in Hstep; rewrite Hpop in Hstep; discriminate].
  assert (Hs := step_stepped rng H Hpop). rewrite Hstep in Hs.
  inversion Hs as [Hu | | | | | | | | | | ]; subst.
  destruct (reachable_balanced Hr) as [(f & Hf & cbs & Hev) | Hbal].
  - exfalso. apply (@until_not_first w m rest f H Hpop Hf); [|exact Hu].
    rewrite Hev. exact I.
  - unfold balanced in *. cbn.
    rewrite (pending_services_perm (proj1 (heappop_spec _ Hpop))),
      pending_services_cons, Hu in Hbal. exact Hbal.
Qed.

End Tally.

(** ** Runs of the event loop *)

Lemma advance_reachable (rng : nat -> Q) (n : nat) : forall w,
  reachable rng w -> reachable rng (advance rng n w).
Proof.
  induction n as [|n IH]; intros w H; simpl; [assumption|].
  destruct (step rng w) as [w'| | |] eqn:E; try assumption.
  apply IH. eapply reachable_step; eassumption.
Qed.

Lemma run_final (rng : nat -> Q) (n : nat) : forall w w',
  reachable rng w -> run rng n w = Finished w' -> final rng w'.
Proof.
  induction n as [|n IH]; intros w w' H Hrun; simpl in Hrun; [discriminate|].
  destruct (step rng w) as [w1|w1|e w1|] eqn:E; try discriminate.
  - eapply IH; [|eassumption]. eapply reachable_step; eassumption.
  - inversion Hrun; subst. now exists w.
Qed.

Lemma step_stop (rng : nat -> Q) (w w' : World) :
  step rng w = StopSimulation w' ->
  store w' = store w /\ stdout w' = stdout w /\ draws w' = draws w.
Proof.
  unfold step. destruct (heappop (queue (env w))) as [[m rest]|]; [|discriminate].
  cbv zeta. destruct (e_event m) as [| | | | |[e|] [|g cbs]]; try discriminate.
  intros H. inversion H. auto.
Qed.

Lemma map_load_comm (l : list Resource) :
  map (fun lane => length (put_queue lane) + count lane) l = map load l.
Proof. apply map_ext. intros lane. unfold load. lia. Qed.

Lemma stats_triggered (i : nat) (res : Resource) (w : World) :
  active_lanes (store (triggered i res w)) = active_lanes (store w) /\
  average_queue_lengths (store (triggered i res w)) = average_queue_lengths (store w) /\
  queue_record_times (store (triggered i res w)) = queue_record_times (store w).
Proof. unfold triggered. destruct (_trigger_put res) as [? [?|]]; cbn; auto. Qed.

Lemma stats_managed (lane0 lane1 : Resource) (w : World) :
  average_queue_lengths (store (managed lane0 lane1 w)) = average_queue_lengths (store w) /\
  queue_record_times (store (managed lane0 lane1 w)) = queue_record_times (store w).
Proof.
  unfold managed. destruct (MAX_QUEUE <=? load lane0); cbn; destruct (_ && _); cbn; auto.
Qed.

Lemma late_run : run rng_late 6 initial = Finished (finished rng_late 6).
Proof. vm_compute. reflexivity. Qed.

Lemma late_final : final rng_late (finished rng_late 6).
Proof.
  apply run_final with (n := 6) (w := initial); [apply reachable_initial | exact late_run].
Qed.

Lemma zero_run : run rng_zero 11 initial = Finished (finished rng_zero 11).
Proof. vm_compute. reflexivity. Qed.

(** ** The claims *)

(** C1 (the code breaks the claim): a call of [manage_checkouts] makes
    [active_lanes] smaller.  In the run [rng_crowded], after 56 steps of the
    event loop three lanes are active, lane 1 holds 10 customers and lane 2
    holds 9.  The first [if] of [manage_checkouts] has no test on
    [active_lanes]: called in that state it assigns 2, and the second [if]
    does not fire, so the lane count goes from 3 to 2; the next step of the
    run, the arrival of customer 22, does exactly that. *)
Theorem manage_checkouts_closes_lane_3 :
  let w := advance rng_crowded 56 initial in
  reachable rng_crowded w /\
  active_lanes (store w) = 3 /\
  fst (manage_checkouts w) = Val tt /\
  active_lanes (store (snd (manage_checkouts w))) = 2 /\
  exists w', step rng_crowded w = Continue w' /\ active_lanes (store w') = 2.
Proof.
  cbv zeta. split; [apply advance_reachable, reachable_initial|].
  split; [vm_compute; reflexivity|]. split; [vm_compute; reflexivity|].
  split; [vm_compute; reflexivity|].
  exists (advance rng_crowded 57 initial). split; vm_compute; reflexivity.
Qed.

(** C2, counterexample: in the run [rng_late] the only customer is admitted
    at 599, before the horizon, and would finish at 604; the run stops at
    600 and [service_times] is empty. *)
Lemma late_customer_not_served : ~ admitted_customers_finish rng_late.
Proof.
  intros H.
  destruct (H 6 _ 1 599%Q late_run) as [_ (lane & st & _ & Hin)].
  - vm_compute. auto.
  - reflexivity.
  - vm_compute in Hin. exact Hin.
Qed.

(** The horizon.  In every state the event loop goes through the clock
    is strictly below the horizon; an event due at or after the horizon
    stays in the queue at every step; and when the run stops nothing more
    is recorded, while all that is left in the queue is due at or after the
    horizon. *)
Lemma horizon_stops_the_run (rng : nat -> Q) (w : World) :
  reachable rng w ->
  (now (env w) < SIMULATION_TIME)%Q /\
  (forall x w', In x (queue (env w)) -> (SIMULATION_TIME <= e_time x)%Q ->
     step rng w = Continue w' -> In x (queue (env w'))) /\
  (forall w', step rng w = StopSimulation w' ->
     store w' = store w /\
     Forall (fun x => (SIMULATION_TIME <= e_time x)%Q) (queue (env w'))).
Proof.
  intros Hr. assert (H := reachable_inv Hr).
  split; [apply H|]. split.
  - intros x w' Hx Hlate Hstep.
    destruct (heappop (queue (env w))) as [[m rest]|] eqn:Hpop;
      [|unfold step in Hstep; rewrite Hpop in Hstep; discriminate].
    assert (Hne : e_event m <> UntilEv).
    { intros Hu. unfold step in Hstep. rewrite Hpop in Hstep. cbv zeta in Hstep.
      rewrite Hu in Hstep. discriminate. }
    destruct (inv_pop H Hpop Hne) as (Hk & _ & _).
    assert (Hm := inv_now Hk). cbn in Hm.
    apply (Permutation_in _ (proj1 (heappop_spec _ Hpop))) in Hx.
    destruct Hx as [<- | Hx]; [lra|].
    apply (stays_queue (@step_stays rng w w' m rest m H Hpop Hstep (behind_self H Hpop))).
    exact Hx.
  - intros w' Hstep. split; [apply (@step_stop rng w w' Hstep)|].
    destruct (heappop (queue (env w))) as [[m rest]|] eqn:Hpop;
      [|unfold step in Hstep; rewrite Hpop in Hstep; discriminate].
    assert (Hs := step_stepped rng H Hpop). rewrite Hstep in Hs.
    inversion Hs as [Hu | | | | | | | | | | ]; subst. cbn.
    destruct (heappop_spec _ Hpop) as [Hperm Hmin].
    assert (Hq := inv_queue H). rewrite Forall_forall in Hq.
    assert (Hmt : (e_time m == SIMULATION_TIME)%Q).
    { apply (ok_until (Hq m (Permutation_in _ (Permutation_sym Hperm) (or_introl eq_refl)))).
      exact Hu. }
    eapply Forall_impl; [|exact Hmin]. intros x Hx. cbn in Hx.
    destruct (Qlt_le_dec (e_time x) SIMULATION_TIME) as [C|]; [|assumption].
    exfalso. apply Hx. left. lra.
Qed.

(** C3, counterexample: when the run [rng_late] ends, [waiting_times] has
    one entry and [service_times] has none. *)
Lemma late_customer_waited_only : ~ lengths_agree rng_late.
Proof.
  intros H. destruct (H 6 _ late_run) as [Hlen _]. vm_compute in Hlen. discriminate.
Qed.

(** C3, as amended: when the run ends, [service_times] is as long as the
    number of customers fully served, and [waiting_times] is longer by the
    number of checkouts still under way: a customer whose service is cut
    off by the horizon has a wait time in the output and no service
    time. *)
Theorem recorded_lengths (rng : nat -> Q) (w : World) :
  final rng w ->
  length (service_times (store w)) = checked_out (stdout w) /\
  length (waiting_times (store w)) =
  length (service_times (store w)) + pending_services (queue (env w)).
Proof.
  intros (w0 & Hr & Hstop). split.
  - destruct (@step_stop rng w0 w Hstop) as (-> & -> & _).
    symmetry. apply (inv_stdout (reachable_inv Hr)).
  - exact (@stop_balanced rng w0 w Hr Hstop).
Qed.

Lemma recorded_lengths_witness :
  length (service_times (store (finished rng_late 6))) =
    checked_out (stdout (finished rng_late 6)) /\
  length (waiting_times (store (finished rng_late 6))) =
    length (service_times (store (finished rng_late 6))) +
    pending_services (queue (env (finished rng_late 6))).
Proof.
  exact (recorded_lengths late_final).
Defined.

(** C4 (the code breaks the claim): [manage_checkouts] is not the
    two-branch policy.  In the run [rng_crowded], after 46 steps two lanes
    are active and both hold 10 customers: the policy activates lane 3
    only, the code fires both branches and reports the opening of lane 2
    once more.  After 56 steps three lanes are active and lanes 1 and 2
    hold 10 and 9 customers: the policy activates nothing, the code
    reopens lane 2 and leaves two lanes active. *)
Theorem manage_checkouts_reopens_lane_2 :
  let w := advance rng_crowded 46 initial in
  let w' := advance rng_crowded 56 initial in
  (reachable rng_crowded w /\
   active_lanes (store w) = 2 /\
   map load (checkout_lanes (store w)) = [10; 10; 0] /\
   manage_checkouts_policy 10 10 2 = (3, [3]) /\
   stdout (snd (manage_checkouts w)) =
     stdout w ++ [LaneOpens 2 (now (env w)); LaneOpens 3 (now (env w))]) /\
  (reachable rng_crowded w' /\
   active_lanes (store w') = 3 /\
   map load (checkout_lanes (store w')) = [10; 9; 1] /\
   manage_checkouts_policy 10 9 3 = (3, []) /\
   stdout (snd (manage_checkouts w')) = stdout w' ++ [LaneOpens 2 (now (env w'))] /\
   active_lanes (store (snd (manage_checkouts w'))) = 2).
Proof.
  cbv zeta. split.
  - split; [apply advance_reachable, reachable_initial|].
    repeat split; vm_compute; reflexivity.
  - split; [apply advance_reachable, reachable_initial|].
    repeat split; vm_compute; reflexivity.
Qed.

(** C5, counterexample: in the run [rng_zero] the service time drawn is 0;
    [env.timeout(0)] is accepted and the run ends normally, with 0 in
    [service_times]. *)
Lemma zero_sample_accepted : ~ nonpositive_samples_abort rng_zero.
Proof.
  intros H. assert (Hpos := H 11 _ 2 zero_run).
  assert (Hd : 2 < draws (finished rng_zero 11)) by (vm_compute; lia).
  specialize (Hpos Hd). vm_compute in Hpos. discriminate.
Qed.

(** C5, as amended: a negative sample, drawn for a service time or for an
    interarrival delay, makes the run abort.  [env.timeout] raises
    [ValueError] on it, the process that drew it fails, and [env.run]
    raises that error a few steps later, before the clock advances.  (A
    sample of 0 is scheduled as it is.) *)
Theorem negative_sample_aborts (rng : nat -> Q) (w w' : World) :
  reachable rng w -> step rng w = Continue w' ->
  draws w' <> draws w -> (rng (draws w) < 0)%Q ->
  exists k w'',
    run rng k w' = Aborted ValueError w'' /\ (now (env w'') == now (env w'))%Q.
Proof.
  intros Hr Hstep Hdraw Hneg. assert (H := reachable_inv Hr).
  destruct (@negative_draw_fails rng w w' H Hstep Hdraw Hneg) as (f & Hf & Hfail).
  eapply failure_aborts; [eapply inv_step; eassumption | exact Hf | exact Hfail |].
  apply Nat.le_refl.
Qed.

Lemma negative_sample_aborts_witness :
  exists k w'',
    run rng_negative k (advance rng_negative 5 initial) = Aborted ValueError w'' /\
    (now (env w'') == now (env (advance rng_negative 5 initial)))%Q.
Proof.
  apply (@negative_sample_aborts rng_negative
           (advance rng_negative 4 initial) (advance rng_negative 5 initial)).
  - apply advance_reachable, reachable_initial.
  - vm_compute. reflexivity.
  - vm_compute. discriminate.
  - vm_compute. reflexivity.
Defined.

(** C6: lane 3 never opens before lane 2.  In every state of a run, if a
    call of [manage_checkouts] runs the assignment [active_lanes = 3] (it
    then prints the opening of lane 3), or takes the lane count from
    another value to 3, then at least 2 lanes were active before the call
    and the load of lane 2 is at least [MAX_QUEUE]. *)
Theorem lane_3_opens_after_lane_2 (rng : nat -> Q) (w w1 w2 : World) (r : Result unit) :
  reachable rng w -> store w1 = store w ->
  manage_checkouts w1 = (r, w2) ->
  In (LaneOpens 3 (now (env w1))) (skipn (length (stdout w1)) (stdout w2)) \/
  (active_lanes (store w1) <> 3 /\ active_lanes (store w2) = 3) ->
  2 <= active_lanes (store w1) /\
  MAX_QUEUE <= lane_load (checkout_lanes (store w1)) 1.
Proof.
  intros Hr Hst Hrun Hset. apply reachable_inv in Hr.
  destruct Hr as [Hsh _ _ _ _ _ _ _ _ _]. rewrite <- Hst in Hsh.
  destruct (shape_lanes Hsh) as (lane0 & lane1 & lane2 & Hlanes).
  rewrite (manage_checkouts_run w1 (lane0:=lane0) (lane1:=lane1)) in Hrun
    by now rewrite Hlanes.
  inversion Hrun; subst r w2; clear Hrun.
  assert (Hclosed : active_lanes (store w1) = 1 -> load lane1 = 0).
  { intros Hone. destruct (shape_closed Hsh Hone (i:=1) (res:=lane1)) as [Hu Hq];
      [lia | now rewrite Hlanes |]. unfold load, count. now rewrite Hu, Hq. }
  unfold lane_load. rewrite Hlanes. cbn [nth_error].
  assert (Hal := shape_active Hsh). unfold NUM_CHECKOUT_LANES in Hal.
  revert Hset. unfold managed, MAX_QUEUE in *.
  destruct (10 <=? load lane0) eqn:E0;
    cbn [store active_lanes with_store set_active_lanes printed stdout].
  - change (2 <=? 2) with true. cbn [andb].
    destruct (Nat.leb_spec 10 (load lane1)) as [E1|E1];
      cbn [store active_lanes with_store set_active_lanes printed stdout];
      rewrite <- ?app_assoc, skipn_app, skipn_all, Nat.sub_diag; cbn [skipn app].
    + intros _. split; [|assumption].
      destruct (Nat.eq_dec (active_lanes (store w1)) 1) as [Hone|]; [|lia].
      specialize (Hclosed Hone). lia.
    + intros [[H | []] | [_ H]]; discriminate.
  - destruct (Nat.leb_spec 2 (active_lanes (store w1))) as [E2|E2]; cbn [andb].
    + destruct (Nat.leb_spec 10 (load lane1)) as [E1|E1];
        cbn [store active_lanes with_store set_active_lanes printed stdout];
        rewrite ?skipn_app, ?skipn_all, ?Nat.sub_diag; cbn [skipn app].
      * intros _. split; assumption.
      * intros [[] | [H1 H2]]. contradiction.
    + rewrite skipn_all. intros [[] | [H1 H2]]. lia.
Qed.

Lemma lane_3_opens_after_lane_2_witness :
  2 <= active_lanes (store (advance rng_crowded 46 initial)) /\
  MAX_QUEUE <= lane_load (checkout_lanes (store (advance rng_crowded 46 initial))) 1.
Proof.
  apply (@lane_3_opens_after_lane_2 rng_crowded
           (advance rng_crowded 46 initial) (advance rng_crowded 46 initial)
           (snd (manage_checkouts (advance rng_crowded 46 initial)))
           (fst (manage_checkouts (advance rng_crowded 46 initial)))).
  - apply advance_reachable, reachable_initial.
  - reflexivity.
  - vm_compute. reflexivity.
  - left. vm_compute. auto.
Defined.

(** C7: the router.  In every state of a run, the arrival code of a
    customer (lines 48-57) does not raise and returns a lane [i] that is
    active, whose load is least among the active lanes, and that is the
    lowest such lane: every active lane before [i] has a strictly greater
    load. *)
Theorem router_picks_least_loaded_active_lane (rng : nat -> Q) (w w1 : World)
    (customer_id : nat) :
  reachable rng w -> store w1 = store w ->
  exists i w2,
    customer_arrival customer_id w1 = (Val (now (env w1), i), w2) /\
    checkout_lanes (store w2) = checkout_lanes (store w1) /\
    i < active_lanes (store w2) /\
    (forall j, j < active_lanes (store w2) ->
       lane_load (checkout_lanes (store w2)) i <= lane_load (checkout_lanes (store w2)) j) /\
    (forall j, j < i ->
       lane_load (checkout_lanes (store w2)) i < lane_load (checkout_lanes (store w2)) j).
Proof.
  intros Hr Hst. apply reachable_inv in Hr.
  destruct Hr as [Hsh _ _ _ _ _ _ _ _ _]. rewrite <- Hst in Hsh.
  destruct (customer_arrival_run customer_id w1 Hsh)
    as (lane0 & lane1 & i & lane & H0 & H1 & Hnth & Hrouted & Hrun).
  exists i, (observed customer_id lane0 lane1 w1).
  split; [exact Hrun|]. rewrite observed_lanes. split; [reflexivity|].
  assert (Hal : active_lanes (store (observed customer_id lane0 lane1 w1)) =
                next_active lane0 lane1 (active_lanes (store w1))).
  { unfold observed. cbn. now rewrite managed_active. }
  rewrite Hal. exact Hrouted.
Qed.

Lemma router_picks_least_loaded_active_lane_witness :
  exists i w2,
    customer_arrival 21 (advance rng_crowded 46 initial) =
      (Val (now (env (advance rng_crowded 46 initial)), i), w2) /\
    checkout_lanes (store w2) = checkout_lanes (store (advance rng_crowded 46 initial)) /\
    i < active_lanes (store w2) /\
    (forall j, j < active_lanes (store w2) ->
       lane_load (checkout_lanes (store w2)) i <= lane_load (checkout_lanes (store w2)) j) /\
    (forall j, j < i ->
       lane_load (checkout_lanes (store w2)) i < lane_load (checkout_lanes (store w2)) j).
Proof.
  apply (@router_picks_least_loaded_active_lane rng_crowded
           (advance rng_crowded 46 initial) (advance rng_crowded 46 initial) 21).
  - apply advance_reachable, reachable_initial.
  - reflexivity.
Defined.

(** C8: the queue-length observation.  When the event loop starts a
    customer process, that step appends exactly one value to
    [average_queue_lengths] and the time of the step to
    [queue_record_times].  The value is the sum of the loads of the active
    lanes divided by their number, as Python's [/] computes it: the double
    nearest to the quotient, which differs from it by at most one part in
    [2^53].  The number of active lanes is the one [manage_checkouts] has
    just set and the loads are those before the customer joins a lane. *)
Theorem queue_stats_recorded_at_arrival (rng : nat -> Q) (w : World) (m : Entry)
    (rest : list Entry) (customer_id : nat) (callbacks : list Generator) :
  reachable rng w ->
  heappop (queue (env w)) = Some (m, rest) ->
  e_event m = InitializeEv (GCustomer (customer_start customer_id)) callbacks ->
  exists w',
    step rng w = Continue w' /\ now (env w') = e_time m /\
    active_lanes (store w') =
      active_lanes (store (snd (manage_checkouts (popped m rest w)))) /\
    let quotient :=
      (inject_Z (Z.of_nat (list_sum (map load (firstn (active_lanes (store w'))
                                                       (checkout_lanes (store w))))))
       / inject_Z (Z.of_nat (active_lanes (store w'))))%Q in
    average_queue_lengths (store w') =
      average_queue_lengths (store w) ++ [binary64 quotient] /\
    (Qabs (binary64 quotient - quotient) <= quotient / 2 ^ 53)%Q /\
    queue_record_times (store w') = queue_record_times (store w) ++ [e_time m].
Proof.
  intros Hr Hpop Hev. assert (H := reachable_inv Hr).
  assert (Hs := step_stepped rng H Hpop).
  inversion Hs as [ | | | c cbs l0 l1 i l Hev' H0 H1 Hi Hrt Hstep | | | | | | | ];
    try congruence.
  rewrite Hev in Hev'. inversion Hev'; subst c cbs. clear Hev'.
  set (w1 := popped m rest w) in *.
  exists (arrived customer_id i l0 l1 l w1). split; [reflexivity|].
  assert (Hal : active_lanes (store (arrived customer_id i l0 l1 l w1)) =
                next_active l0 l1 (active_lanes (store w))).
  { unfold arrived, requested. rewrite (proj1 (stats_triggered _ _ _)). cbn.
    unfold observed. cbn. now rewrite managed_active. }
  split; [|split; [|cbv zeta; split; [|split]]].
  - apply (@step_now rng w _ m rest H Hpop). now symmetry.
  - rewrite Hal. rewrite (manage_checkouts_run w1 (lane0:=l0) (lane1:=l1)) by assumption.
    cbn [snd]. now rewrite managed_active.
  - rewrite Hal. unfold arrived, requested.
    rewrite (proj1 (proj2 (stats_triggered _ _ _))). cbn. unfold observed. cbn.
    rewrite (proj1 (stats_managed _ _ _)). cbn. f_equal. f_equal.
    unfold average, total_queue_length. rewrite managed_active, managed_lanes. cbn.
    now rewrite map_load_comm.
  - apply binary64_close. unfold Qdiv. apply Qmult_le_0_compat.
    + change 0%Q with (inject_Z 0). rewrite <- Zle_Qle. lia.
    + apply Qinv_le_0_compat. change 0%Q with (inject_Z 0). rewrite <- Zle_Qle. lia.
  - unfold arrived, requested.
    rewrite (proj2 (proj2 (stats_triggered _ _ _))). cbn. unfold observed. cbn.
    now rewrite (proj2 (stats_managed _ _ _)).
Qed.

Lemma queue_stats_recorded_at_arrival_witness :
  let w := advance rng_crowded 46 initial in
  exists w',
    step rng_crowded w = Continue w' /\ now (env w') = e_time (popped_entry w) /\
    active_lanes (store w') =
      active_lanes (store (snd (manage_checkouts (popped (popped_entry w) (popped_rest w) w)))) /\
    let quotient :=
      (inject_Z (Z.of_nat (list_sum (map load (firstn (active_lanes (store w'))
                                                       (checkout_lanes (store w))))))
       / inject_Z (Z.of_nat (active_lanes (store w'))))%Q in
    average_queue_lengths (store w') =
      average_queue_lengths (store w) ++ [binary64 quotient] /\
    (Qabs (binary64 quotient - quotient) <= quotient / 2 ^ 53)%Q /\
    queue_record_times (store w') = queue_record_times (store w) ++ [e_time (popped_entry w)].
Proof.
  apply (@queue_stats_recorded_at_arrival rng_crowded (advance rng_crowded 46 initial)
           (popped_entry (advance rng_crowded 46 initial))
           (popped_rest (advance rng_crowded 46 initial)) 21 []).
  - apply advance_reachable, reachable_initial.
  - vm_compute. reflexivity.
  - vm_compute. reflexivity.
Defined.

(** C9: every recorded time is non-negative.  In every state of a run,
    and in the state the run ends in, every value of [waiting_times] and
    every value of [service_times] is at least 0: the clock does not move
    backward between the arrival of a customer and the grant of its lane,
    and [env.timeout] refuses a negative service time. *)
Theorem recorded_times_nonnegative (rng : nat -> Q) (w : World) :
  reachable rng w \/ final rng w ->
  Forall (fun x => (0 <= x)%Q) (waiting_times (store w)) /\
  Forall (fun x => (0 <= x)%Q) (service_times (store w)).
Proof.
  intros [Hr | (w0 & Hr & Hstop)].
  - apply reachable_inv in Hr. split; apply Hr.
  - apply reachable_inv in Hr. apply step_stop in Hstop as (-> & _ & _).
    split; apply Hr.
Qed.

Lemma recorded_times_nonnegative_witness :
  Forall (fun x => (0 <= x)%Q) (waiting_times (store (finished rng_late 6))) /\
  Forall (fun x => (0 <= x)%Q) (service_times (store (finished rng_late 6))).
Proof.
  exact (recorded_times_nonnegative (or_intror late_final)).
Defined.

(** C10: at least one lane is active.  In every state of a run
    [active_lanes] is 1, 2 or 3; [update_queue_stats] called on that store
    does not raise, and neither does it after [manage_checkouts], which
    leaves [active_lanes] between 1 and 3: the division by [active_lanes]
    is never a division by zero. *)
Theorem active_lanes_positive (rng : nat -> Q) (w : World) :
  reachable rng w ->
  1 <= active_lanes (store w) <= 3 /\
  forall w1, store w1 = store w ->
    (exists w2, update_queue_stats w1 = (Val tt, w2)) /\
    (exists w2 w3, manage_checkouts w1 = (Val tt, w2) /\
                   1 <= active_lanes (store w2) <= 3 /\
                   update_queue_stats w2 = (Val tt, w3)).
Proof.
  intros Hr. apply reachable_inv in Hr. destruct Hr as [Hsh _ _ _ _ _ _ _ _ _].
  split; [exact (shape_active Hsh)|].
  intros w1 Hst. rewrite <- Hst in Hsh.
  destruct (shape_lanes Hsh) as (lane0 & lane1 & lane2 & Hlanes).
  assert (Hal := shape_active Hsh). unfold NUM_CHECKOUT_LANES in Hal.
  split.
  - eexists. apply update_queue_stats_run. lia.
  - assert (Hb := next_active_bounds lane0 lane1 (shape_active Hsh)).
    unfold NUM_CHECKOUT_LANES in Hb.
    exists (managed lane0 lane1 w1). eexists. split; [|split].
    + apply manage_checkouts_run; now rewrite Hlanes.
    + now rewrite managed_active.
    + apply update_queue_stats_run. rewrite managed_active. lia.
Qed.

Lemma active_lanes_positive_witness :
  1 <= active_lanes (store (advance rng_crowded 56 initial)) <= 3 /\
  forall w1, store w1 = store (advance rng_crowded 56 initial) ->
    (exists w2, update_queue_stats w1 = (Val tt, w2)) /\
    (exists w2 w3, manage_checkouts w1 = (Val tt, w2) /\
                   1 <= active_lanes (store w2) <= 3 /\
                   update_queue_stats w2 = (Val tt, w3)).
Proof.
  exact (active_lanes_positive (advance_reachable 56 (reachable_initial rng_crowded))).
Defined.

(** * More about the runs *)

(** ** What a step records *)

Lemma same_records_refl (w : World) : same_records w w.
Proof. now split. Qed.

Lemma same_records_trans (w1 w2 w3 : World) :
  same_records w1 w2 -> same_records w2 w3 -> same_records w1 w3.
Proof. intros [] []. split; congruence. Qed.

Lemma same_records_scheduled (ev : Event) (priority : nat) (delay : Q) (w : World) :
  same_records w (scheduled ev priority delay w).
Proof. now split. Qed.

Lemma same_records_put_lane (i : nat) (res : Resource) (w : World) :
  same_records w (put_lane i res w).
Proof. now split. Qed.

Lemma same_records_triggered (i : nat) (res : Resource) (w : World) :
  same_records w (triggered i res w).
Proof.
  unfold triggered. destruct (_trigger_put res) as [res' [g|]]; [|apply same_records_refl].
  eapply same_records_trans; [apply same_records_put_lane | apply same_records_scheduled].
Qed.

Lemma same_records_released (r : Request) (w : World) : same_records w (released r w).
Proof.
  unfold released.
  eapply same_records_trans; [|apply same_records_scheduled].
  destruct (nth_error _ _); [apply same_records_put_lane | apply same_records_refl].
Qed.

Lemma same_records_departed (value : option exn) (g : Generator) (w : World) :
  same_records w (departed value g w).
Proof.
  unfold departed. destruct g as [|[| |r]|]; try apply same_records_refl.
  eapply same_records_trans; [apply same_records_released | apply same_records_scheduled].
Qed.

Lemma same_records_fold_departed (value : option exn) (callbacks : list Generator) :
  forall w, same_records w (fold_left (fun w g => departed value g w) callbacks w).
Proof.
  induction callbacks as [|g cbs IH]; intros w; cbn [fold_left]; [apply same_records_refl|].
  eapply same_records_trans; [apply same_records_departed | apply IH].
Qed.

Lemma same_records_looped (rng : nat -> Q) (customer_id : nat) (callbacks : list Generator)
    (w : World) :
  same_records w (looped rng customer_id callbacks w).
Proof.
  unfold looped. destruct (Qltb _ _); [destruct (Qltb _ _)|]; now split.
Qed.

Lemma same_records_started (rng : nat -> Q) (customer_id lane_number : nat)
    (callbacks : list Generator) (w : World) :
  same_records w (started rng customer_id lane_number callbacks w).
Proof. unfold started. destruct (Qltb _ _); now split. Qed.

Lemma average_average_load (st : GroceryStore) :
  average st = average_load (checkout_lanes st) (active_lanes st).
Proof.
  unfold average, average_load, total_queue_length. now rewrite map_load_comm.
Qed.

Lemma managed_stdout (lane0 lane1 : Resource) (w : World) :
  stdout (managed lane0 lane1 w) =
  stdout w ++ openings lane0 lane1 (active_lanes (store w)) (now (env w)).
Proof.
  unfold managed, openings.
  destruct (MAX_QUEUE <=? load lane0); cbn; destruct (_ && _); cbn;
    rewrite <- ?app_assoc, ?app_nil_r; reflexivity.
Qed.

Lemma managed_records (lane0 lane1 : Resource) (w : World) :
  waiting_times (store (managed lane0 lane1 w)) = waiting_times (store w) /\
  service_times (store (managed lane0 lane1 w)) = service_times (store w) /\
  average_queue_lengths (store (managed lane0 lane1 w)) = average_queue_lengths (store w) /\
  queue_record_times (store (managed lane0 lane1 w)) = queue_record_times (store w) /\
  draws (managed lane0 lane1 w) = draws w.
Proof.
  unfold managed. destruct (MAX_QUEUE <=? load lane0); cbn; destruct (_ && _); cbn; auto.
Qed.

(** The output and the records after an arrival (lines 48-59) *)
Lemma arrived_records (customer_id i : nat) (lane0 lane1 lane : Resource) (w : World) :
  let w' := arrived customer_id i lane0 lane1 lane w in
  now (env w') = now (env w) /\
  stdout w' = stdout w ++ CustomerArrives customer_id (now (env w))
                :: openings lane0 lane1 (active_lanes (store w)) (now (env w))
                ++ [CustomerJoins customer_id (i + 1) (length (put_queue lane) + count lane)] /\
  active_lanes (store w') = next_active lane0 lane1 (active_lanes (store w)) /\
  waiting_times (store w') = waiting_times (store w) /\
  service_times (store w') = service_times (store w) /\
  average_queue_lengths (store w') =
    average_queue_lengths (store w) ++
    [average_load (checkout_lanes (store w))
                  (next_active lane0 lane1 (active_lanes (store w)))] /\
  queue_record_times (store w') = queue_record_times (store w) ++ [now (env w)].
Proof.
  cbv zeta.
  set (w1 := printed (CustomerArrives customer_id (now (env w))) w).
  set (w2 := managed lane0 lane1 w1).
  set (w3 := with_store (append_queue_stats (average (store w2)) (now (env w))) w2).
  set (w4 := printed (CustomerJoins customer_id (i + 1) (length (put_queue lane) + count lane)) w3).
  assert (E : same_records w4 (arrived customer_id i lane0 lane1 lane w)).
  { unfold arrived, requested. fold w1 w2 w3 w4.
    eapply same_records_trans; [apply same_records_put_lane | apply same_records_triggered]. }
  destruct E as [E1 E2 E3 E4 E5 E6 E7].
  destruct (managed_records lane0 lane1 w1) as (M1 & M2 & M3 & M4 & _).
  repeat split.
  - rewrite E1. change (now (env w4)) with (now (env w2)).
    unfold w2. now rewrite managed_env.
  - rewrite E2.
    change (stdout w4) with
      (stdout w2 ++ [CustomerJoins customer_id (i + 1) (length (put_queue lane) + count lane)]).
    unfold w2. rewrite managed_stdout.
    change (stdout w1) with (stdout w ++ [CustomerArrives customer_id (now (env w))]).
    now rewrite <- !app_assoc.
  - rewrite E3. change (active_lanes (store w4)) with (active_lanes (store w2)).
    unfold w2. now rewrite managed_active.
  - rewrite E4. exact M1.
  - rewrite E5. exact M2.
  - rewrite E6.
    change (average_queue_lengths (store w4))
      with (average_queue_lengths (store w2) ++ [average (store w2)]).
    rewrite average_average_load. unfold w2.
    now rewrite M3, managed_lanes, managed_active.
  - rewrite E7.
    change (queue_record_times (store w4))
      with (queue_record_times (store w2) ++ [now (env w)]).
    unfold w2. now rewrite M4.
Qed.

Lemma recorded_arrived (customer_id i : nat) (lane0 lane1 lane : Resource) (w : World) :
  nth_error (checkout_lanes (store w)) 0 = Some lane0 ->
  nth_error (checkout_lanes (store w)) 1 = Some lane1 ->
  i < next_active lane0 lane1 (active_lanes (store w)) ->
  recorded w (arrived customer_id i lane0 lane1 lane w).
Proof.
  intros H0 H1 Hi.
  destruct (arrived_records customer_id i lane0 lane1 lane w)
    as (E1 & E2 & E3 & E4 & E5 & E6 & E7).
  now apply recorded_arrival with (customer_id := customer_id) (i := i)
    (queue_length := length (put_queue lane) + count lane) (lane0 := lane0) (lane1 := lane1).
Qed.

Section Recorded.
Variable rng : nat -> Q.

Lemma reachable_stepped_ind (P : World -> Prop) :
  P initial ->
  (forall w m rest w', reachable rng w -> P w ->
     heappop (queue (env w)) = Some (m, rest) ->
     stepped rng w m rest (Continue w') -> P w') ->
  forall w, reachable rng w -> P w.
Proof.
  intros H0 Hstep w Hr. induction Hr as [|w w' Hr IH Hs]; [assumption|].
  destruct (heappop (queue (env w))) as [[m rest]|] eqn:Hpop;
    [|unfold step in Hs; rewrite Hpop in Hs; discriminate].
  apply (Hstep w m rest w' Hr IH Hpop).
  rewrite <- Hs. apply step_stepped; [exact (reachable_inv Hr) | assumption].
Qed.

Lemma stepped_recorded (w w' : World) (m : Entry) (rest : list Entry) :
  stepped rng w m rest (Continue w') -> recorded (popped m rest w) w'.
Proof.
  intros Hstep.
  inversion Hstep as [ | cbs Hev | c cbs Hev | c cbs l0 l1 i l Hev H0 H1 Hi Hrt | r Hev Har
                     | c l cbs Hev Hcb | c l st cbs Hev Hst Hcb | l Hev | cbs Hev Hcb
                     | g cbs Hev Hcb | ]; subst w'.
  - apply recorded_nothing, same_records_looped.
  - apply recorded_nothing.
    eapply same_records_trans; [apply same_records_scheduled | apply same_records_looped].
  - apply recorded_arrived; try assumption. apply Hrt.
  - apply recorded_wait with (r := r); try reflexivity. exact Har.
  - apply recorded_nothing, same_records_started.
  - apply recorded_service with (customer_id := c) (lane_number := l) (service_time := st);
      try reflexivity. exact Hst.
  - apply recorded_nothing. destruct (nth_error _ _);
      [apply same_records_triggered | apply same_records_refl].
  - apply recorded_nothing, same_records_fold_departed.
  - apply recorded_nothing, (same_records_fold_departed (Some ValueError) (g :: cbs)).
Qed.

End Recorded.

Section RecordedInduction.
Variable rng : nat -> Q.

Lemma reachable_recorded_ind (P : World -> Prop) :
  P initial ->
  (forall w m rest w', reachable rng w -> P w ->
     heappop (queue (env w)) = Some (m, rest) ->
     (now (env w) <= e_time m)%Q -> (e_time m < SIMULATION_TIME)%Q ->
     recorded (popped m rest w) w' -> P w') ->
  forall w, reachable rng w -> P w.
Proof.
  intros H0 Hstep. apply reachable_stepped_ind; [assumption|].
  intros w m rest w' Hr HP Hpop Hs.
  assert (Hne : e_event m <> UntilEv).
  { intros Hu. inversion Hs; congruence. }
  destruct (inv_pop (reachable_inv Hr) Hpop Hne) as (Hk & _ & Hle).
  assert (Hlt := inv_now Hk). cbn in Hlt.
  apply (Hstep w m rest w' Hr HP Hpop Hle Hlt). eapply stepped_recorded; eassumption.
Qed.

End RecordedInduction.

Lemma StronglySorted_snoc {A} (R : A -> A -> Prop) (l : list A) (a : A) :
  StronglySorted R l -> Forall (fun x => R x a) l -> StronglySorted R (l ++ [a]).
Proof.
  induction 1 as [|x l Hs IH Hx]; intros Ha; cbn.
  - repeat constructor.
  - inversion Ha; subst. constructor; [now apply IH|].
    apply Forall_app. split; [assumption | now constructor].
Qed.

Lemma average_load_nonneg (lanes : list Resource) (al : nat) : (0 <= average_load lanes al)%Q.
Proof.
  unfold average_load, Qdiv. apply binary64_nonneg. apply Qmult_le_0_compat.
  - change 0%Q with (inject_Z 0). rewrite <- Zle_Qle. lia.
  - apply Qinv_le_0_compat. change 0%Q with (inject_Z 0). rewrite <- Zle_Qle. lia.
Qed.

Lemma lane_opened_app (k : nat) (out out' : list Line) :
  lane_opened k (out ++ out') = lane_opened k out || lane_opened k out'.
Proof. apply existsb_app. Qed.

Lemma lane_opened_openings (lane0 lane1 : Resource) (al : nat) (t : Q) :
  lane_opened 2 (openings lane0 lane1 al t) = (MAX_QUEUE <=? load lane0) /\
  lane_opened 3 (openings lane0 lane1 al t) =
    (2 <=? (if MAX_QUEUE <=? load lane0 then 2 else al)) && (MAX_QUEUE <=? load lane1).
Proof.
  unfold openings.
  destruct (MAX_QUEUE <=? load lane0); destruct (_ && _); split; reflexivity.
Qed.

Lemma printed_openings (lane0 lane1 : Resource) (al : nat) (t : Q) :
  waits_printed (openings lane0 lane1 al t) = [] /\
  services_printed (openings lane0 lane1 al t) = [] /\
  arrivals_printed (openings lane0 lane1 al t) = [].
Proof.
  unfold openings. destruct (MAX_QUEUE <=? load lane0); destruct (_ && _); repeat split.
Qed.

(** ** The output against the records *)

Section Output.
Variable rng : nat -> Q.

Lemma reachable_records_printed (w : World) : reachable rng w -> records_printed w.
Proof.
  revert w. apply reachable_recorded_ind.
  - repeat split.
  - intros w m rest w' _ (Hw & Hs & Ht) _ _ _ Hrec.
    unfold records_printed, waits_printed, services_printed, arrivals_printed in *.
    destruct Hrec as [[_ E1 _ E2 E3 _ E4]
                     | c i n l0 l1 _ _ _ _ E1 _ E2 E3 _ E4
                     | r _ _ E1 _ E2 E3 _ E4
                     | c l st _ _ E1 _ E2 E3 _ E4];
      cbn in E1, E2, E3, E4; rewrite E1, E2, E3, E4, ?flat_map_app; cbn;
      rewrite ?flat_map_app; cbn;
      try (destruct (printed_openings l0 l1 (active_lanes (store w)) (e_time m))
             as (O1 & O2 & O3);
           unfold waits_printed, services_printed, arrivals_printed in O1, O2, O3;
           rewrite O1, O2, O3);
      cbn; rewrite ?app_nil_r, ?map_app; cbn;
      rewrite <- ?Hw, <- ?Hs, <- ?Ht; auto.
Qed.

Lemma reachable_stats_ok (w : World) : reachable rng w -> stats_ok w.
Proof.
  revert w. apply reachable_recorded_ind.
  - split; cbn; try constructor. lra.
  - intros w m rest w' _ [H1 H2 H3 H4 H5] _ Hle Hlt Hrec.
    assert (Hold : Forall (fun t => (0 <= t <= e_time m)%Q) (queue_record_times (store w))).
    { eapply Forall_impl; [|exact H3]. cbn. intros t Ht. lra. }
    destruct Hrec as [[En _ _ _ _ Ea Et]
                     | c i n l0 l1 _ _ _ En _ _ _ _ Ea Et
                     | r _ En _ _ _ _ Ea Et
                     | c l st _ En _ _ _ _ Ea Et];
      cbn in En, Ea, Et; split; rewrite ?En, ?Ea, ?Et; auto; try lra.
    + rewrite !length_app. cbn. lia.
    + apply StronglySorted_snoc; [assumption|].
      eapply Forall_impl; [|exact H3]. cbn. intros t Ht'. lra.
    + apply Forall_app. split; [assumption|]. constructor; [lra | constructor].
    + apply Forall_app. split; [assumption|].
      constructor; [apply average_load_nonneg | constructor].
Qed.

Lemma reachable_opens_ok (w : World) : reachable rng w -> opens_ok w.
Proof.
  revert w. apply reachable_recorded_ind.
  - split; [reflexivity | cbn; discriminate].
  - intros w m rest w' Hr [H2 H3] _ _ _ Hrec.
    assert (Hb := shape_active (inv_shape (reachable_inv Hr))).
    unfold NUM_CHECKOUT_LANES in Hb. unfold opens_ok.
    destruct Hrec as [[_ Eo Eal _ _ _ _]
                     | c i n l0 l1 _ _ _ _ Eo Eal _ _ _ _
                     | r _ _ Eo Eal _ _ _ _
                     | c l st _ _ Eo Eal _ _ _ _];
      cbn in Eo, Eal; rewrite Eo, Eal.
    + now split.
    + change (CustomerArrives c (e_time m) :: openings l0 l1 (active_lanes (store w)) (e_time m)
              ++ [CustomerJoins c (i + 1) n])
        with ([CustomerArrives c (e_time m)] ++ openings l0 l1 (active_lanes (store w)) (e_time m)
              ++ [CustomerJoins c (i + 1) n]).
      rewrite !lane_opened_app.
      destruct (lane_opened_openings l0 l1 (active_lanes (store w)) (e_time m)) as [-> ->].
      change (lane_opened 2 [CustomerArrives c (e_time m)]) with false.
      change (lane_opened 3 [CustomerArrives c (e_time m)]) with false.
      change (lane_opened 2 [CustomerJoins c (i + 1) n]) with false.
      change (lane_opened 3 [CustomerJoins c (i + 1) n]) with false.
      rewrite !orb_false_r. cbn [orb]. unfold next_active. rewrite <- H2.
      destruct (MAX_QUEUE <=? load l0); [change (2 <=? 2) with true|];
        destruct (MAX_QUEUE <=? load l1);
        destruct (2 <=? active_lanes (store w)) eqn:E2;
        cbn [andb orb]; rewrite ?orb_true_r, ?orb_false_r;
        (split; [reflexivity || exact E2 | try discriminate; auto]).
    + rewrite !lane_opened_app. change (lane_opened 2 [_]) with false.
      change (lane_opened 3 [_]) with false. rewrite !orb_false_r. now split.
    + rewrite !lane_opened_app. change (lane_opened 2 [_]) with false.
      change (lane_opened 3 [_]) with false. rewrite !orb_false_r. now split.
Qed.

Lemma recorded_keeps_lane_2 (w w' : World) :
  recorded w w' -> 2 <= active_lanes (store w) -> 2 <= active_lanes (store w').
Proof.
  intros Hrec H2.
  destruct Hrec as [[_ _ Eal _ _ _ _]
                   | c i n l0 l1 _ _ _ _ _ Eal _ _ _ _
                   | r _ _ _ Eal _ _ _ _
                   | c l st _ _ _ Eal _ _ _ _]; rewrite Eal; try assumption.
  unfold next_active. destruct (MAX_QUEUE <=? load l0); destruct (_ && _); lia.
Qed.

End Output.

(** ** Lanes that were never opened *)

Lemma arrived_stdout (customer_id i : nat) (lane0 lane1 lane : Resource) (w : World) :
  stdout (arrived customer_id i lane0 lane1 lane w) =
  stdout w ++ CustomerArrives customer_id (now (env w))
    :: openings lane0 lane1 (active_lanes (store w)) (now (env w))
    ++ [CustomerJoins customer_id (i + 1) (length (put_queue lane) + count lane)].
Proof. apply arrived_records. Qed.

Lemma recorded_opened_before (k : nat) (w w' : World) :
  recorded w w' -> lane_opened k (stdout w') = false -> lane_opened k (stdout w) = false.
Proof.
  intros Hrec.
  destruct Hrec as [[_ Eo _ _ _ _ _]
                   | c i n l0 l1 _ _ _ _ Eo _ _ _ _ _
                   | r _ _ Eo _ _ _ _ _
                   | c l st _ _ Eo _ _ _ _ _]; rewrite Eo; auto;
    rewrite lane_opened_app; intros H; now apply orb_false_elim in H.
Qed.

Lemma shut_frame (j : nat) (w w' : World) :
  active_lanes (store w') = active_lanes (store w) ->
  checkout_lanes (store w') = checkout_lanes (store w) ->
  shut j w -> shut j w'.
Proof. unfold shut. intros -> ->. auto. Qed.

Lemma shut_put_lane_other (i j : nat) (res : Resource) (w : World) :
  i <> j -> shut j w -> shut j (put_lane i res w).
Proof.
  intros Hne (Hal & lane & Hnth & He). split; [exact Hal|].
  exists lane. split; [|exact He].
  change (checkout_lanes (store (put_lane i res w)))
    with (list_set (checkout_lanes (store w)) i res).
  now rewrite nth_error_list_set_neq.
Qed.

Lemma shut_put_lane_empty (j : nat) (res : Resource) (w : World) :
  lane_empty res -> shut j w -> shut j (put_lane j res w).
Proof.
  intros He (Hal & lane & Hnth & _). split; [exact Hal|].
  exists res. split; [|exact He].
  change (checkout_lanes (store (put_lane j res w)))
    with (list_set (checkout_lanes (store w)) j res).
  apply nth_error_list_set_eq. apply nth_error_Some. congruence.
Qed.

Lemma shut_scheduled (j : nat) (ev : Event) (priority : nat) (delay : Q) (w : World) :
  shut j w -> shut j (scheduled ev priority delay w).
Proof. now apply shut_frame. Qed.

Lemma shut_triggered (i j : nat) (res : Resource) (w : World) :
  nth_error (checkout_lanes (store w)) i = Some res ->
  shut j w -> shut j (triggered i res w).
Proof.
  intros Hnth H. unfold triggered.
  destruct (_trigger_put_cases res) as [-> | (g & rest & Hq & Hu & ->)]; [assumption|].
  apply shut_scheduled. apply shut_put_lane_other; [|assumption].
  intros ->. destruct H as (_ & lane & Hj & _ & He). congruence.
Qed.

Lemma shut_released (j : nat) (r : Request) (w : World) :
  shut j w -> shut j (released r w).
Proof.
  intros H. unfold released. apply shut_scheduled.
  destruct (nth_error (checkout_lanes (store w)) (rq_lane r)) as [res|] eqn:E; [|assumption].
  destruct (Nat.eq_dec (rq_lane r) j) as [Hj | Hj]; [|now apply shut_put_lane_other].
  rewrite Hj in *. apply shut_put_lane_empty; [|assumption].
  destruct H as (_ & lane & Hnth & Hu & Hq). rewrite E in Hnth. inversion Hnth; subst.
  split; cbn; [now rewrite Hu | assumption].
Qed.

Lemma shut_departed (j : nat) (value : option exn) (g : Generator) (w : World) :
  shut j w -> shut j (departed value g w).
Proof.
  intros H. unfold departed. destruct g as [|[| |r]|]; try assumption.
  apply shut_scheduled. now apply shut_released.
Qed.

Lemma shut_fold_departed (j : nat) (value : option exn) (callbacks : list Generator) :
  forall w, shut j w -> shut j (fold_left (fun w g => departed value g w) callbacks w).
Proof.
  induction callbacks as [|g cbs IH]; intros w H; cbn [fold_left]; [assumption|].
  apply IH. now apply shut_departed.
Qed.

Lemma shut_looped (rng : nat -> Q) (j customer_id : nat) (callbacks : list Generator)
    (w : World) :
  shut j w -> shut j (looped rng customer_id callbacks w).
Proof.
  intros H. unfold looped.
  destruct (Qltb _ _); [destruct (Qltb _ _)|]; apply shut_scheduled; try assumption;
    now apply (shut_frame (w := w)).
Qed.

Lemma shut_started (rng : nat -> Q) (j customer_id lane_number : nat)
    (callbacks : list Generator) (w : World) :
  shut j w -> shut j (started rng customer_id lane_number callbacks w).
Proof.
  intros H. unfold started.
  destruct (Qltb _ _); apply shut_scheduled; now apply (shut_frame (w := w)).
Qed.

Lemma shut_arrived (j customer_id i : nat) (lane0 lane1 lane : Resource) (w : World) :
  i < next_active lane0 lane1 (active_lanes (store w)) ->
  next_active lane0 lane1 (active_lanes (store w)) <= j ->
  shut j w -> shut j (arrived customer_id i lane0 lane1 lane w).
Proof.
  intros Hi Hal (_ & res & Hj & He).
  assert (Hne : i <> j) by lia.
  assert (H2 : shut j (observed customer_id lane0 lane1 w)).
  { split.
    - unfold observed.
      change (active_lanes (store (with_store ?f ?x))) with (active_lanes (store x)).
      now rewrite managed_active.
    - exists res. split; [|exact He]. now rewrite observed_lanes. }
  unfold arrived, requested. cbn [rq_lane].
  unfold triggered. destruct (_trigger_put _) as [res' [g|]].
  - apply shut_scheduled. apply shut_put_lane_other; [assumption|].
    apply shut_put_lane_other; [assumption|].
    now apply (shut_frame (w := observed customer_id lane0 lane1 w)).
  - apply shut_put_lane_other; [assumption|].
    now apply (shut_frame (w := observed customer_id lane0 lane1 w)).
Qed.

Lemma next_active_shut (j : nat) (lane0 lane1 : Resource) (al : nat) (t : Q) :
  j = 1 \/ j = 2 -> al <= j ->
  lane_opened (j + 1) (openings lane0 lane1 al t) = false ->
  next_active lane0 lane1 al <= j.
Proof.
  intros Hj Hal. destruct (lane_opened_openings lane0 lane1 al t) as [E2 E3].
  unfold next_active.
  destruct Hj as [-> | ->]; cbn [Nat.add]; [rewrite E2 | rewrite E3]; intros E.
  - rewrite E. destruct (Nat.leb_spec 2 al); [lia|]. cbn [andb]. assumption.
  - rewrite E. destruct (MAX_QUEUE <=? load lane0); lia.
Qed.

Section Closed.
Variable rng : nat -> Q.

Lemma reachable_closed_ok (w : World) : reachable rng w -> closed_ok w.
Proof.
  revert w. apply reachable_stepped_ind.
  - intros j Hj _. split; [cbn; lia|]. exists (mkResource [] []).
    split; [destruct Hj as [-> | ->]; reflexivity | split; reflexivity].
  - intros w m rest w' Hr IH Hpop Hstep j Hj Hout.
    assert (Hw : shut j w).
    { apply IH; [assumption|].
      apply (recorded_opened_before (j + 1) (stepped_recorded Hstep) Hout). }
    assert (Hp : shut j (popped m rest w)) by (apply (shut_frame (w := w)); auto).
    inversion Hstep as [ | cbs Hev | c cbs Hev | c cbs l0 l1 i l Hev H0 H1 Hi Hrt | r Hev Har
                       | c l cbs Hev Hcb | c l st cbs Hev Hst Hcb | l Hev | cbs Hev Hcb
                       | g cbs Hev Hcb | ]; subst w'.
    + now apply shut_looped.
    + apply shut_looped. now apply shut_scheduled.
    + rewrite arrived_stdout, !lane_opened_app in Hout.
      change (?a :: ?l ++ ?b) with ([a] ++ l ++ b) in Hout.
      rewrite !lane_opened_app in Hout.
      apply orb_false_elim in Hout as [_ Hout]. apply orb_false_elim in Hout as [_ Hout].
      apply orb_false_elim in Hout as [Hout _].
      apply shut_arrived; [apply Hrt | | assumption].
      eapply next_active_shut; [exact Hj | apply Hw | exact Hout].
    + unfold granted. apply shut_scheduled. now apply (shut_frame (w := popped m rest w)).
    + now apply shut_started.
    + unfold served. apply shut_scheduled. now apply (shut_frame (w := popped m rest w)).
    + destruct (nth_error (checkout_lanes (store w)) l) as [res|] eqn:E; [|assumption].
      now apply shut_triggered.
    + now apply shut_fold_departed.
    + now apply (@shut_fold_departed j (Some ValueError) (g :: cbs)).
Qed.

End Closed.

(** ** Theorems about the output and the lanes *)

Lemma shows_waits (out : list Line) :
  Forall2 (fun l x => exists c lane, text l = line65 c x lane) (filter is_waited out)
          (waits_printed out).
Proof.
  unfold waits_printed.
  induction out as [|[| | | |c x lane] out IH]; cbn [filter is_waited flat_map app];
    try assumption; [constructor|].
  constructor; [now exists c, lane | exact IH].
Qed.

Lemma shows_services (out : list Line) :
  Forall2 (fun l x => exists c lane, text l = line27 c lane x) (filter is_checked_out out)
          (services_printed out).
Proof.
  unfold services_printed.
  induction out as [|[c lane x| | | |] out IH]; cbn [filter is_checked_out flat_map app];
    try assumption; [constructor|].
  constructor; [now exists c, lane | exact IH].
Qed.

Lemma shows_arrivals (out : list Line) :
  Forall2 (fun l t => exists c, text l = line49 c t) (filter is_arrival out)
          (map snd (arrivals_printed out)).
Proof.
  unfold arrivals_printed.
  induction out as [|[| |c t| |] out IH]; cbn [filter is_arrival flat_map app map snd];
    try assumption; [constructor|].
  constructor; [now exists c | exact IH].
Qed.

(** X1: the output shows the records.  In every state of a run, and when
    the run has ended, the lines printed by line 65 are, in the order of
    printing, one for each value of [waiting_times], and each shows its
    value with two decimals; so are the lines printed by line 27 for
    [service_times] and the lines printed by line 49 for
    [queue_record_times]. *)
Theorem output_shows_the_records (rng : nat -> Q) (w : World) :
  reachable rng w \/ final rng w ->
  Forall2 (fun l x => exists c lane, text l = line65 c x lane)
          (filter is_waited (stdout w)) (waiting_times (store w)) /\
  Forall2 (fun l x => exists c lane, text l = line27 c lane x)
          (filter is_checked_out (stdout w)) (service_times (store w)) /\
  Forall2 (fun l t => exists c, text l = line49 c t)
          (filter is_arrival (stdout w)) (queue_record_times (store w)).
Proof.
  assert (H : forall w0, records_printed w0 ->
    Forall2 (fun l x => exists c lane, text l = line65 c x lane)
            (filter is_waited (stdout w0)) (waiting_times (store w0)) /\
    Forall2 (fun l x => exists c lane, text l = line27 c lane x)
            (filter is_checked_out (stdout w0)) (service_times (store w0)) /\
    Forall2 (fun l t => exists c, text l = line49 c t)
            (filter is_arrival (stdout w0)) (queue_record_times (store w0))).
  { intros w0 (-> & -> & ->).
    split; [apply shows_waits | split; [apply shows_services | apply shows_arrivals]]. }
  intros [Hr | (w0 & Hr & Hstop)]; apply H.
  - exact (reachable_records_printed Hr).
  - destruct (@step_stop rng w0 w Hstop) as (Es & Eo & _).
    unfold records_printed. rewrite Es, Eo. exact (reachable_records_printed Hr).
Qed.

Lemma output_shows_the_records_witness :
  Forall2 (fun l x => exists c lane, text l = line65 c x lane)
          (filter is_waited (stdout (advance rng_crowded 56 initial)))
          (waiting_times (store (advance rng_crowded 56 initial))) /\
  Forall2 (fun l x => exists c lane, text l = line27 c lane x)
          (filter is_checked_out (stdout (advance rng_crowded 56 initial)))
          (service_times (store (advance rng_crowded 56 initial))) /\
  Forall2 (fun l t => exists c, text l = line49 c t)
          (filter is_arrival (stdout (advance rng_crowded 56 initial)))
          (queue_record_times (store (advance rng_crowded 56 initial))).
Proof.
  apply (@output_shows_the_records rng_crowded (advance rng_crowded 56 initial)).
  left. apply advance_reachable, reachable_initial.
Defined.

(** X2: the two sequences that line 99 plots against each other.  In every
    state of a run, and when the run has ended, [average_queue_lengths] and
    [queue_record_times] have the same length, the record times are in
    non-decreasing order and lie in [0, SIMULATION_TIME), and no recorded
    average is negative. *)
Theorem queue_statistics_are_aligned (rng : nat -> Q) (w : World) :
  reachable rng w \/ final rng w ->
  length (average_queue_lengths (store w)) = length (queue_record_times (store w)) /\
  StronglySorted Qle (queue_record_times (store w)) /\
  Forall (fun t => (0 <= t < SIMULATION_TIME)%Q) (queue_record_times (store w)) /\
  Forall (fun a => (0 <= a)%Q) (average_queue_lengths (store w)).
Proof.
  assert (H : forall w, reachable rng w ->
    length (average_queue_lengths (store w)) = length (queue_record_times (store w)) /\
    StronglySorted Qle (queue_record_times (store w)) /\
    Forall (fun t => (0 <= t < SIMULATION_TIME)%Q) (queue_record_times (store w)) /\
    Forall (fun a => (0 <= a)%Q) (average_queue_lengths (store w))).
  { intros w0 Hr. destruct (reachable_stats_ok Hr) as [H1 H2 H3 H4 H5].
    assert (Hn := inv_now (reachable_inv Hr)).
    repeat split; auto. eapply Forall_impl; [|exact H3]. cbn. intros t Ht. lra. }
  intros [Hr | (w0 & Hr & Hstop)]; [now apply H|].
  destruct (@step_stop rng w0 w Hstop) as (-> & _ & _). now apply H.
Qed.

Lemma queue_statistics_are_aligned_witness :
  length (average_queue_lengths (store (advance rng_crowded 56 initial))) =
    length (queue_record_times (store (advance rng_crowded 56 initial))) /\
  StronglySorted Qle (queue_record_times (store (advance rng_crowded 56 initial))) /\
  Forall (fun t => (0 <= t < SIMULATION_TIME)%Q)
         (queue_record_times (store (advance rng_crowded 56 initial))) /\
  Forall (fun a => (0 <= a)%Q) (average_queue_lengths (store (advance rng_crowded 56 initial))).
Proof.
  apply (@queue_statistics_are_aligned rng_crowded (advance rng_crowded 56 initial)).
  left. apply advance_reachable, reachable_initial.
Defined.

(** X3: lane 2 never closes.  Once [active_lanes] is at least 2 in a state
    of a run, it is at least 2 in every later state: [manage_checkouts] can
    take the lane count from 3 back to 2, never back to 1. *)
Theorem lane_2_never_closes (rng : nat -> Q) (n : nat) (w : World) :
  reachable rng w -> 2 <= active_lanes (store w) ->
  2 <= active_lanes (store (advance rng n w)).
Proof.
  revert w. induction n as [|n IH]; intros w Hr H2; cbn [advance]; [assumption|].
  destruct (step rng w) as [w'| | |] eqn:Hs; try assumption.
  apply IH; [eapply reachable_step; eassumption|].
  destruct (heappop (queue (env w))) as [[m rest]|] eqn:Hpop;
    [|unfold step in Hs; rewrite Hpop in Hs; discriminate].
  assert (Hst := step_stepped rng (reachable_inv Hr) Hpop). rewrite Hs in Hst.
  apply (recorded_keeps_lane_2 (stepped_recorded Hst)). exact H2.
Qed.

Lemma lane_2_never_closes_witness :
  2 <= active_lanes (store (advance rng_crowded 11 (advance rng_crowded 46 initial))).
Proof.
  apply (@lane_2_never_closes rng_crowded 11 (advance rng_crowded 46 initial)).
  - apply advance_reachable, reachable_initial.
  - vm_compute. lia.
Defined.

(** X4: the lane count against the openings printed.  In every state of a
    run, and when the run has ended, [active_lanes] is at least 2 exactly
    when "Lane 2 opens" was printed, and it is 3 only if "Lane 3 opens" was
    printed. *)
Theorem active_lanes_were_announced (rng : nat -> Q) (w : World) :
  reachable rng w \/ final rng w ->
  (2 <= active_lanes (store w) <-> lane_opened 2 (stdout w) = true) /\
  (active_lanes (store w) = 3 -> lane_opened 3 (stdout w) = true).
Proof.
  assert (H : forall w, reachable rng w ->
    (2 <= active_lanes (store w) <-> lane_opened 2 (stdout w) = true) /\
    (active_lanes (store w) = 3 -> lane_opened 3 (stdout w) = true)).
  { intros w0 Hr. destruct (reachable_opens_ok Hr) as [H2 H3]. split; [|assumption].
    rewrite <- H2. split; [apply Nat.leb_le | apply Nat.leb_le]. }
  intros [Hr | (w0 & Hr & Hstop)]; [now apply H|].
  destruct (@step_stop rng w0 w Hstop) as (-> & -> & _). now apply H.
Qed.

Lemma active_lanes_were_announced_witness :
  (2 <= active_lanes (store (advance rng_crowded 56 initial)) <->
   lane_opened 2 (stdout (advance rng_crowded 56 initial)) = true) /\
  (active_lanes (store (advance rng_crowded 56 initial)) = 3 ->
   lane_opened 3 (stdout (advance rng_crowded 56 initial)) = true).
Proof.
  apply (@active_lanes_were_announced rng_crowded (advance rng_crowded 56 initial)).
  left. apply advance_reachable, reachable_initial.
Defined.

(** X5: a lane that was never opened holds nobody.  In every state of a
    run, and when the run has ended, if "Lane 2 opens" (respectively "Lane 3
    opens") was not printed, then lane 2 (respectively lane 3) is not active,
    nobody is being served in it and nobody waits in it. *)
Theorem unopened_lanes_are_empty (rng : nat -> Q) (w : World) (j : nat) (lane : Resource) :
  reachable rng w \/ final rng w ->
  1 <= j -> nth_error (checkout_lanes (store w)) j = Some lane ->
  lane_opened (j + 1) (stdout w) = false ->
  active_lanes (store w) <= j /\ users lane = [] /\ put_queue lane = [].
Proof.
  assert (H : forall w, reachable rng w ->
    1 <= j -> nth_error (checkout_lanes (store w)) j = Some lane ->
    lane_opened (j + 1) (stdout w) = false ->
    active_lanes (store w) <= j /\ users lane = [] /\ put_queue lane = []).
  { intros w0 Hr Hj Hnth Hout.
    assert (Hlen := shape_length (inv_shape (reachable_inv Hr))).
    assert (Hlt : j < length (checkout_lanes (store w0))).
    { apply nth_error_Some. congruence. }
    rewrite Hlen in Hlt. unfold NUM_CHECKOUT_LANES in Hlt.
    destruct (@reachable_closed_ok rng w0 Hr j) as (Hal & lane' & Hnth' & He);
      [lia | assumption |].
    rewrite Hnth in Hnth'. inversion Hnth'; subst. split; [assumption | exact He]. }
  intros [Hr | (w0 & Hr & Hstop)]; [now apply H|].
  destruct (@step_stop rng w0 w Hstop) as (-> & -> & _). now apply H.
Qed.

Lemma unopened_lanes_are_empty_witness :
  active_lanes (store (advance rng_crowded 40 initial)) <= 2 /\
  users (lane_at 2 (advance rng_crowded 40 initial)) = [] /\
  put_queue (lane_at 2 (advance rng_crowded 40 initial)) = [].
Proof.
  apply (@unopened_lanes_are_empty rng_crowded (advance rng_crowded 40 initial) 2
           (lane_at 2 (advance rng_crowded 40 initial))).
  - left. apply advance_reachable, reachable_initial.
  - lia.
  - vm_compute. reflexivity.
  - vm_compute. reflexivity.
Defined.

(** X6: the simulated clock.  In every state of a run [env.now] lies in
    [0, SIMULATION_TIME); a step of the event loop never moves it backward;
    and when [env.run(until=SIMULATION_TIME)] returns it is exactly
    [SIMULATION_TIME]. *)
Theorem clock_never_moves_backward (rng : nat -> Q) (w : World) :
  reachable rng w ->
  (0 <= now (env w) < SIMULATION_TIME)%Q /\
  (forall w', step rng w = Continue w' -> (now (env w) <= now (env w'))%Q) /\
  (forall w', step rng w = StopSimulation w' -> (now (env w') == SIMULATION_TIME)%Q).
Proof.
  intros Hr. assert (H := reachable_inv Hr).
  split; [split; [apply (stats_now (reachable_stats_ok Hr)) | apply H]|].
  split; intros w' Hstep;
    (destruct (heappop (queue (env w))) as [[m rest]|] eqn:Hpop;
      [|unfold step in Hstep; rewrite Hpop in Hstep; discriminate]).
  - rewrite (@step_now rng w w' m rest H Hpop Hstep).
    assert (Hq := inv_queue H). rewrite Forall_forall in Hq.
    assert (Hin : In m (queue (env w))) by (eapply heappop_in; [exact Hpop | now left]).
    apply (ok_time (Hq m Hin)).
  - assert (Hs := step_stepped rng H Hpop). rewrite Hstep in Hs.
    inversion Hs as [Hu | | | | | | | | | | ]; subst.
    assert (Hq := inv_queue H). rewrite Forall_forall in Hq.
    assert (Hin : In m (queue (env w))) by (eapply heappop_in; [exact Hpop | now left]).
    apply (ok_until (Hq m Hin) Hu).
Qed.

Lemma clock_never_moves_backward_witness :
  (0 <= now (env (advance rng_late 5 initial)) < SIMULATION_TIME)%Q /\
  (forall w', step rng_late (advance rng_late 5 initial) = Continue w' ->
     (now (env (advance rng_late 5 initial)) <= now (env w'))%Q) /\
  (forall w', step rng_late (advance rng_late 5 initial) = StopSimulation w' ->
     (now (env w') == SIMULATION_TIME)%Q).
Proof.
  apply (@clock_never_moves_backward rng_late (advance rng_late 5 initial)).
  apply advance_reachable, reachable_initial.
Defined.

(** ** Predicates on the pending events *)

Section QueueAll.
Variable P : Entry -> Prop.

Lemma queue_all_frame (w w' : World) :
  queue (env w') = queue (env w) -> queue_all P w -> queue_all P w'.
Proof. unfold queue_all. now intros ->. Qed.

Lemma queue_all_scheduled (ev : Event) (priority : nat) (delay : Q) (w0 w : World) :
  queue (env w) = queue (env w0) ->
  P (mkEntry (now (env w) + delay) priority (eid (env w)) ev) ->
  queue_all P w0 -> queue_all P (scheduled ev priority delay w).
Proof.
  unfold queue_all. intros E Hev H.
  change (queue (env (scheduled ev priority delay w)))
    with (mkEntry (now (env w) + delay) priority (eid (env w)) ev :: queue (env w)).
  rewrite E. now constructor.
Qed.

Lemma queue_all_popped (w : World) (m : Entry) (rest : list Entry) :
  heappop (queue (env w)) = Some (m, rest) -> queue_all P w ->
  P m /\ queue_all P (popped m rest w).
Proof.
  unfold queue_all. intros Hpop H.
  apply (Permutation_Forall (proj1 (heappop_spec _ Hpop))) in H.
  inversion H; subst. now split.
Qed.

Hypothesis P_request : forall x r, e_event x = RequestEv r -> P x.
Hypothesis P_release : forall x lane, e_event x = ReleaseEv lane -> P x.

Lemma queue_all_triggered (i : nat) (res : Resource) (w : World) :
  queue_all P w -> queue_all P (triggered i res w).
Proof.
  intros H. unfold triggered. destruct (_trigger_put res) as [res' [g|]]; [|assumption].
  apply queue_all_scheduled with (w0 := w); auto. now apply P_request with (r := g).
Qed.

Lemma queue_all_arrived (customer_id i : nat) (lane0 lane1 lane : Resource) (w : World) :
  queue_all P w -> queue_all P (arrived customer_id i lane0 lane1 lane w).
Proof.
  intros H. unfold arrived, requested. apply queue_all_triggered.
  apply queue_all_frame with (w := w); [|assumption].
  change (env (put_lane ?i ?r ?x)) with (env x).
  change (env (printed ?l ?x)) with (env x).
  unfold observed. change (env (with_store ?f ?x)) with (env x).
  now rewrite managed_env.
Qed.

Lemma queue_all_released (r : Request) (w : World) :
  queue_all P w -> queue_all P (released r w).
Proof.
  intros H. unfold released. apply queue_all_scheduled with (w0 := w); auto.
  - now destruct (nth_error _ _).
  - now apply P_release with (lane := rq_lane r).
Qed.

Lemma queue_all_departed (value : option exn) (g : Generator) (w : World) :
  (forall x, e_event x = ProcessEv value [] -> P x) ->
  queue_all P w -> queue_all P (departed value g w).
Proof.
  intros Hv H. unfold departed. destruct g as [|[| |r]|]; try assumption.
  apply queue_all_scheduled with (w0 := released r w); auto.
  now apply queue_all_released.
Qed.

Lemma queue_all_fold_departed (value : option exn) (callbacks : list Generator) :
  (forall x, e_event x = ProcessEv value [] -> P x) ->
  forall w, queue_all P w ->
            queue_all P (fold_left (fun w g => departed value g w) callbacks w).
Proof.
  intros Hv. induction callbacks as [|g cbs IH]; intros w H; cbn [fold_left]; [assumption|].
  apply IH. now apply queue_all_departed.
Qed.

End QueueAll.

(** ** Events scheduled without a delay *)

Section QueueNow.
Variable P : Entry -> Prop.
Variable t : Q.
Hypothesis P_now : forall priority n ev, P (mkEntry (t + 0) priority n ev).

Lemma now_scheduled (ev : Event) (priority : nat) (w : World) :
  now (env w) = t -> queue_all P w -> queue_all P (scheduled ev priority 0 w).
Proof.
  intros E H. apply queue_all_scheduled with (w0 := w); auto. rewrite E. apply P_now.
Qed.

Lemma now_triggered (i : nat) (res : Resource) (w : World) :
  now (env w) = t -> queue_all P w -> queue_all P (triggered i res w).
Proof.
  intros E H. unfold triggered. destruct (_trigger_put res) as [res' [g|]]; [|assumption].
  apply now_scheduled; [exact E|]. now apply queue_all_frame with (w := w).
Qed.

Lemma now_arrived (customer_id i : nat) (lane0 lane1 lane : Resource) (w : World) :
  now (env w) = t -> queue_all P w ->
  queue_all P (arrived customer_id i lane0 lane1 lane w).
Proof.
  intros E H. unfold arrived, requested.
  assert (He : forall res l,
             env (put_lane i res (printed l (observed customer_id lane0 lane1 w))) = env w).
  { intros res l. change (env (put_lane ?i ?r ?x)) with (env x).
    change (env (printed ?l ?x)) with (env x).
    unfold observed. change (env (with_store ?f ?x)) with (env x).
    now rewrite managed_env. }
  apply now_triggered.
  - cbn [rq_lane]. now rewrite He.
  - apply queue_all_frame with (w := w); [|assumption]. cbn [rq_lane]. now rewrite He.
Qed.

Lemma now_released (r : Request) (w : World) :
  now (env w) = t -> queue_all P w -> queue_all P (released r w).
Proof.
  intros E H. unfold released. apply now_scheduled.
  - now destruct (nth_error _ _).
  - apply queue_all_frame with (w := w); [|assumption]. now destruct (nth_error _ _).
Qed.

Lemma now_departed (value : option exn) (g : Generator) (w : World) :
  now (env w) = t -> queue_all P w -> queue_all P (departed value g w).
Proof.
  intros E H. unfold departed. destruct g as [|[| |r]|]; try assumption.
  apply now_scheduled; [|now apply now_released].
  now rewrite (same_now (same_records_released r w)).
Qed.

Lemma now_fold_departed (value : option exn) (callbacks : list Generator) :
  forall w, now (env w) = t -> queue_all P w ->
            queue_all P (fold_left (fun w g => departed value g w) callbacks w).
Proof.
  induction callbacks as [|g cbs IH]; intros w E H; cbn [fold_left]; [assumption|].
  apply IH; [|now apply now_departed].
  now rewrite (same_now (same_records_departed value g w)).
Qed.

End QueueNow.

Lemma queue_all_impl (P P' : Entry -> Prop) (w : World) :
  (forall x, P x -> P' x) -> queue_all P w -> queue_all P' w.
Proof. intros Himp. unfold queue_all. now apply Forall_impl. Qed.

Ltac on_event_trivial :=
  try (let x := fresh "x" in let E := fresh "E" in
       intros x ? E; unfold on_event; rewrite E; exact I);
  try (let x := fresh "x" in let E := fresh "E" in
       intros x E; unfold on_event; rewrite E; exact I);
  try exact I.

(** ** The exceptions a run can raise *)

Lemma negative_drawn_mono (rng : nat -> Q) (n n' : nat) :
  n <= n' -> negative_drawn rng n -> negative_drawn rng n'.
Proof. intros Hle (k & Hk & Hneg). exists k. split; [lia | assumption]. Qed.

Lemma failure_explained_mono (rng : nat -> Q) (n n' : nat) (ev : Event) :
  n <= n' -> failure_explained rng n ev -> failure_explained rng n' ev.
Proof.
  intros Hle. destruct ev as [| | | | |[e|] cbs]; cbn; auto. now apply negative_drawn_mono.
Qed.

Section Failures.
Variable rng : nat -> Q.

Lemma failures_older (n n' : nat) (w : World) :
  n <= n' -> queue_all (on_event (failure_explained rng n)) w ->
  queue_all (on_event (failure_explained rng n')) w.
Proof.
  intros Hle. apply queue_all_impl. intros x. now apply failure_explained_mono.
Qed.

Lemma failures_looped (customer_id : nat) (callbacks : list Generator) (w : World) :
  queue_all (on_event (failure_explained rng (draws w))) w ->
  queue_all (on_event (failure_explained rng (draws (looped rng customer_id callbacks w))))
            (looped rng customer_id callbacks w).
Proof.
  intros H. unfold looped.
  destruct (Qltb (now (env w)) SIMULATION_TIME);
    [destruct (Qltb (rng (draws w)) 0) eqn:Hneg|];
    apply queue_all_scheduled with (w0 := w); auto; on_event_trivial;
    try (apply failures_older with (n := draws w); [cbn; lia | assumption]).
  exists (draws w). split; [cbn; lia | now apply Qltb_lt].
Qed.

Lemma failures_started (customer_id lane_number : nat) (callbacks : list Generator)
    (w : World) :
  queue_all (on_event (failure_explained rng (draws w))) w ->
  queue_all (on_event (failure_explained rng
               (draws (started rng customer_id lane_number callbacks w))))
            (started rng customer_id lane_number callbacks w).
Proof.
  intros H. unfold started.
  destruct (Qltb (rng (draws w)) 0) eqn:Hneg;
    apply queue_all_scheduled with (w0 := w); auto; on_event_trivial;
    try (apply failures_older with (n := draws w); [cbn; lia | assumption]).
  exists (draws w). split; [cbn; lia | now apply Qltb_lt].
Qed.

Lemma reachable_failures_explained (w : World) :
  reachable rng w -> queue_all (on_event (failure_explained rng (draws w))) w.
Proof.
  revert w. apply reachable_stepped_ind.
  - repeat constructor.
  - intros w m rest w' Hr IH Hpop Hstep.
    destruct (queue_all_popped Hpop IH) as [Hm Hp]. unfold on_event in Hm.
    inversion Hstep as [ | cbs Hev | c cbs Hev | c cbs l0 l1 i l Hev H0 H1 Hi Hrt | r Hev Har
                       | c l cbs Hev Hcb | c l st cbs Hev Hst Hcb | l Hev | cbs Hev Hcb
                       | g cbs Hev Hcb | ]; subst w'.
    + now apply failures_looped.
    + apply failures_looped.
      apply queue_all_scheduled with (w0 := popped m rest w); auto; on_event_trivial.
    + rewrite draws_arrived. apply queue_all_arrived; auto; on_event_trivial.
    + apply queue_all_scheduled with (w0 := popped m rest w); auto; on_event_trivial.
    + now apply failures_started.
    + apply queue_all_scheduled with (w0 := popped m rest w); auto; on_event_trivial.
    + destruct (nth_error (checkout_lanes (store w)) l) as [res|]; [|assumption].
      rewrite draws_triggered. apply queue_all_triggered; auto; on_event_trivial.
    + rewrite draws_fold_departed.
      apply queue_all_fold_departed; auto; on_event_trivial.
    + rewrite Hev in Hm. rewrite draws_fold_departed, draws_departed.
      assert (Hv : forall x, e_event x = ProcessEv (Some ValueError) [] ->
                             on_event (failure_explained rng (draws w)) x).
      { intros x E. unfold on_event. rewrite E. exact Hm. }
      apply queue_all_fold_departed; on_event_trivial; [exact Hv|].
      apply queue_all_departed; on_event_trivial; assumption.
Qed.

Lemma run_aborted (n : nat) : forall w e w',
  reachable rng w -> run rng n w = Aborted e w' ->
  exists w0, reachable rng w0 /\ step rng w0 = Raised e w'.
Proof.
  induction n as [|n IH]; intros w e w' Hr Hrun; cbn [run] in Hrun; [discriminate|].
  destruct (step rng w) as [w1|w1|e1 w1|] eqn:Hs; try discriminate.
  - apply (IH w1); [eapply reachable_step; eassumption | assumption].
  - inversion Hrun; subst. now exists w.
  - exfalso. unfold step in Hs.
    destruct (heappop (queue (env w))) as [[m rest]|] eqn:Hpop.
    + cbv zeta in Hs. destruct (e_event m) as [| | | | |[e0|] [|g cbs]]; discriminate.
    + apply heappop_none in Hpop.
      destruct (inv_until (reachable_inv Hr)) as (u & Hu & _). rewrite Hpop in Hu. exact Hu.
Qed.

End Failures.

(** X7: the only exception a run raises.  If [env.run] raises, the
    exception is the [ValueError] of [env.timeout], and a negative sample was
    drawn before: no index is out of range, no division is by zero and
    the event queue never runs empty. *)
Theorem run_raises_only_on_a_negative_sample (rng : nat -> Q) (n : nat) (e : exn)
    (w : World) :
  run rng n initial = Aborted e w ->
  e = ValueError /\ exists k, k < draws w /\ (rng k < 0)%Q.
Proof.
  intros Hrun.
  destruct (run_aborted n (reachable_initial rng) Hrun) as (w0 & Hr & Hstep).
  destruct (heappop (queue (env w0))) as [[m rest]|] eqn:Hpop;
    [|unfold step in Hstep; rewrite Hpop in Hstep; discriminate].
  assert (Hs := step_stepped rng (reachable_inv Hr) Hpop). rewrite Hstep in Hs.
  inversion Hs as [ | | | | | | | | | | Hev]; subst. split; [reflexivity|].
  destruct (queue_all_popped Hpop (reachable_failures_explained Hr)) as [Hm _].
  unfold on_event in Hm. rewrite Hev in Hm. exact Hm.
Qed.

Lemma run_raises_only_on_a_negative_sample_witness :
  ValueError = ValueError /\
  exists k, k < draws (finished rng_negative 8) /\ (rng_negative k < 0)%Q.
Proof.
  apply (@run_raises_only_on_a_negative_sample rng_negative 8 ValueError
           (finished rng_negative 8)).
  vm_compute. reflexivity.
Defined.

(** ** The service times are samples *)

Lemma sample_mono (rng : nat -> Q) (n n' : nat) (x : Q) :
  n <= n' -> sample rng n x -> sample rng n' x.
Proof. intros Hle (k & Hk & E). exists k. split; [lia | assumption]. Qed.

Lemma service_sampled_mono (rng : nat -> Q) (n n' : nat) (ev : Event) :
  n <= n' -> service_sampled rng n ev -> service_sampled rng n' ev.
Proof.
  intros Hle. destruct ev as [| |[|[| |]|[|c l st]] cbs| | |]; cbn; auto.
  now apply sample_mono.
Qed.

Lemma arrived_service_times (customer_id i : nat) (lane0 lane1 lane : Resource) (w : World) :
  service_times (store (arrived customer_id i lane0 lane1 lane w)) = service_times (store w).
Proof. apply arrived_records. Qed.

Section Samples.
Variable rng : nat -> Q.

Lemma samples_ok_scheduled (ev : Event) (priority : nat) (delay : Q) (w : World) :
  service_sampled rng (draws w) ev -> samples_ok rng w ->
  samples_ok rng (scheduled ev priority delay w).
Proof.
  intros Hev [Hq Hs]. split; [|exact Hs].
  apply queue_all_scheduled with (w0 := w); auto.
Qed.

Lemma samples_ok_drawn (w : World) : samples_ok rng w -> samples_ok rng (drawn w).
Proof.
  intros [Hq Hs]. split.
  - eapply queue_all_impl; [|exact Hq]. intros x. apply service_sampled_mono. cbn. lia.
  - eapply Forall_impl; [|exact Hs]. intros x. apply sample_mono. cbn. lia.
Qed.

Lemma samples_ok_looped (customer_id : nat) (callbacks : list Generator) (w : World) :
  samples_ok rng w -> samples_ok rng (looped rng customer_id callbacks w).
Proof.
  intros H. unfold looped.
  destruct (Qltb _ _); [destruct (Qltb _ _)|]; apply samples_ok_scheduled; try exact I;
    try apply samples_ok_drawn; assumption.
Qed.

Lemma samples_ok_started (customer_id lane_number : nat) (callbacks : list Generator)
    (w : World) :
  samples_ok rng w -> samples_ok rng (started rng customer_id lane_number callbacks w).
Proof.
  intros H. unfold started.
  destruct (Qltb _ _); apply samples_ok_scheduled; try exact I;
    try apply samples_ok_drawn; try assumption.
  exists (draws w). split; [cbn; lia | reflexivity].
Qed.

Lemma samples_ok_same (w w' : World) :
  service_times (store w') = service_times (store w) -> draws w' = draws w ->
  queue_all (on_event (service_sampled rng (draws w))) w' ->
  samples_ok rng w -> samples_ok rng w'.
Proof.
  intros E Ed Hq [_ Hs]. split; rewrite Ed; [assumption|]. now rewrite E.
Qed.

Lemma reachable_samples_ok (w : World) : reachable rng w -> samples_ok rng w.
Proof.
  revert w. apply reachable_stepped_ind.
  - split; repeat constructor.
  - intros w m rest w' Hr IH Hpop Hstep.
    destruct (queue_all_popped Hpop (proj1 IH)) as [Hm Hq]. unfold on_event in Hm.
    assert (Hp : samples_ok rng (popped m rest w)) by (split; [exact Hq | exact (proj2 IH)]).
    inversion Hstep as [ | cbs Hev | c cbs Hev | c cbs l0 l1 i l Hev H0 H1 Hi Hrt | r Hev Har
                       | c l cbs Hev Hcb | c l st cbs Hev Hst Hcb | l Hev | cbs Hev Hcb
                       | g cbs Hev Hcb | ]; subst w'.
    + now apply samples_ok_looped.
    + apply samples_ok_looped. apply samples_ok_scheduled; [exact I | assumption].
    + apply samples_ok_same with (w := popped m rest w); auto.
      * apply arrived_service_times.
      * apply draws_arrived.
      * apply queue_all_arrived; auto; on_event_trivial.
    + apply samples_ok_scheduled; [exact I|]. exact Hp.
    + now apply samples_ok_started.
    + apply samples_ok_scheduled; [exact I|].
      destruct Hp as [Hq' Hs]. split; [exact Hq'|].
      change (service_times (store (with_store (append_service_time st) ?x)))
        with (service_times (store x) ++ [st]).
      apply Forall_app. split; [exact Hs|]. constructor; [|constructor].
      rewrite Hev in Hm. exact Hm.
    + destruct (nth_error (checkout_lanes (store w)) l) as [res|]; [|assumption].
      apply samples_ok_same with (w := popped m rest w); auto.
      * apply (same_service (same_records_triggered _ _ _)).
      * apply draws_triggered.
      * apply queue_all_triggered; auto; on_event_trivial.
    + apply samples_ok_same with (w := popped m rest w); auto.
      * apply (same_service (same_records_fold_departed _ _ _)).
      * apply draws_fold_departed.
      * apply queue_all_fold_departed; auto; on_event_trivial.
    + apply samples_ok_same with (w := popped m rest w); auto.
      * apply (same_service (same_records_fold_departed (Some ValueError) (g :: cbs) _)).
      * apply (draws_fold_departed (Some ValueError) (g :: cbs)).
      * apply queue_all_fold_departed; on_event_trivial.
        apply queue_all_departed; on_event_trivial. assumption.
Qed.

End Samples.

(** X8: every service time recorded is a sample.  In every state of a
    run, and when the run has ended, each value of [service_times] is one of
    the values [random.expovariate] has returned so far: line 28 records
    the sample of line 25 unchanged. *)
Theorem service_times_are_samples (rng : nat -> Q) (w : World) :
  reachable rng w \/ final rng w ->
  Forall (fun service_time => exists k, k < draws w /\ service_time = rng k)
         (service_times (store w)).
Proof.
  intros [Hr | (w0 & Hr & Hstop)].
  - exact (proj2 (reachable_samples_ok Hr)).
  - destruct (@step_stop rng w0 w Hstop) as (-> & _ & ->).
    exact (proj2 (reachable_samples_ok Hr)).
Qed.

Lemma service_times_are_samples_witness :
  Forall (fun service_time =>
            exists k, k < draws (advance rng_crowded 56 initial) /\ service_time = rng_crowded k)
         (service_times (store (advance rng_crowded 56 initial))).
Proof.
  apply (@service_times_are_samples rng_crowded (advance rng_crowded 56 initial)).
  left. apply advance_reachable, reachable_initial.
Defined.

(** ** Counting the pending events and the customers who wait *)

Lemma waiting_list_set (lanes : list Resource) (i : nat) (old new : Resource) :
  nth_error lanes i = Some old ->
  waiting (list_set lanes i new) + length (put_queue old) =
  waiting lanes + length (put_queue new).
Proof.
  revert i. induction lanes as [|lane lanes IH]; intros [|i] H; try discriminate.
  - inversion H; subst. unfold waiting. cbn. lia.
  - change (nth_error (lane :: lanes) (S i)) with (nth_error lanes i) in H.
    specialize (IH i H). unfold waiting, list_sum in *. cbn. lia.
Qed.

Section Measure.
Variable cost : Q -> Event -> nat.
Variable q : nat.

Lemma mu_frame (w w' : World) :
  queue (env w') = queue (env w) ->
  checkout_lanes (store w') = checkout_lanes (store w) ->
  mu cost q w' = mu cost q w.
Proof. unfold mu. now intros -> ->. Qed.

Lemma mu_popped (w : World) (m : Entry) (rest : list Entry) :
  heappop (queue (env w)) = Some (m, rest) ->
  mu cost q w = cost (e_time m) (e_event m) + mu cost q (popped m rest w).
Proof.
  intros Hpop. unfold mu.
  change (queue (env (popped m rest w))) with rest.
  change (checkout_lanes (store (popped m rest w))) with (checkout_lanes (store w)).
  rewrite (Permutation_list_sum
             (Permutation_map (fun x => cost (e_time x) (e_event x))
                              (proj1 (heappop_spec _ Hpop)))).
  cbn [map]. change (list_sum (?a :: ?l)) with (a + list_sum l). lia.
Qed.

Lemma mu_scheduled (ev : Event) (priority : nat) (delay : Q) (w : World) :
  mu cost q (scheduled ev priority delay w) = cost (now (env w) + delay)%Q ev + mu cost q w.
Proof.
  unfold mu.
  change (queue (env (scheduled ev priority delay w)))
    with (mkEntry (now (env w) + delay) priority (eid (env w)) ev :: queue (env w)).
  change (checkout_lanes (store (scheduled ev priority delay w)))
    with (checkout_lanes (store w)).
  cbn [map]. change (list_sum (?a :: ?l)) with (a + list_sum l).
  cbn [e_time e_event]. lia.
Qed.

Lemma mu_put_lane (i : nat) (old new : Resource) (w : World) :
  nth_error (checkout_lanes (store w)) i = Some old ->
  mu cost q (put_lane i new w) + q * length (put_queue old) =
  mu cost q w + q * length (put_queue new).
Proof.
  intros H. unfold mu.
  change (queue (env (put_lane i new w))) with (queue (env w)).
  change (checkout_lanes (store (put_lane i new w)))
    with (list_set (checkout_lanes (store w)) i new).
  assert (E := @waiting_list_set (checkout_lanes (store w)) i old new H). nia.
Qed.

Lemma mu_triggered (i : nat) (res : Resource) (w : World) :
  nth_error (checkout_lanes (store w)) i = Some res ->
  mu cost q (triggered i res w) = mu cost q w \/
  exists g, mu cost q (triggered i res w) + q =
            mu cost q w + cost (now (env w) + 0)%Q (RequestEv g).
Proof.
  intros H. unfold triggered.
  destruct (_trigger_put_cases res) as [-> | (g & rest & Hq & Hu & ->)]; [now left|].
  right. exists g. rewrite mu_scheduled.
  assert (E := @mu_put_lane i res (mkResource [g] rest) w H). rewrite Hq in E.
  cbn [put_queue length] in E.
  change (now (env (put_lane i (mkResource [g] rest) w))) with (now (env w)).
  lia.
Qed.

Lemma mu_requested (r : Request) (res : Resource) (w : World) :
  nth_error (checkout_lanes (store w)) (rq_lane r) = Some res ->
  mu cost q (requested r res w) = mu cost q w + q \/
  exists g, mu cost q (requested r res w) =
            mu cost q w + cost (now (env w) + 0)%Q (RequestEv g).
Proof.
  intros H. unfold requested.
  set (res1 := mkResource (users res) (put_queue res ++ [r])).
  assert (E := @mu_put_lane (rq_lane r) res res1 w H).
  unfold res1 in E at 2. cbn [put_queue] in E. rewrite length_app in E. cbn [length] in E.
  assert (H1 : nth_error (checkout_lanes (store (put_lane (rq_lane r) res1 w))) (rq_lane r) =
               Some res1).
  { change (checkout_lanes (store (put_lane (rq_lane r) res1 w)))
      with (list_set (checkout_lanes (store w)) (rq_lane r) res1).
    apply nth_error_list_set_eq. apply nth_error_Some. congruence. }
  destruct (@mu_triggered (rq_lane r) res1 (put_lane (rq_lane r) res1 w) H1) as [-> | (g & Eg)].
  - left. lia.
  - right. exists g.
    change (now (env (put_lane (rq_lane r) res1 w))) with (now (env w)) in Eg. lia.
Qed.

Lemma mu_released (r : Request) (w : World) :
  mu cost q (released r w) =
  mu cost q w + cost (now (env w) + 0)%Q (ReleaseEv (rq_lane r)).
Proof.
  unfold released. rewrite mu_scheduled.
  destruct (nth_error (checkout_lanes (store w)) (rq_lane r)) as [res|] eqn:E; [|lia].
  assert (E' := @mu_put_lane (rq_lane r) res (mkResource (users_remove r (users res)) (put_queue res)) w E).
  cbn [put_queue] in E'.
  change (now (env (put_lane ?i ?x w))) with (now (env w)). lia.
Qed.

Lemma mu_departed (value : option exn) (r : Request) (w : World) :
  mu cost q (departed value (GCustomer (customer_line66 r)) w) =
  mu cost q w + cost (now (env w) + 0)%Q (ReleaseEv (rq_lane r))
  + cost (now (env w) + 0)%Q (ProcessEv value []).
Proof.
  unfold departed. rewrite mu_scheduled, mu_released.
  rewrite (same_now (same_records_released r w)). lia.
Qed.

End Measure.

Lemma mu_arrived (cost : Q -> Event -> nat) (q customer_id i : nat)
    (lane0 lane1 lane : Resource) (w : World) :
  nth_error (checkout_lanes (store w)) i = Some lane ->
  mu cost q (arrived customer_id i lane0 lane1 lane w) = mu cost q w + q \/
  exists g, mu cost q (arrived customer_id i lane0 lane1 lane w) =
            mu cost q w + cost (now (env w) + 0)%Q (RequestEv g).
Proof.
  intros H. unfold arrived.
  set (w3 := printed _ (observed customer_id lane0 lane1 w)).
  assert (Hl : checkout_lanes (store w3) = checkout_lanes (store w)).
  { unfold w3. change (checkout_lanes (store (printed ?l ?x))) with (checkout_lanes (store x)).
    apply observed_lanes. }
  assert (He : env w3 = env w).
  { unfold w3, observed. change (env (printed ?l ?x)) with (env x).
    change (env (with_store ?f ?x)) with (env x). now rewrite managed_env. }
  assert (Hm : mu cost q w3 = mu cost q w) by (apply mu_frame; congruence).
  destruct (@mu_requested cost q (mkRequest customer_id (now (env w)) i) lane w3)
    as [E | (g & E)]; [cbn [rq_lane]; congruence | left | right; exists g];
    rewrite E, Hm, ?He; reflexivity.
Qed.

Lemma granted_waiting_times (r : Request) (w : World) :
  waiting_times (store (granted r w)) =
  waiting_times (store w) ++ [(now (env w) - rq_arrival r)%Q].
Proof. reflexivity. Qed.

Lemma granted_record_times (r : Request) (w : World) :
  queue_record_times (store (granted r w)) = queue_record_times (store w).
Proof. reflexivity. Qed.

Lemma mu_granted (cost : Q -> Event -> nat) (q : nat) (r : Request) (w : World) :
  mu cost q (granted r w) =
  cost (now (env w) + 0)%Q
       (InitializeEv (GCheckout (checkout_start (rq_customer r) (rq_lane r)))
                     [GCustomer (customer_line66 r)])
  + mu cost q w.
Proof. unfold granted. rewrite mu_scheduled. reflexivity. Qed.

Lemma mu_served (cost : Q -> Event -> nat) (q customer_id lane_number : nat)
    (service_time : Q) (callbacks : list Generator) (w : World) :
  mu cost q (served customer_id lane_number service_time callbacks w) =
  cost (now (env w) + 0)%Q (ProcessEv None callbacks) + mu cost q w.
Proof. unfold served. rewrite mu_scheduled. reflexivity. Qed.

Lemma final_popped (rng : nat -> Q) (w : World) :
  final rng w ->
  exists w0 m rest,
    reachable rng w0 /\ heappop (queue (env w0)) = Some (m, rest) /\
    e_event m = UntilEv /\ w = popped m rest w0.
Proof.
  intros (w0 & Hr & Hstop).
  destruct (heappop (queue (env w0))) as [[m rest]|] eqn:Hpop;
    [|unfold step in Hstop; rewrite Hpop in Hstop; discriminate].
  assert (Hs := step_stepped rng (reachable_inv Hr) Hpop). rewrite Hstop in Hs.
  inversion Hs as [Hu | | | | | | | | | | ]; subst.
  now exists w0, m, rest.
Qed.

(** ** Every customer who arrived is accounted for *)

Section Accounted.
Variable rng : nat -> Q.

Lemma grants_looped (customer_id : nat) (callbacks : list Generator) (w : World) :
  mu is_grant 1 (looped rng customer_id callbacks w) = mu is_grant 1 w.
Proof.
  unfold looped. destruct (Qltb _ _); [destruct (Qltb _ _)|]; rewrite mu_scheduled; reflexivity.
Qed.

Lemma grants_started (customer_id lane_number : nat) (callbacks : list Generator)
    (w : World) :
  mu is_grant 1 (started rng customer_id lane_number callbacks w) = mu is_grant 1 w.
Proof. unfold started. destruct (Qltb _ _); rewrite mu_scheduled; reflexivity. Qed.

Lemma grants_departed (value : option exn) (g : Generator) (w : World) :
  mu is_grant 1 (departed value g w) = mu is_grant 1 w.
Proof.
  destruct g as [|[| |r]|]; try reflexivity. rewrite mu_departed. cbn [is_grant]. lia.
Qed.

Lemma grants_fold_departed (value : option exn) (callbacks : list Generator) :
  forall w, mu is_grant 1 (fold_left (fun w g => departed value g w) callbacks w) =
            mu is_grant 1 w.
Proof.
  induction callbacks as [|g cbs IH]; intros w; cbn [fold_left]; [reflexivity|].
  now rewrite IH, grants_departed.
Qed.

Lemma reachable_accounted (w : World) : reachable rng w -> accounted w.
Proof.
  revert w. apply reachable_stepped_ind.
  - reflexivity.
  - intros w m rest w' Hr IH Hpop Hstep. unfold accounted in *.
    rewrite (@mu_popped is_grant 1 w m rest Hpop) in IH.
    inversion Hstep as [ | cbs Hev | c cbs Hev | c cbs l0 l1 i l Hev H0 H1 Hi Hrt | r Hev Har
                       | c l cbs Hev Hcb | c l st cbs Hev Hst Hcb | l Hev | cbs Hev Hcb
                       | g cbs Hev Hcb | ]; subst w'; rewrite Hev in IH; cbn [is_grant] in IH.
    + rewrite grants_looped.
      destruct (same_records_looped rng 0 cbs (popped m rest w)) as [_ _ _ -> _ _ ->].
      exact IH.
    + rewrite grants_looped, mu_scheduled.
      destruct (same_records_looped rng (S c) cbs
                  (scheduled (InitializeEv (GCustomer (customer_start (S c))) []) URGENT 0
                             (popped m rest w))) as [_ _ _ -> _ _ ->].
      exact IH.
    + destruct (arrived_records c i l0 l1 l (popped m rest w)) as (_ & _ & _ & -> & _ & _ & ->).
      rewrite length_app. cbn [length].
      change (queue_record_times (store (popped m rest w))) with (queue_record_times (store w)).
      change (waiting_times (store (popped m rest w))) with (waiting_times (store w)).
      destruct (@mu_arrived is_grant 1 c i l0 l1 l (popped m rest w) Hi) as [-> | (g & ->)];
        cbn [is_grant]; lia.
    + rewrite mu_granted, granted_waiting_times, granted_record_times, length_app.
      cbn [length is_grant].
      change (queue_record_times (store (popped m rest w))) with (queue_record_times (store w)).
      change (waiting_times (store (popped m rest w))) with (waiting_times (store w)).
      lia.
    + rewrite grants_started.
      destruct (same_records_started rng c l cbs (popped m rest w)) as [_ _ _ -> _ _ ->].
      exact IH.
    + rewrite mu_served. cbn [is_grant]. exact IH.
    + destruct (nth_error (checkout_lanes (store w)) l) as [res|] eqn:E; [|exact IH].
      destruct (same_records_triggered l res (popped m rest w)) as [_ _ _ -> _ _ ->].
      destruct (@mu_triggered is_grant 1 l res (popped m rest w) E) as [-> | (g & Eg)];
        [exact IH|]. cbn [is_grant] in Eg.
      change (queue_record_times (store (popped m rest w))) with (queue_record_times (store w)).
      change (waiting_times (store (popped m rest w))) with (waiting_times (store w)).
      change (queue_record_times (store (popped m rest w)))
        with (queue_record_times (store w)) in IH.
      change (waiting_times (store (popped m rest w))) with (waiting_times (store w)) in IH.
      lia.
    + rewrite grants_fold_departed.
      destruct (same_records_fold_departed None cbs (popped m rest w)) as [_ _ _ -> _ _ ->].
      exact IH.
    + change (fold_left ?f cbs (departed ?v g ?x)) with (fold_left f (g :: cbs) x).
      rewrite (grants_fold_departed (Some ValueError) (g :: cbs)).
      destruct (same_records_fold_departed (Some ValueError) (g :: cbs) (popped m rest w))
        as [_ _ _ -> _ _ ->].
      exact IH.
Qed.

End Accounted.

(** X9: no customer is lost.  In every state of a run, and when the run
    has ended, the number of arrivals recorded by [update_queue_stats] is the
    number of wait times recorded, plus the customers whose lane was granted
    and who have not resumed yet, plus the customers who wait in the queue of
    a lane. *)
Theorem customers_are_accounted_for (rng : nat -> Q) (w : World) :
  reachable rng w \/ final rng w ->
  length (queue_record_times (store w)) =
  length (waiting_times (store w)) + granted_pending (queue (env w))
  + waiting (checkout_lanes (store w)).
Proof.
  assert (H : forall w, accounted w ->
    length (queue_record_times (store w)) =
    length (waiting_times (store w)) + granted_pending (queue (env w))
    + waiting (checkout_lanes (store w))).
  { intros w0 E. unfold accounted, mu in E. unfold granted_pending. lia. }
  intros [Hr | Hf]; [exact (H w (reachable_accounted Hr))|].
  destruct (final_popped Hf) as (w0 & m & rest & Hr & Hpop & Hu & ->).
  apply H. assert (E := reachable_accounted Hr). unfold accounted in *.
  rewrite (@mu_popped is_grant 1 w0 m rest Hpop), Hu in E. exact E.
Qed.

Lemma customers_are_accounted_for_witness :
  length (queue_record_times (store (advance rng_crowded 56 initial))) =
  length (waiting_times (store (advance rng_crowded 56 initial)))
  + granted_pending (queue (env (advance rng_crowded 56 initial)))
  + waiting (checkout_lanes (store (advance rng_crowded 56 initial))).
Proof.
  apply (@customers_are_accounted_for rng_crowded (advance rng_crowded 56 initial)).
  left. apply advance_reachable, reachable_initial.
Defined.

(** ** A bound on the length of a run *)

Section ArrivalsLeft.
Variable eps : Q.
Hypothesis eps_pos : (0 < eps)%Q.

Lemma arrivals_left_positive (t : Q) :
  (t < SIMULATION_TIME)%Q -> 1 <= arrivals_left eps t.
Proof.
  intros Ht. unfold arrivals_left.
  assert (Hx : (0 < (SIMULATION_TIME - t) / eps)%Q).
  { apply Qlt_shift_div_l; [assumption | lra]. }
  assert (Hc := Qle_ceiling ((SIMULATION_TIME - t) / eps)).
  assert (Hz : (0 < Qceiling ((SIMULATION_TIME - t) / eps))%Z).
  { rewrite Zlt_Qlt. change (inject_Z 0) with 0%Q. lra. }
  lia.
Qed.

Lemma arrivals_left_step (t d : Q) :
  (eps <= d)%Q -> (t < SIMULATION_TIME)%Q ->
  S (arrivals_left eps (t + d)) <= arrivals_left eps t.
Proof.
  intros Hd Ht. assert (Hp := arrivals_left_positive Ht). unfold arrivals_left in *.
  set (X := ((SIMULATION_TIME - t) / eps)%Q) in *.
  assert (HY : ((SIMULATION_TIME - (t + d)) / eps <= X - 1)%Q).
  { apply Qle_shift_div_r; [assumption|].
    assert (EX : (X * eps == SIMULATION_TIME - t)%Q).
    { unfold X, Qdiv. rewrite <- Qmult_assoc, (Qmult_comm (/ eps)), Qmult_inv_r by lra. lra. }
    lra. }
  assert (Hc := Qle_ceiling X).
  assert (HZ : (Qceiling ((SIMULATION_TIME - (t + d)) / eps) <= Qceiling X - 1)%Z).
  { rewrite <- (Qceiling_Z (Qceiling X - 1)). apply Qceiling_resp_le.
    assert (E : (inject_Z (Qceiling X - 1) == inject_Z (Qceiling X) - 1)%Q).
    { unfold Z.sub. rewrite inject_Z_plus. reflexivity. }
    rewrite E. lra. }
  lia.
Qed.

End ArrivalsLeft.

Section Termination.
Variable rng : nat -> Q.
Variable eps : Q.
Hypothesis eps_pos : (0 < eps)%Q.
Hypothesis samples_large : forall k, (eps <= rng k)%Q.

Lemma steps_looped (customer_id : nat) (callbacks : list Generator) (w : World) :
  (now (env w) < SIMULATION_TIME)%Q ->
  mu (steps_left eps) 6 (looped rng customer_id callbacks w) + 8 <=
  mu (steps_left eps) 6 w + 8 * arrivals_left eps (now (env w)) + 2 + 2 * length callbacks.
Proof.
  intros Hnow. unfold looped.
  destruct (Qltb (now (env w)) SIMULATION_TIME) eqn:E1;
    [|apply Qltb_ge in E1; lra].
  destruct (Qltb (rng (draws w)) 0) eqn:E2.
  - apply Qltb_lt in E2. specialize (samples_large (draws w)). lra.
  - rewrite mu_scheduled. cbn [steps_left].
    rewrite (@mu_frame (steps_left eps) 6 w (drawn w)) by reflexivity.
    change (now (env (drawn w))) with (now (env w)).
    assert (H := @arrivals_left_step eps eps_pos (now (env w)) (rng (draws w))
                   (samples_large (draws w)) Hnow).
    lia.
Qed.

Lemma steps_started (customer_id lane_number : nat) (callbacks : list Generator)
    (w : World) :
  mu (steps_left eps) 6 (started rng customer_id lane_number callbacks w) <=
  mu (steps_left eps) 6 w + 2 + 2 * length callbacks.
Proof.
  unfold started. destruct (Qltb _ _); rewrite mu_scheduled; cbn [steps_left];
    rewrite (@mu_frame (steps_left eps) 6 w (drawn w)) by reflexivity; lia.
Qed.

Lemma steps_departed (value : option exn) (g : Generator) (w : World) :
  mu (steps_left eps) 6 (departed value g w) <= mu (steps_left eps) 6 w + 2.
Proof.
  destruct g as [|[| |r]|]; try (cbn [departed]; lia).
  rewrite mu_departed. cbn [steps_left length]. lia.
Qed.

Lemma steps_fold_departed (value : option exn) (callbacks : list Generator) :
  forall w, mu (steps_left eps) 6 (fold_left (fun w g => departed value g w) callbacks w) <=
            mu (steps_left eps) 6 w + 2 * length callbacks.
Proof.
  induction callbacks as [|g cbs IH]; intros w; cbn [fold_left length]; [lia|].
  specialize (IH (departed value g w)). assert (H := @steps_departed value g w). lia.
Qed.

(** Every step brings the end of the run closer. *)
Lemma steps_decrease (w w' : World) (m : Entry) (rest : list Entry) :
  Inv w -> heappop (queue (env w)) = Some (m, rest) ->
  stepped rng w m rest (Continue w') ->
  mu (steps_left eps) 6 w' < mu (steps_left eps) 6 w.
Proof.
  intros H Hpop Hstep.
  assert (Hne : e_event m <> UntilEv) by (intros Hu; inversion Hstep; congruence).
  destruct (inv_pop H Hpop Hne) as (Hk & _ & _).
  assert (Hnow := inv_now Hk).
  rewrite (@mu_popped (steps_left eps) 6 w m rest Hpop).
  assert (Et : now (env (popped m rest w)) = e_time m) by reflexivity.
  inversion Hstep as [ | cbs Hev | c cbs Hev | c cbs l0 l1 i l Hev H0 H1 Hi Hrt | r Hev Har
                     | c l cbs Hev Hcb | c l st cbs Hev Hst Hcb | l Hev | cbs Hev Hcb
                     | g cbs Hev Hcb | ]; subst w'; rewrite Hev; cbn [steps_left].
  - assert (E := @steps_looped 0 cbs (popped m rest w) Hnow). rewrite Et in E. lia.
  - assert (E := @steps_looped (S c) cbs
                   (scheduled (InitializeEv (GCustomer (customer_start (S c))) []) URGENT 0 (popped m rest w))
                   Hnow).
    rewrite mu_scheduled in E. cbn [steps_left] in E.
    change (now (env (scheduled ?e ?p ?d (popped m rest w)))) with (now (env (popped m rest w))) in E.
    rewrite Et in E. lia.
  - destruct (@mu_arrived (steps_left eps) 6 c i l0 l1 l (popped m rest w) Hi) as [-> | (g & ->)];
      cbn [steps_left]; lia.
  - rewrite mu_granted. cbn [steps_left length]. lia.
  - assert (E := @steps_started c l cbs (popped m rest w)). lia.
  - rewrite mu_served. cbn [steps_left]. lia.
  - destruct (nth_error (checkout_lanes (store w)) l) as [res|] eqn:E; [|lia].
    destruct (@mu_triggered (steps_left eps) 6 l res (popped m rest w) E) as [-> | (g & Eg)]; [lia|].
    cbn [steps_left] in Eg. lia.
  - assert (E := @steps_fold_departed None cbs (popped m rest w)). lia.
  - change (fold_left ?f cbs (departed ?v g ?x)) with (fold_left f (g :: cbs) x).
    assert (E := @steps_fold_departed (Some ValueError) (g :: cbs) (popped m rest w)). lia.
Qed.

Lemma finishes_within (k : nat) : forall w,
  reachable rng w -> mu (steps_left eps) 6 w <= k ->
  exists n w', n <= S k /\ run rng n w = Finished w'.
Proof.
  induction k as [|k IH]; intros w Hr Hmu;
    (destruct (heappop (queue (env w))) as [[m rest]|] eqn:Hpop;
      [|apply heappop_none in Hpop;
        destruct (inv_until (reachable_inv Hr)) as (u & Hu & _);
        rewrite Hpop in Hu; contradiction]);
    assert (Hs := step_stepped rng (reachable_inv Hr) Hpop);
    destruct (step rng w) as [w1|w1|e w1|] eqn:Hstep;
    try (exists 1, w1; split; [lia | cbn [run]; now rewrite Hstep]);
    try (exfalso; inversion Hs as [ | | | | | | | | | | Hev];
         destruct (queue_all_popped Hpop (reachable_failures_explained Hr)) as [Hm _];
         unfold on_event in Hm; rewrite Hev in Hm; destruct Hm as (j & _ & Hneg);
         specialize (samples_large j); lra);
    try (inversion Hs; fail);
    assert (Hd := @steps_decrease w w1 m rest (reachable_inv Hr) Hpop Hs).
  - lia.
  - destruct (IH w1) as (n & w' & Hn & Hrun); [eapply reachable_step; eassumption | lia |].
    exists (S n), w'. split; [lia|]. cbn [run]. now rewrite Hstep.
Qed.

End Termination.

(** ** Samples on a grid *)

Section Grid.
Variable k : nat.

Lemma pow2_nonzero (z : Z) : ~ (2 ^ z == 0)%Q.
Proof. intros E. assert (H := pow2_pos z). rewrite E in H. discriminate. Qed.

Lemma on_grid_Z (n : Z) : on_grid k (inject_Z n).
Proof.
  exists (n * 2 ^ Z.of_nat k)%Z. rewrite inject_Z_mult, pow2_inject by lia.
  field. apply pow2_nonzero.
Qed.

Lemma on_grid_plus (x y : Q) : on_grid k x -> on_grid k y -> on_grid k (x + y).
Proof.
  intros [n Hn] [n' Hn']. exists (n + n')%Z. rewrite Hn, Hn', inject_Z_plus.
  field. apply pow2_nonzero.
Qed.

Lemma on_grid_least (x : Q) : (0 < x)%Q -> on_grid k x -> (1 / 2 ^ Z.of_nat k <= x)%Q.
Proof.
  intros Hx [n Hn]. rewrite Hn in *. assert (Hp := pow2_pos (Z.of_nat k)).
  assert (Hn1 : (1 <= n)%Z).
  { destruct (Z_lt_le_dec n 1) as [C|]; [|assumption]. exfalso.
    assert (Hq : (inject_Z n <= 0)%Q) by (change 0%Q with (inject_Z 0); rewrite <- Zle_Qle; lia).
    assert (Hd : (inject_Z n / 2 ^ Z.of_nat k <= 0)%Q).
    { apply Qle_shift_div_r; [assumption | lra]. }
    lra. }
  unfold Qdiv. apply Qmult_le_compat_r.
  - change 1%Q with (inject_Z 1). now rewrite <- Zle_Qle.
  - apply Qlt_le_weak, Qinv_lt_0_compat, Hp.
Qed.

End Grid.

Section GridRun.
Variable rng : nat -> Q.
Variable k : nat.
Hypothesis samples_grid : forall i, (0 < rng i)%Q /\ on_grid k (rng i).

Lemma grid_now (t : Q) (priority n : nat) (ev : Event) :
  on_grid k t -> on_grid k (e_time (mkEntry (t + 0) priority n ev)).
Proof. intros H. cbn [e_time]. apply on_grid_plus; [exact H | apply (on_grid_Z k 0)]. Qed.

Lemma grid_sample (t : Q) (priority n : nat) (ev : Event) (i : nat) :
  on_grid k t -> on_grid k (e_time (mkEntry (t + rng i) priority n ev)).
Proof. intros H. cbn [e_time]. apply on_grid_plus; [exact H | apply samples_grid]. Qed.

Lemma grid_looped (customer_id : nat) (callbacks : list Generator) (w : World) :
  on_grid k (now (env w)) ->
  queue_all (fun x => on_grid k (e_time x)) w ->
  queue_all (fun x => on_grid k (e_time x)) (looped rng customer_id callbacks w).
Proof.
  intros Hn H. unfold looped.
  destruct (Qltb _ _); [destruct (Qltb _ _)|];
    apply queue_all_scheduled with (w0 := w); auto;
    solve [now apply grid_now | now apply grid_sample].
Qed.

Lemma grid_started (customer_id lane_number : nat) (callbacks : list Generator) (w : World) :
  on_grid k (now (env w)) ->
  queue_all (fun x => on_grid k (e_time x)) w ->
  queue_all (fun x => on_grid k (e_time x)) (started rng customer_id lane_number callbacks w).
Proof.
  intros Hn H. unfold started.
  destruct (Qltb _ _); apply queue_all_scheduled with (w0 := w); auto;
    solve [now apply grid_now | now apply grid_sample].
Qed.

Lemma reachable_grid (w : World) :
  reachable rng w ->
  on_grid k (now (env w)) /\ queue_all (fun x => on_grid k (e_time x)) w.
Proof.
  revert w. apply reachable_stepped_ind.
  - split; [apply (on_grid_Z k 0)|].
    repeat constructor; [apply (on_grid_Z k 600) | apply (on_grid_Z k 0)].
  - intros w m rest w' Hr [_ IH] Hpop Hstep.
    destruct (queue_all_popped Hpop IH) as [Hm Hp].
    assert (En : now (env (popped m rest w)) = e_time m) by reflexivity.
    assert (Hnow : forall priority n ev,
               on_grid k (e_time (mkEntry (e_time m + 0) priority n ev)))
      by (intros; now apply grid_now).
    inversion Hstep as [ | cbs Hev | c cbs Hev | c cbs l0 l1 i l Hev H0 H1 Hi Hrt | r Hev Har
                       | c l cbs Hev Hcb | c l st cbs Hev Hst Hcb | l Hev | cbs Hev Hcb
                       | g cbs Hev Hcb | ]; subst w'.
    + rewrite (same_now (same_records_looped rng 0 cbs (popped m rest w))).
      split; [exact Hm | now apply grid_looped].
    + rewrite (same_now (same_records_looped rng (S c) cbs _)).
      split; [exact Hm|]. apply grid_looped; [exact Hm|].
      now apply now_scheduled with (t := e_time m).
    + rewrite (proj1 (arrived_records c i l0 l1 l (popped m rest w))).
      split; [exact Hm|]. now apply now_arrived with (t := e_time m).
    + split; [exact Hm|]. now apply now_scheduled with (t := e_time m).
    + rewrite (same_now (same_records_started rng c l cbs (popped m rest w))).
      split; [exact Hm | now apply grid_started].
    + split; [exact Hm|]. now apply now_scheduled with (t := e_time m).
    + destruct (nth_error (checkout_lanes (store w)) l) as [res|]; [|now split].
      rewrite (same_now (same_records_triggered l res (popped m rest w))).
      split; [exact Hm|]. now apply now_triggered with (t := e_time m).
    + rewrite (same_now (same_records_fold_departed None cbs (popped m rest w))).
      split; [exact Hm|]. now apply now_fold_departed with (t := e_time m).
    + change (fold_left ?f cbs (departed ?v g ?x)) with (fold_left f (g :: cbs) x).
      rewrite (same_now (same_records_fold_departed (Some ValueError) (g :: cbs)
                           (popped m rest w))).
      split; [exact Hm|]. now apply now_fold_departed with (t := e_time m).
Qed.

Lemma samples_least (i : nat) : (1 / 2 ^ Z.of_nat k <= rng i)%Q.
Proof. destruct (samples_grid i) as [Hp Hg]. now apply on_grid_least. Qed.

End GridRun.

Lemma arrivals_left_grid (k : nat) : arrivals_left (1 / 2 ^ Z.of_nat k) 0 = 600 * 2 ^ k.
Proof.
  unfold arrivals_left.
  assert (E : ((SIMULATION_TIME - 0) / (1 / 2 ^ Z.of_nat k) ==
               inject_Z (Z.of_nat (600 * 2 ^ k)))%Q).
  { rewrite Nat2Z.inj_mul, Nat2Z.inj_pow, inject_Z_mult, pow2_inject by lia.
    unfold SIMULATION_TIME. change (inject_Z (Z.of_nat 600)) with 600%Q.
    change (Z.of_nat 2) with 2%Z. field. apply pow2_nonzero. }
  rewrite E, Qceiling_Z. apply Nat2Z.id.
Qed.

(** X10: the run ends when the samples lie on a grid.  If every sample is
    positive and a multiple of [2^-k], for some [k <= 43], then every time
    the run schedules below 1024, so every time below the horizon, is a
    multiple of [2^-k] too and is a double: the float additions of the clock
    round nothing in such a run.  The clock then advances by [2^-k] at
    least between two arrivals, and [env.run(until=SIMULATION_TIME)]
    returns after at most [8 * 600 * 2^k + 4] events. *)
Theorem run_finishes_on_a_grid (rng : nat -> Q) (k : nat) :
  k <= 43 ->
  (forall i, (0 < rng i)%Q /\ on_grid k (rng i)) ->
  (forall w, reachable rng w -> Forall exact_time (queue (env w))) /\
  exists n w, n <= 8 * (600 * 2 ^ k) + 4 /\ run rng n initial = Finished w.
Proof.
  intros Hk Hrng. split.
  - intros w Hr. destruct (reachable_grid Hrng Hr) as [_ Hg].
    assert (H := reachable_inv Hr). assert (Hq := inv_queue H).
    destruct (reachable_stats_ok Hr) as [_ _ _ _ H0].
    unfold queue_all in Hg. rewrite Forall_forall in *. intros x Hx Hlt.
    destruct (Hg x Hx) as [n Hn]. assert (Ht := ok_time (Hq x Hx)).
    apply binary64_grid with (n := n) (k := Z.of_nat k); [lia | exact Hn | lra | exact Hlt].
  - assert (Heps : (0 < 1 / 2 ^ Z.of_nat k)%Q).
    { apply Qlt_shift_div_l; [apply pow2_pos | lra]. }
    destruct (@finishes_within rng (1 / 2 ^ Z.of_nat k) Heps (@samples_least rng k Hrng)
                (8 * (600 * 2 ^ k) + 3) initial) as (n & w & Hn & Hrun).
    + apply reachable_initial.
    + assert (E : mu (steps_left (1 / 2 ^ Z.of_nat k)) 6 initial =
                  0 + (8 * arrivals_left (1 / 2 ^ Z.of_nat k) 0 + 3 + 2 * 0 + 0) + 6 * 0)
        by reflexivity.
      rewrite arrivals_left_grid in E. lia.
    + exists n, w. split; [lia | exact Hrun].
Qed.

Lemma rng_crowded_grid (i : nat) : (0 < rng_crowded i)%Q /\ on_grid 1 (rng_crowded i).
Proof.
  assert (H1 : (0 < 1)%Q /\ on_grid 1 1) by (split; [reflexivity | apply (on_grid_Z 1 1)]).
  assert (H500 : (0 < 500)%Q /\ on_grid 1 500)
    by (split; [reflexivity | apply (on_grid_Z 1 500)]).
  assert (H21 : (0 < 21 # 2)%Q /\ on_grid 1 (21 # 2))
    by (split; [reflexivity | exists 21%Z; reflexivity]).
  unfold rng_crowded.
  do 26 (destruct i as [|i]; [assumption|]). exact H1.
Qed.

Lemma run_finishes_on_a_grid_witness :
  (forall w, reachable rng_crowded w -> Forall exact_time (queue (env w))) /\
  exists n w, n <= 8 * (600 * 2 ^ 1) + 4 /\ run rng_crowded n initial = Finished w.
Proof.
  apply (@run_finishes_on_a_grid rng_crowded 1).
  - lia.
  - exact rng_crowded_grid.
Defined.

(** ** The numbering of the customers *)

Lemma list_sum_zero {A} (f : A -> nat) (l : list A) :
  list_sum (map f l) = 0 -> Forall (fun x => f x = 0) l.
Proof.
  induction l as [|x l IH]; intros H; constructor;
    cbn [map] in H; change (list_sum (?a :: ?l)) with (a + list_sum l) in H.
  - lia.
  - apply IH. lia.
Qed.

Lemma arrivals_printed_app (out out' : list Line) :
  arrivals_printed (out ++ out') = arrivals_printed out ++ arrivals_printed out'.
Proof. apply flat_map_app. Qed.

Lemma id_entry_ok_other (t t' : Q) (n n' k k' : nat) (x : Entry) :
  is_start (e_time x) (e_event x) = 0 -> is_setup (e_time x) (e_event x) = 0 ->
  id_entry_ok t' n' k' x.
Proof.
  unfold id_entry_ok, is_start, is_setup.
  destruct (e_event x) as [|[[|]|[| |]|] cbs|[[|]|[| |]|] cbs| | |]; auto; discriminate.
Qed.

Lemma id_entry_ok_later (t t' : Q) (n k : nat) (x : Entry) :
  (t <= t')%Q -> id_entry_ok t n k x -> id_entry_ok t' n k x.
Proof.
  intros Hle. unfold id_entry_ok.
  destruct (e_event x) as [|[[|]|[c| |]|] cbs|[[|]|[| |]|] cbs| | |]; auto.
  intros (E & Ht & Hp). repeat split; auto. lra.
Qed.

Lemma id_entry_ok_arrival (t t' : Q) (n : nat) (x : Entry) :
  is_start (e_time x) (e_event x) = 0 ->
  id_entry_ok t n 1 x -> id_entry_ok t' (S n) 0 x.
Proof.
  unfold id_entry_ok, is_start.
  destruct (e_event x) as [|[[|]|[c| |]|] cbs|[[|c]|[| |]|] cbs| | |]; auto; try discriminate.
  - intros _ [_ E]. discriminate.
  - intros _ [E Hp]. split; [lia | assumption].
Qed.

(** Counts of pending events that only [setup] changes *)
Section Quiet.
Variable cost : Q -> Event -> nat.
Hypothesis quiet_request : forall t r, cost t (RequestEv r) = 0.
Hypothesis quiet_release : forall t lane, cost t (ReleaseEv lane) = 0.
Hypothesis quiet_process : forall t value callbacks, cost t (ProcessEv value callbacks) = 0.
Hypothesis quiet_checkout_start :
  forall t pc callbacks, cost t (InitializeEv (GCheckout pc) callbacks) = 0.
Hypothesis quiet_checkout_timeout :
  forall t pc callbacks, cost t (TimeoutEv (GCheckout pc) callbacks) = 0.

Lemma quiet_granted (r : Request) (w : World) : mu cost 0 (granted r w) = mu cost 0 w.
Proof. rewrite mu_granted, quiet_checkout_start. reflexivity. Qed.

Lemma quiet_served (customer_id lane_number : nat) (service_time : Q)
    (callbacks : list Generator) (w : World) :
  mu cost 0 (served customer_id lane_number service_time callbacks w) = mu cost 0 w.
Proof. rewrite mu_served, quiet_process. reflexivity. Qed.

Lemma quiet_started (rng : nat -> Q) (customer_id lane_number : nat)
    (callbacks : list Generator) (w : World) :
  mu cost 0 (started rng customer_id lane_number callbacks w) = mu cost 0 w.
Proof.
  unfold started. destruct (Qltb _ _); rewrite mu_scheduled;
    rewrite ?quiet_process, ?quiet_checkout_timeout; reflexivity.
Qed.

Lemma quiet_triggered (i : nat) (res : Resource) (w : World) :
  nth_error (checkout_lanes (store w)) i = Some res ->
  mu cost 0 (triggered i res w) = mu cost 0 w.
Proof.
  intros H. destruct (@mu_triggered cost 0 i res w H) as [-> | (g & E)]; [reflexivity|].
  rewrite quiet_request in E. lia.
Qed.

Lemma quiet_arrived (customer_id i : nat) (lane0 lane1 lane : Resource) (w : World) :
  nth_error (checkout_lanes (store w)) i = Some lane ->
  mu cost 0 (arrived customer_id i lane0 lane1 lane w) = mu cost 0 w.
Proof.
  intros H.
  destruct (@mu_arrived cost 0 customer_id i lane0 lane1 lane w H) as [-> | (g & ->)];
    rewrite ?quiet_request; lia.
Qed.

Lemma quiet_departed (value : option exn) (g : Generator) (w : World) :
  mu cost 0 (departed value g w) = mu cost 0 w.
Proof.
  destruct g as [|[| |r]|]; try reflexivity.
  rewrite mu_departed, quiet_release, quiet_process. lia.
Qed.

Lemma quiet_fold_departed (value : option exn) (callbacks : list Generator) :
  forall w, mu cost 0 (fold_left (fun w g => departed value g w) callbacks w) = mu cost 0 w.
Proof.
  induction callbacks as [|g cbs IH]; intros w; cbn [fold_left]; [reflexivity|].
  now rewrite IH, quiet_departed.
Qed.

End Quiet.

Ltac quiet := intros; reflexivity.

Section Ids.
Variable rng : nat -> Q.

Lemma starts_looped (customer_id : nat) (callbacks : list Generator) (w : World) :
  starts (looped rng customer_id callbacks w) = starts w.
Proof.
  unfold starts, looped.
  destruct (Qltb _ _); [destruct (Qltb _ _)|]; rewrite mu_scheduled; reflexivity.
Qed.

Lemma setups_looped (customer_id : nat) (callbacks : list Generator) (w : World) :
  setups (looped rng customer_id callbacks w) <= setups w + 1.
Proof.
  unfold setups, looped.
  destruct (Qltb _ _); [destruct (Qltb _ _)|]; rewrite mu_scheduled; cbn [is_setup];
    rewrite ?(@mu_frame is_setup 0 w (drawn w)) by reflexivity; lia.
Qed.

Lemma arrived_count_looped (customer_id : nat) (callbacks : list Generator) (w : World) :
  arrived_count (looped rng customer_id callbacks w) = arrived_count w /\
  arrivals_printed (stdout (looped rng customer_id callbacks w)) = arrivals_printed (stdout w)
  /\ now (env (looped rng customer_id callbacks w)) = now (env w).
Proof.
  unfold arrived_count.
  destruct (same_records_looped rng customer_id callbacks w) as [-> -> _ _ _ _ _]. auto.
Qed.

(** What [setup] schedules when it is resumed with [n] customers arrived,
    [k] about to start and its counter at [n + k] *)
Lemma ids_looped (n k : nat) (callbacks : list Generator) (w : World) :
  queue_all (id_entry_ok (now (env w)) n k) w ->
  queue_all (id_entry_ok (now (env w)) n k) (looped rng (n + k) callbacks w).
Proof.
  intros H. unfold looped.
  destruct (Qltb _ _); [destruct (Qltb _ _)|];
    apply queue_all_scheduled with (w0 := w); auto; try exact I.
  split; reflexivity.
Qed.

End Ids.

Lemma ids_ok_ext (w w' : World) :
  arrivals_printed (stdout w') = arrivals_printed (stdout w) ->
  starts w' = starts w -> setups w' = setups w ->
  queue_all (id_entry_ok (now (env w)) (arrived_count w) (starts w)) w' ->
  now (env w') = now (env w) ->
  ids_ok w -> ids_ok w'.
Proof.
  intros Ea Es Eu Hq En [H1 _ H3 H4]. unfold arrived_count in *.
  split; unfold arrived_count; rewrite ?Ea, ?Es, ?Eu, ?En; assumption.
Qed.

Lemma ids_popped (w : World) (m : Entry) (rest : list Entry) :
  heappop (queue (env w)) = Some (m, rest) -> (now (env w) <= e_time m)%Q ->
  is_start (e_time m) (e_event m) = 0 -> is_setup (e_time m) (e_event m) = 0 ->
  ids_ok w -> ids_ok (popped m rest w).
Proof.
  intros Hpop Hle Hs Hu [H1 H2 H3 H4].
  assert (Es : starts (popped m rest w) = starts w).
  { unfold starts. rewrite (@mu_popped is_start 0 w m rest Hpop). lia. }
  assert (Eu : setups (popped m rest w) = setups w).
  { unfold setups. rewrite (@mu_popped is_setup 0 w m rest Hpop). lia. }
  split; rewrite ?Es, ?Eu; try assumption.
  destruct (queue_all_popped Hpop H2) as [_ Hq].
  eapply queue_all_impl; [|exact Hq]. intros x. now apply id_entry_ok_later.
Qed.

Lemma mu_zero_forall (cost : Q -> Event -> nat) (w : World) :
  mu cost 0 w = 0 <-> Forall (fun x => cost (e_time x) (e_event x) = 0) (queue (env w)).
Proof.
  unfold mu. split.
  - intros H. apply list_sum_zero. lia.
  - intros H. induction H as [|x l Hx _ IH]; cbn [map];
      [reflexivity | change (list_sum (?a :: ?l)) with (a + list_sum l); lia].
Qed.

Lemma seq_snoc (a n : nat) : seq a (S n) = seq a n ++ [a + n].
Proof. apply seq_S. Qed.

Section IdsInvariant.
Variable rng : nat -> Q.

Lemma reachable_ids_ok (w : World) : reachable rng w -> ids_ok w.
Proof.
  revert w. apply reachable_stepped_ind.
  - split; try (cbn; lia); try reflexivity.
    repeat constructor.
  - intros w m rest w' Hr IH Hpop Hstep.
    assert (Hne : e_event m <> UntilEv) by (intros Hu; inversion Hstep; congruence).
    destruct (inv_pop (reachable_inv Hr) Hpop Hne) as (_ & _ & Hle).
    destruct (heappop_spec _ Hpop) as [Hperm Hmin].
    destruct (queue_all_popped Hpop (ids_entries IH)) as [Hm Hq].
    unfold id_entry_ok in Hm.
    assert (Es := @mu_popped is_start 0 w m rest Hpop). fold (starts w) in Es.
    fold (starts (popped m rest w)) in Es.
    assert (Eu := @mu_popped is_setup 0 w m rest Hpop). fold (setups w) in Eu.
    fold (setups (popped m rest w)) in Eu.
    assert (Hk := ids_starts IH). assert (Hu := ids_setups IH).
    assert (Hother : is_start (e_time m) (e_event m) = 0 ->
                     is_setup (e_time m) (e_event m) = 0 -> ids_ok (popped m rest w))
      by (intros; now apply ids_popped).
    inversion Hstep as [ | cbs Hev | c cbs Hev | c cbs l0 l1 i l Hev H0 H1 Hi Hrt | r Hev Har
                       | c l cbs Hev Hcb | c l st cbs Hev Hst Hcb | l Hev | cbs Hev Hcb
                       | g cbs Hev Hcb | ]; subst w'; rewrite Hev in *;
      cbn [is_start is_setup] in *.
    + (* setup starts *)
      destruct Hm as [En Ek].
      destruct (arrived_count_looped rng 0 cbs (popped m rest w)) as (Ec & Ea & Et).
      split; rewrite ?Ec, ?Ea, ?Et, ?starts_looped.
      * apply (ids_seq IH).
      * change (arrived_count (popped m rest w)) with (arrived_count w). rewrite En.
        replace (starts (popped m rest w)) with 0 by lia.
        apply (@ids_looped rng 0 0 cbs (popped m rest w)).
        eapply queue_all_impl; [|exact Hq]. intros x. rewrite En, Ek.
        apply id_entry_ok_later. exact Hle.
      * lia.
      * assert (E := setups_looped rng 0 cbs (popped m rest w)). lia.
    + (* setup spawns a customer *)
      destruct Hm as [Ec Hp].
      assert (Hns : Forall (fun x => is_start (e_time x) (e_event x) = 0) rest).
      { unfold queue_all in Hq. change (queue (env (popped m rest w))) with rest in Hq.
        rewrite Forall_forall in *. intros x Hx.
        specialize (Hq x Hx). specialize (Hmin x Hx). unfold id_entry_ok in Hq.
        destruct (e_event x) as [|[[|]|[c'| |]|] cbs'|[[|]|[| |]|] cbs'| | |];
          try reflexivity.
        exfalso. destruct Hq as (_ & Hx1 & Hx2). apply Hmin.
        destruct (Qlt_le_dec (e_time x) (e_time m)) as [Hlt | Hge]; [now left|].
        right. split; [lra|]. left. rewrite Hx2, Hp. unfold URGENT, NORMAL. lia. }
      assert (Es0 : starts (popped m rest w) = 0) by (apply mu_zero_forall; exact Hns).
      assert (Eu0 : setups (popped m rest w) = 0) by lia.
      assert (Hnu : Forall (fun x => is_setup (e_time x) (e_event x) = 0) rest).
      { apply (proj1 (mu_zero_forall is_setup (popped m rest w))). exact Eu0. }
      set (w2 := scheduled (InitializeEv (GCustomer (customer_start (S c))) []) URGENT 0
                           (popped m rest w)).
      assert (Es2 : starts w2 = 1).
      { unfold starts, w2. rewrite mu_scheduled. cbn [is_start]. fold (starts (popped m rest w)).
        lia. }
      assert (Eu2 : setups w2 = 0).
      { unfold setups, w2. rewrite mu_scheduled. cbn [is_setup].
        fold (setups (popped m rest w)). lia. }
      destruct (arrived_count_looped rng (S c) cbs w2) as (Ec' & Ea & Et).
      split; rewrite ?Ec', ?Ea, ?Et, ?starts_looped, ?Es2.
      * apply (ids_seq IH).
      * change (arrived_count w2) with (arrived_count w).
        replace (S c) with (arrived_count w + 1) by lia.
        apply (@ids_looped rng (arrived_count w) 1 cbs w2).
        apply queue_all_scheduled with (w0 := popped m rest w); [reflexivity | |].
        -- unfold id_entry_ok. cbn [e_event e_time e_prio].
           change (now (env w2)) with (now (env (popped m rest w))).
           repeat split; try lia. lra.
        -- unfold queue_all. change (queue (env (popped m rest w))) with rest.
           rewrite Forall_forall in *. intros x Hx.
           apply (@id_entry_ok_other 0 (now (env w2)) 0 (arrived_count w) 0 1 x); auto.
      * lia.
      * assert (E := setups_looped rng (S c) cbs w2). lia.
    + (* a customer arrives *)
      destruct Hm as (Ec & _ & _).
      assert (Es0 : starts (popped m rest w) = 0) by lia.
      assert (Hns : Forall (fun x => is_start (e_time x) (e_event x) = 0) rest).
      { apply (proj1 (mu_zero_forall is_start (popped m rest w))). exact Es0. }
      assert (Ea : arrivals_printed (stdout (arrived c i l0 l1 l (popped m rest w))) =
                   arrivals_printed (stdout w) ++ [(c, e_time m)]).
      { rewrite arrived_stdout.
        change (?a :: ?x ++ ?b) with ([a] ++ x ++ b).
        rewrite !arrivals_printed_app.
        rewrite (proj2 (proj2 (printed_openings _ _ _ _))). reflexivity. }
      assert (En : arrived_count (arrived c i l0 l1 l (popped m rest w)) = S (arrived_count w)).
      { unfold arrived_count. rewrite Ea, length_app. cbn. lia. }
      assert (Es' : starts (arrived c i l0 l1 l (popped m rest w)) = 0).
      { unfold starts. rewrite quiet_arrived; auto; quiet. }
      split; rewrite ?En, ?Es'.
      * rewrite Ea, map_app, (ids_seq IH), seq_snoc. cbn. now rewrite Ec.
      * apply queue_all_arrived; try (intros x ? E; unfold id_entry_ok; now rewrite E).
        unfold queue_all in *. change (queue (env (popped m rest w))) with rest in *.
        rewrite Forall_forall in *. intros x Hx.
        apply id_entry_ok_arrival with (t := now (env w)); auto.
        replace 1 with (starts w) by lia. auto.
      * lia.
      * unfold setups. rewrite quiet_arrived; auto; try quiet.
        fold (setups (popped m rest w)). lia.
    + (* a customer is granted its lane *)
      specialize (Hother eq_refl eq_refl).
      apply ids_ok_ext with (w := popped m rest w);
        [ | apply quiet_granted; quiet | apply quiet_granted; quiet | | reflexivity
          | exact Hother].
      * unfold granted.
        change (stdout (scheduled ?e ?p ?d (printed ?x ?y))) with (stdout y ++ [x]).
        rewrite arrivals_printed_app. apply app_nil_r.
      * apply queue_all_scheduled with (w0 := popped m rest w); auto; try exact I.
        apply (ids_entries Hother).
    + (* a checkout starts *)
      specialize (Hother eq_refl eq_refl).
      destruct (same_records_started rng c l cbs (popped m rest w)) as [En Eo _ _ _ _ _].
      apply ids_ok_ext with (w := popped m rest w);
        [ now rewrite Eo | apply quiet_started; quiet | apply quiet_started; quiet | | exact En
          | exact Hother].
      unfold started. destruct (Qltb _ _);
        apply queue_all_scheduled with (w0 := popped m rest w); auto; try exact I;
        apply (ids_entries Hother).
    + (* a checkout ends *)
      specialize (Hother eq_refl eq_refl).
      apply ids_ok_ext with (w := popped m rest w);
        [ | apply quiet_served; quiet | apply quiet_served; quiet | | reflexivity
          | exact Hother].
      * unfold served.
        change (stdout (scheduled ?e ?p ?d (with_store ?f (printed ?x ?y))))
          with (stdout y ++ [x]).
        rewrite arrivals_printed_app. apply app_nil_r.
      * apply queue_all_scheduled with (w0 := popped m rest w); auto; try exact I.
        apply (ids_entries Hother).
    + (* a lane is released *)
      specialize (Hother eq_refl eq_refl).
      destruct (nth_error (checkout_lanes (store w)) l) as [res|] eqn:E; [|exact Hother].
      destruct (same_records_triggered l res (popped m rest w)) as [En Eo _ _ _ _ _].
      apply ids_ok_ext with (w := popped m rest w);
        [ now rewrite Eo | apply quiet_triggered; auto; quiet
          | apply quiet_triggered; auto; quiet | | exact En | exact Hother].
      apply queue_all_triggered; try (intros x ? Ex; unfold id_entry_ok; now rewrite Ex).
      apply (ids_entries Hother).
    + (* a process ends *)
      specialize (Hother eq_refl eq_refl).
      destruct (same_records_fold_departed None cbs (popped m rest w)) as [En Eo _ _ _ _ _].
      apply ids_ok_ext with (w := popped m rest w);
        [ now rewrite Eo | apply quiet_fold_departed; quiet
          | apply quiet_fold_departed; quiet | | exact En | exact Hother].
      apply queue_all_fold_departed;
        try (intros x ? Ex; unfold id_entry_ok; now rewrite Ex);
        try (intros x Ex; unfold id_entry_ok; now rewrite Ex).
      apply (ids_entries Hother).
    + (* a process has failed *)
      specialize (Hother eq_refl eq_refl).
      change (fold_left ?f cbs (departed ?v g ?x)) with (fold_left f (g :: cbs) x).
      destruct (same_records_fold_departed (Some ValueError) (g :: cbs) (popped m rest w))
        as [En Eo _ _ _ _ _].
      apply ids_ok_ext with (w := popped m rest w);
        [ now rewrite Eo | apply quiet_fold_departed; quiet
          | apply quiet_fold_departed; quiet | | exact En | exact Hother].
      apply queue_all_fold_departed;
        try (intros x ? Ex; unfold id_entry_ok; now rewrite Ex);
        try (intros x Ex; unfold id_entry_ok; now rewrite Ex).
      apply (ids_entries Hother).
Qed.

End IdsInvariant.

(** X11: the customers are numbered in the order of their arrival.  In
    every state of a run, and when the run has ended, the customer ids
    printed by line 49 are 1, 2, ..., n in this order, where n is the
    number of arrivals so far. *)
Theorem customer_ids_are_consecutive (rng : nat -> Q) (w : World) :
  reachable rng w \/ final rng w ->
  map fst (arrivals_printed (stdout w)) = seq 1 (length (arrivals_printed (stdout w))).
Proof.
  intros [Hr | (w0 & Hr & Hstop)].
  - exact (ids_seq (reachable_ids_ok Hr)).
  - destruct (@step_stop rng w0 w Hstop) as (_ & -> & _).
    exact (ids_seq (reachable_ids_ok Hr)).
Qed.

Lemma customer_ids_are_consecutive_witness :
  map fst (arrivals_printed (stdout (advance rng_crowded 56 initial))) =
  seq 1 (length (arrivals_printed (stdout (advance rng_crowded 56 initial)))).
Proof.
  apply (@customer_ids_are_consecutive rng_crowded (advance rng_crowded 56 initial)).
  left. apply advance_reachable, reachable_initial.
Defined.

(** ** The customers in the lanes *)

Lemma list_set_split {A} (l : list A) (i : nat) (old : A) :
  nth_error l i = Some old ->
  exists l1 l2, l = l1 ++ old :: l2 /\ length l1 = i /\
                forall x, list_set l i x = l1 ++ x :: l2.
Proof.
  revert i. induction l as [|y l IH]; intros [|i] H; try discriminate.
  - inversion H; subst. exists [], l. repeat split.
  - change (nth_error (y :: l) (S i)) with (nth_error l i) in H.
    destruct (IH i H) as (l1 & l2 & -> & Hlen & Hset).
    exists (y :: l1), l2. repeat split; [cbn; lia|].
    intros x. cbn. now rewrite Hset.
Qed.

Lemma users_list_set (lanes : list Resource) (i : nat) (old new : Resource) :
  nth_error lanes i = Some old ->
  Permutation (flat_map users (list_set lanes i new) ++ users old)
              (flat_map users lanes ++ users new).
Proof.
  intros H. destruct (@list_set_split _ lanes i old H) as (l1 & l2 & -> & _ & ->).
  rewrite !flat_map_app. cbn [flat_map]. rewrite <- !app_assoc.
  apply Permutation_app_head.
  etransitivity; [apply Permutation_app_comm|]. symmetry.
  etransitivity; [apply Permutation_app_comm|].
  rewrite <- !app_assoc. apply Permutation_app_head. apply Permutation_app_comm.
Qed.

Lemma lanes_fifo_set (n i : nat) (lanes : list Resource) (res : Resource) :
  lane_fifo n i res -> lanes_fifo n lanes -> lanes_fifo n (list_set lanes i res).
Proof.
  intros Hres H j lane Hj. destruct (Nat.eq_dec i j) as [<- | Hne].
  - assert (Hlt : i < length (list_set lanes i res)).
    { apply nth_error_Some. congruence. }
    rewrite length_list_set in Hlt. rewrite nth_error_list_set_eq in Hj by assumption.
    inversion Hj; subst. exact Hres.
  - rewrite nth_error_list_set_neq in Hj by assumption. now apply H.
Qed.

Lemma lane_fifo_later (n n' i : nat) (lane : Resource) :
  n <= n' -> lane_fifo n i lane -> lane_fifo n' i lane.
Proof.
  intros Hle [H1 H2 H3]. split; auto.
  eapply Forall_impl; [|exact H2]. cbn. intros r [? ?]. split; [assumption | lia].
Qed.

Lemma lanes_fifo_later (n n' : nat) (lanes : list Resource) :
  n <= n' -> lanes_fifo n lanes -> lanes_fifo n' lanes.
Proof. intros Hle H i lane Hi. apply lane_fifo_later with (n := n); auto. Qed.

(** A new request joins the queue of its lane. *)
Lemma lane_fifo_request (n i : nat) (lane : Resource) (r : Request) :
  rq_lane r = i -> rq_customer r = S n ->
  lane_fifo n i lane ->
  lane_fifo (S n) i (mkResource (users lane) (put_queue lane ++ [r])).
Proof.
  intros Hl Hc [H1 H2 H3]. split; cbn [users put_queue].
  - assumption.
  - rewrite app_assoc. apply Forall_app. split.
    + eapply Forall_impl; [|exact H2]. cbn. intros x [? ?]. split; [assumption | lia].
    + constructor; [|constructor]. split; [assumption | lia].
  - rewrite app_assoc, map_app. apply StronglySorted_snoc; [assumption|].
    rewrite Forall_map. eapply Forall_impl; [|exact H2]. cbn. intros x [_ ?]. lia.
Qed.

(** The head of the queue is granted the lane. *)
Lemma lane_fifo_trigger (n i : nat) (lane : Resource) :
  lane_fifo n i lane -> lane_fifo n i (fst (_trigger_put lane)).
Proof.
  intros H. destruct (_trigger_put_cases lane) as [-> | (g & rest & Hq & Hu & ->)];
    [exact H|].
  destruct H as [H1 H2 H3]. rewrite Hq, Hu in *. cbn [fst users put_queue app] in *.
  split; auto.
Qed.

Lemma users_remove_cases (r : Request) (us : list Request) :
  length us <= 1 -> users_remove r us = us \/ users_remove r us = [].
Proof.
  destruct us as [|u [|u' us]]; cbn [length users_remove]; intros H; try lia; auto.
  destruct (rq_customer u =? rq_customer r); auto.
Qed.

(** A customer leaves its lane. *)
Lemma lane_fifo_release (n i : nat) (lane : Resource) (r : Request) :
  lane_fifo n i lane ->
  lane_fifo n i (mkResource (users_remove r (users lane)) (put_queue lane)).
Proof.
  intros [H1 H2 H3].
  destruct (users_remove_cases r (users lane) H1) as [-> | ->]; [now split|].
  apply Forall_app in H2 as [_ H2]. rewrite map_app in H3.
  split; cbn [users put_queue length app]; [lia | assumption |].
  revert H3. generalize (map rq_customer (users lane)). intros l.
  induction l as [|x l IH]; cbn [app]; [auto|]. intros H. inversion H; auto.
Qed.

Lemma holders_perm (q q' : list Entry) :
  Permutation q q' -> Permutation (holders q) (holders q').
Proof. apply Permutation_flat_map. Qed.

Lemma lanes_pre_frame (extra : list Request) (n : nat) (w w' : World) :
  queue (env w') = queue (env w) ->
  checkout_lanes (store w') = checkout_lanes (store w) ->
  lanes_pre extra n w -> lanes_pre extra n w'.
Proof.
  intros Eq El [H1 H2 H3]. split; unfold queue_all in *; rewrite ?Eq, ?El; assumption.
Qed.

Lemma lanes_pre_popped (w : World) (m : Entry) (rest : list Entry) :
  heappop (queue (env w)) = Some (m, rest) -> lanes_ok w ->
  callbacks_ok m /\ lanes_pre (holder (e_event m)) (arrived_count w) (popped m rest w).
Proof.
  intros Hpop [H1 H2 H3]. destruct (queue_all_popped Hpop H3) as [Hm Hq].
  split; [exact Hm|]. split; auto.
  etransitivity; [|exact H2]. symmetry.
  apply (holders_perm (proj1 (heappop_spec _ Hpop))).
Qed.

Lemma lanes_pre_scheduled (extra : list Request) (n : nat) (ev : Event) (priority : nat)
    (delay : Q) (w : World) :
  callbacks_ok (mkEntry (now (env w) + delay) priority (eid (env w)) ev) ->
  lanes_pre (holder ev ++ extra) n w ->
  lanes_pre extra n (scheduled ev priority delay w).
Proof.
  intros Hev [H1 H2 H3]. split.
  - exact H1.
  - change (queue (env (scheduled ev priority delay w)))
      with (mkEntry (now (env w) + delay) priority (eid (env w)) ev :: queue (env w)).
    change (checkout_lanes (store (scheduled ev priority delay w)))
      with (checkout_lanes (store w)).
    etransitivity; [|exact H2]. cbn [holders flat_map e_event].
    fold (holders (queue (env w))). rewrite !app_assoc.
    apply Permutation_app_tail. apply Permutation_app_comm.
  - apply queue_all_scheduled with (w0 := w); auto.
Qed.

Lemma lanes_pre_triggered (extra : list Request) (n i : nat) (res : Resource) (w : World) :
  nth_error (checkout_lanes (store w)) i = Some res ->
  lanes_pre extra n w -> lanes_pre extra n (triggered i res w).
Proof.
  intros Hnth H. unfold triggered.
  destruct (_trigger_put_cases res) as [-> | (g & rest & Hq & Hu & E)]; [exact H|].
  rewrite E. destruct H as [H1 H2 H3].
  apply lanes_pre_scheduled; [exact I|]. split.
  - change (checkout_lanes (store (put_lane i ?r w)))
      with (list_set (checkout_lanes (store w)) i r).
    apply lanes_fifo_set; [|exact H1].
    assert (Hf := lane_fifo_trigger (H1 i res Hnth)). now rewrite E in Hf.
  - change (checkout_lanes (store (put_lane i ?r w)))
      with (list_set (checkout_lanes (store w)) i r).
    change (queue (env (put_lane i ?r w))) with (queue (env w)).
    assert (Hl := @users_list_set (checkout_lanes (store w)) i res (mkResource [g] rest) Hnth).
    rewrite Hu, app_nil_r in Hl. cbn [users] in Hl.
    rewrite Hl. cbn [holder app].
    etransitivity; [|apply Permutation_app_comm]. cbn [app]. now apply perm_skip.
  - exact H3.
Qed.

Lemma lanes_pre_requested (n : nat) (r : Request) (res : Resource) (w : World) :
  nth_error (checkout_lanes (store w)) (rq_lane r) = Some res ->
  rq_customer r = S n ->
  lanes_pre [] n w -> lanes_pre [] (S n) (requested r res w).
Proof.
  intros Hnth Hc [H1 H2 H3]. unfold requested.
  set (res1 := mkResource (users res) (put_queue res ++ [r])).
  apply lanes_pre_triggered.
  - change (checkout_lanes (store (put_lane ?i ?x w)))
      with (list_set (checkout_lanes (store w)) i x).
    apply nth_error_list_set_eq. apply nth_error_Some. congruence.
  - split.
    + change (checkout_lanes (store (put_lane ?i ?x w)))
        with (list_set (checkout_lanes (store w)) i x).
      apply lanes_fifo_set.
      * apply lane_fifo_request; auto.
      * apply lanes_fifo_later with (n := n); [lia | exact H1].
    + change (checkout_lanes (store (put_lane ?i ?x w)))
        with (list_set (checkout_lanes (store w)) i x).
      change (queue (env (put_lane ?i ?x w))) with (queue (env w)).
      assert (Hl := @users_list_set (checkout_lanes (store w)) (rq_lane r) res res1 Hnth).
      apply Permutation_app_inv_r in Hl. now rewrite Hl.
    + exact H3.
Qed.

Lemma in_flat_map_users (lanes : list Resource) (r : Request) :
  In r (flat_map users lanes) ->
  exists i lane, nth_error lanes i = Some lane /\ In r (users lane).
Proof.
  intros H. apply in_flat_map in H as (lane & Hl & Hr).
  apply In_nth_error in Hl as (i & Hi). now exists i, lane.
Qed.

Lemma lanes_pre_released (extra : list Request) (n : nat) (r : Request) (w : World) :
  lanes_pre (r :: extra) n w -> lanes_pre extra n (released r w).
Proof.
  intros [H1 H2 H3]. unfold released.
  assert (Hin : In r (flat_map users (checkout_lanes (store w)))).
  { apply (Permutation_in _ H2). now left. }
  destruct (in_flat_map_users _ _ Hin) as (i & lane & Hnth & Hr).
  destruct (H1 i lane Hnth) as [L1 L2 L3].
  assert (Hi : i = rq_lane r).
  { rewrite Forall_forall in L2. symmetry. apply L2. apply in_or_app. now left. }
  subst i. rewrite Hnth.
  assert (Hu : users lane = [r]).
  { destruct (users lane) as [|u [|u' us]]; cbn in L1, Hr; try lia.
    destruct Hr as [-> | []]. reflexivity. }
  assert (Hrel : lane_fifo n (rq_lane r) (mkResource [] (put_queue lane))).
  { assert (Hf := @lane_fifo_release n (rq_lane r) lane r (H1 _ _ Hnth)).
    rewrite Hu in Hf. cbn [users_remove] in Hf. now rewrite Nat.eqb_refl in Hf. }
  rewrite Hu. cbn [users_remove]. rewrite Nat.eqb_refl.
  apply lanes_pre_scheduled; [exact I|]. cbn [holder app].
  split.
  - change (checkout_lanes (store (put_lane ?i ?x w)))
      with (list_set (checkout_lanes (store w)) i x).
    apply lanes_fifo_set; [exact Hrel | exact H1].
  - change (checkout_lanes (store (put_lane ?i ?x w)))
      with (list_set (checkout_lanes (store w)) i x).
    change (queue (env (put_lane ?i ?x w))) with (queue (env w)).
    assert (Hl := @users_list_set (checkout_lanes (store w)) (rq_lane r) lane
                    (mkResource [] (put_queue lane)) Hnth).
    rewrite Hu in Hl. cbn [users] in Hl. rewrite app_nil_r in Hl.
    apply Permutation_cons_inv with (a := r).
    etransitivity; [exact H2|]. rewrite <- Hl. apply Permutation_app_comm.
  - exact H3.
Qed.

Lemma lanes_pre_departed (extra : list Request) (n : nat) (value : option exn)
    (r : Request) (w : World) :
  lanes_pre (r :: extra) n w ->
  lanes_pre extra n (departed value (GCustomer (customer_line66 r)) w).
Proof.
  intros H. unfold departed. apply lanes_pre_scheduled; [exact I|].
  now apply lanes_pre_released.
Qed.

Lemma lanes_pre_fold_departed (n : nat) (value : option exn) (callbacks : list Generator) :
  Forall line66_pc callbacks ->
  forall w, lanes_pre (callback_requests callbacks) n w ->
            lanes_pre [] n (fold_left (fun w g => departed value g w) callbacks w).
Proof.
  induction 1 as [|g cbs Hg _ IH]; intros w H; cbn [fold_left]; [exact H|].
  destruct g as [|[| |r]|]; try contradiction.
  apply IH. apply lanes_pre_departed. exact H.
Qed.

Lemma lanes_pre_looped (rng : nat -> Q) (n customer_id : nat) (callbacks : list Generator)
    (w : World) :
  lanes_pre (callback_requests callbacks) n w ->
  lanes_pre [] n (looped rng customer_id callbacks w).
Proof.
  intros H. unfold looped.
  destruct (Qltb _ _); [destruct (Qltb _ _)|];
    apply lanes_pre_scheduled; try exact I; cbn [holder]; rewrite app_nil_r;
    try assumption; now apply lanes_pre_frame with (w := w).
Qed.

Lemma lanes_pre_started (rng : nat -> Q) (n customer_id lane_number : nat)
    (callbacks : list Generator) (w : World) :
  (exists r, callback_requests callbacks = [r] /\
             rq_customer r = customer_id /\ rq_lane r = lane_number) ->
  lanes_pre (callback_requests callbacks) n w ->
  lanes_pre [] n (started rng customer_id lane_number callbacks w).
Proof.
  intros Hm H. unfold started.
  destruct (Qltb _ _); apply lanes_pre_scheduled; try exact I; try exact Hm;
    cbn [holder]; rewrite app_nil_r; now apply lanes_pre_frame with (w := w).
Qed.

Section LanesInvariant.
Variable rng : nat -> Q.

Lemma stepped_arrived_count (w w' : World) (m : Entry) (rest : list Entry) :
  stepped rng w m rest (Continue w') ->
  arrived_count w' = arrived_count w + is_start (e_time m) (e_event m).
Proof.
  intros Hstep. unfold arrived_count.
  inversion Hstep as [ | cbs Hev | c cbs Hev | c cbs l0 l1 i l Hev H0 H1 Hi Hrt | r Hev Har
                     | c l cbs Hev Hcb | c l st cbs Hev Hst Hcb | l Hev | cbs Hev Hcb
                     | g cbs Hev Hcb | ]; subst w'; rewrite Hev; cbn [is_start];
    rewrite ?Nat.add_0_r.
  - now rewrite (same_stdout (same_records_looped rng 0 cbs (popped m rest w))).
  - now rewrite (same_stdout (same_records_looped rng (S c) cbs _)).
  - rewrite arrived_stdout. change (?a :: ?x ++ ?b) with ([a] ++ x ++ b).
    rewrite !arrivals_printed_app, (proj2 (proj2 (printed_openings _ _ _ _))), !length_app.
    reflexivity.
  - unfold granted.
    change (stdout (scheduled ?e ?p ?d (printed ?x ?y))) with (stdout y ++ [x]).
    rewrite arrivals_printed_app. now rewrite app_nil_r.
  - now rewrite (same_stdout (same_records_started rng c l cbs (popped m rest w))).
  - unfold served.
    change (stdout (scheduled ?e ?p ?d (with_store ?f (printed ?x ?y))))
      with (stdout y ++ [x]).
    rewrite arrivals_printed_app. now rewrite app_nil_r.
  - destruct (nth_error _ _); [rewrite (same_stdout (same_records_triggered _ _ _))|];
      reflexivity.
  - now rewrite (same_stdout (same_records_fold_departed None cbs (popped m rest w))).
  - change (fold_left ?f cbs (departed ?v g ?x)) with (fold_left f (g :: cbs) x).
    now rewrite (same_stdout (same_records_fold_departed (Some ValueError) (g :: cbs)
                                (popped m rest w))).
Qed.

Lemma reachable_lanes_ok (w : World) : reachable rng w -> lanes_ok w.
Proof.
  revert w. apply reachable_stepped_ind.
  - split.
    + intros i lane H.
      assert (E : lane = mkResource [] []).
      { destruct i as [|[|[|i]]]; cbv in H; try congruence. destruct i; discriminate. }
      subst lane. split; [cbn; lia | apply Forall_nil | apply SSorted_nil].
    + reflexivity.
    + repeat constructor.
  - intros w m rest w' Hr IH Hpop Hstep.
    destruct (lanes_pre_popped Hpop IH) as [Hm Hpre]. unfold callbacks_ok in Hm.
    destruct (queue_all_popped Hpop (ids_entries (reachable_ids_ok Hr))) as [Hid _].
    unfold id_entry_ok in Hid.
    assert (En := stepped_arrived_count Hstep).
    assert (Hok : lanes_pre [] (arrived_count w') w' -> lanes_ok w')
      by (intros [? ? ?]; now split).
    apply Hok. rewrite En. clear Hok En.
    inversion Hstep as [ | cbs Hev | c cbs Hev | c cbs l0 l1 i l Hev H0 H1 Hi Hrt | r Hev Har
                       | c l cbs Hev Hcb | c l st cbs Hev Hst Hcb | l Hev | cbs Hev Hcb
                       | g cbs Hev Hcb | ]; subst w'; rewrite Hev in *;
      cbn [is_start holder] in *; rewrite ?Nat.add_0_r.
    + now apply lanes_pre_looped.
    + apply lanes_pre_looped. apply lanes_pre_scheduled; [reflexivity | exact Hpre].
    + rewrite Hm in Hpre. destruct Hid as (Ec & _).
      replace (arrived_count w + 1) with (S (arrived_count w)) by lia.
      unfold arrived. apply lanes_pre_requested; [| exact Ec |].
      * cbn [rq_lane].
        change (checkout_lanes (store (printed ?x ?y))) with (checkout_lanes (store y)).
        now rewrite observed_lanes.
      * apply lanes_pre_frame with (w := popped m rest w); [| | exact Hpre].
        -- change (env (printed ?x ?y)) with (env y). unfold observed.
           change (env (with_store ?f ?y)) with (env y). now rewrite managed_env.
        -- change (checkout_lanes (store (printed ?x ?y))) with (checkout_lanes (store y)).
           now rewrite observed_lanes.
    + unfold granted. apply lanes_pre_scheduled.
      * exists r. repeat split.
      * cbn [holder callback_requests flat_map app].
        now apply lanes_pre_frame with (w := popped m rest w).
    + now apply lanes_pre_started.
    + unfold served. apply lanes_pre_scheduled; [exact I|].
      cbn [holder]. rewrite app_nil_r.
      now apply lanes_pre_frame with (w := popped m rest w).
    + destruct (nth_error (checkout_lanes (store w)) l) as [res|] eqn:E; [|exact Hpre].
      now apply lanes_pre_triggered.
    + now apply lanes_pre_fold_departed.
    + change (fold_left ?f cbs (departed ?v g ?x)) with (fold_left f (g :: cbs) x).
      now apply lanes_pre_fold_departed.
Qed.

End LanesInvariant.

Lemma count_lane_app (i : nat) (l l' : list Request) :
  count_lane i (l ++ l') = count_lane i l + count_lane i l'.
Proof. unfold count_lane. now rewrite map_app, list_sum_app. Qed.

Lemma count_lane_perm (i : nat) (l l' : list Request) :
  Permutation l l' -> count_lane i l = count_lane i l'.
Proof.
  intros H. unfold count_lane. apply Permutation_list_sum. now apply Permutation_map.
Qed.

Lemma count_lane_forall (i j : nat) (l : list Request) :
  Forall (fun r => rq_lane r = j) l ->
  count_lane i l = if j =? i then length l else 0.
Proof.
  induction 1 as [|r l Hr _ IH]; unfold count_lane in *; cbn [map length].
  - now destruct (j =? i).
  - change (list_sum (?a :: ?x)) with (a + list_sum x). rewrite IH, Hr.
    destruct (j =? i); lia.
Qed.

Lemma checkouts_on_holders (i : nat) (q : list Entry) :
  Forall callbacks_ok q -> checkouts_on i q <= count_lane i (holders q).
Proof.
  induction 1 as [|x q Hx _ IH]; [unfold checkouts_on; cbn; lia|].
  unfold checkouts_on in *. cbn [filter holders flat_map].
  fold (holders q). rewrite count_lane_app.
  unfold callbacks_ok in Hx.
  destruct (e_event x) as [|[|[| |]|[c l|]] cbs|[|[| |]|[|c l st]] cbs| | |];
    cbn [is_checkout_on length]; try lia.
  - destruct Hx as (r & Er & _ & El). cbn [holder]. rewrite Er.
    unfold count_lane at 1. cbn [map list_sum fold_right]. rewrite El.
    destruct (l =? i); cbn [length]; lia.
  - destruct Hx as (r & Er & _ & El). cbn [holder]. rewrite Er.
    unfold count_lane at 1. cbn [map list_sum fold_right]. rewrite El.
    destruct (l =? i); cbn [length]; lia.
Qed.

Lemma flat_map_users3 (a b c : Resource) :
  flat_map users [a; b; c] = users a ++ users b ++ users c.
Proof. cbn [flat_map]. now rewrite app_nil_r. Qed.

Lemma count_lane_users (n i : nat) (lanes : list Resource) (lane : Resource) :
  length lanes = NUM_CHECKOUT_LANES -> lanes_fifo n lanes ->
  nth_error lanes i = Some lane ->
  count_lane i (flat_map users lanes) = length (users lane).
Proof.
  intros Hlen H Hi.
  destruct lanes as [|a [|b [|c [|d lanes]]]]; try discriminate.
  assert (Hu : forall j res, nth_error [a; b; c] j = Some res ->
                             Forall (fun r => rq_lane r = j) (users res)).
  { intros j res Hj. destruct (H j res Hj) as [_ Hf _].
    apply Forall_app in Hf as [Hf _]. eapply Forall_impl; [|exact Hf]. now intros r []. }
  rewrite flat_map_users3, !count_lane_app.
  assert (Xa := count_lane_forall i (Hu 0 a eq_refl)).
  assert (Xb := count_lane_forall i (Hu 1 b eq_refl)).
  assert (Xc := count_lane_forall i (Hu 2 c eq_refl)).
  destruct i as [|[|[|i]]]; cbv in Hi; [| | |destruct i; discriminate];
    inversion Hi; subst;
    change (0 =? 0) with true in *; change (1 =? 1) with true in *;
    change (2 =? 2) with true in *; change (0 =? 1) with false in *;
    change (0 =? 2) with false in *; change (1 =? 0) with false in *;
    change (1 =? 2) with false in *; change (2 =? 0) with false in *;
    change (2 =? 1) with false in *; cbv beta iota in Xa, Xb, Xc; lia.
Qed.

(** X12: each lane serves first come, first served.  In every state of a
    run, and when the run has ended, the requests of a lane, the one that
    holds the lane first and then those that wait in its queue, are requests
    made for this lane by customers who have arrived, in increasing order of
    customer id, which is the order of arrival; [Resource] grants the lane
    to the head of this queue. *)
Theorem lanes_are_first_come_first_served (rng : nat -> Q) (w : World) (i : nat)
    (lane : Resource) :
  reachable rng w \/ final rng w ->
  nth_error (checkout_lanes (store w)) i = Some lane ->
  StronglySorted lt (map rq_customer (users lane ++ put_queue lane)) /\
  Forall (fun r => rq_lane r = i /\ 1 <= rq_customer r <= length (arrivals_printed (stdout w)))
         (users lane ++ put_queue lane).
Proof.
  assert (H : forall w, reachable rng w ->
    nth_error (checkout_lanes (store w)) i = Some lane ->
    StronglySorted lt (map rq_customer (users lane ++ put_queue lane)) /\
    Forall (fun r => rq_lane r = i /\ 1 <= rq_customer r <= length (arrivals_printed (stdout w)))
           (users lane ++ put_queue lane)).
  { intros w0 Hr Hi. destruct (reachable_lanes_ok Hr) as [H1 _ _].
    destruct (H1 i lane Hi) as [_ H2 H3]. split; assumption. }
  intros [Hr | (w0 & Hr & Hstop)]; [now apply H|].
  destruct (@step_stop rng w0 w Hstop) as (-> & -> & _). now apply H.
Qed.

Lemma lanes_are_first_come_first_served_witness :
  StronglySorted lt
    (map rq_customer
       (users (lane_at 0 (advance rng_crowded 30 initial)) ++
        put_queue (lane_at 0 (advance rng_crowded 30 initial)))) /\
  Forall (fun r => rq_lane r = 0 /\
                   1 <= rq_customer r <=
                   length (arrivals_printed (stdout (advance rng_crowded 30 initial))))
         (users (lane_at 0 (advance rng_crowded 30 initial)) ++
          put_queue (lane_at 0 (advance rng_crowded 30 initial))).
Proof.
  apply (@lanes_are_first_come_first_served rng_crowded (advance rng_crowded 30 initial) 0
           (lane_at 0 (advance rng_crowded 30 initial))).
  - left. apply advance_reachable, reachable_initial.
  - vm_compute. reflexivity.
Defined.

(** X13: a lane serves one customer at a time.  In every state of a run,
    at most one request holds a lane, and the checkouts that are under way
    or about to start on a lane are no more than the requests that hold
    it: two customers never check out on the same lane at once. *)
Theorem one_checkout_per_lane (rng : nat -> Q) (w : World) (i : nat) (lane : Resource) :
  reachable rng w ->
  nth_error (checkout_lanes (store w)) i = Some lane ->
  count lane <= capacity /\ checkouts_on i (queue (env w)) <= count lane.
Proof.
  intros Hr Hi. destruct (reachable_lanes_ok Hr) as [H1 H2 H3].
  split; [apply (fifo_users (H1 i lane Hi))|].
  etransitivity; [apply checkouts_on_holders; exact H3|].
  rewrite (count_lane_perm i H2). unfold count.
  apply Nat.eq_le_incl.
  apply count_lane_users with (n := arrived_count w); auto.
  apply (shape_length (inv_shape (reachable_inv Hr))).
Qed.

Lemma one_checkout_per_lane_witness :
  count (lane_at 0 (advance rng_crowded 30 initial)) <= capacity /\
  checkouts_on 0 (queue (env (advance rng_crowded 30 initial))) <=
  count (lane_at 0 (advance rng_crowded 30 initial)).
Proof.
  apply (@one_checkout_per_lane rng_crowded (advance rng_crowded 30 initial) 0
           (lane_at 0 (advance rng_crowded 30 initial))).
  - apply advance_reachable, reachable_initial.
  - vm_compute. reflexivity.
Defined.

(** ** A run that never ends *)

Section Stuck.
Variable rng : nat -> Q.
Hypothesis samples_zero : forall k, (rng k == 0)%Q.

Lemma looped_setup_pending (customer_id : nat) (callbacks : list Generator) (w : World) :
  (now (env w) == 0)%Q -> setup_pending (looped rng customer_id callbacks w).
Proof.
  intros Hnow. unfold looped.
  destruct (Qltb (now (env w)) SIMULATION_TIME) eqn:E1;
    [|apply Qltb_ge in E1; unfold SIMULATION_TIME in E1; lra].
  destruct (Qltb (rng (draws w)) 0) eqn:E2.
  - apply Qltb_lt in E2. specialize (samples_zero (draws w)). lra.
  - eexists. split; [left; reflexivity|]. split; [reflexivity|].
    cbn [e_time]. change (now (env (drawn w))) with (now (env w)).
    specialize (samples_zero (draws w)). lra.
Qed.

Lemma stuck_step (w : World) :
  reachable rng w -> (now (env w) == 0)%Q -> setup_pending w ->
  exists w', step rng w = Continue w' /\ (now (env w') == 0)%Q /\ setup_pending w'.
Proof.
  intros Hr Hnow (x & Hx & Hsx & Htx). assert (H := reachable_inv Hr).
  destruct (heappop (queue (env w))) as [[m rest]|] eqn:Hpop;
    [|apply heappop_none in Hpop; rewrite Hpop in Hx; contradiction].
  destruct (heappop_spec _ Hpop) as [Hperm Hmin].
  assert (Hq := inv_queue H). rewrite Forall_forall in Hq.
  assert (Hin : In m (queue (env w))) by (eapply heappop_in; [exact Hpop | now left]).
  assert (Hm0 : (e_time m == 0)%Q).
  { assert (Hge := ok_time (Hq m Hin)).
    apply (Permutation_in _ Hperm) in Hx. destruct Hx as [<- | Hx]; [exact Htx|].
    rewrite Forall_forall in Hmin. specialize (Hmin x Hx).
    destruct (Qlt_le_dec (e_time x) (e_time m)) as [Hlt | Hle]; [|lra].
    exfalso. apply Hmin. now left. }
  assert (Hs := step_stepped rng H Hpop).
  destruct (step rng w) as [w'|w'|e w'|] eqn:Hstep.
  - exists w'. split; [reflexivity|]. split.
    + now rewrite (@step_now rng w w' m rest H Hpop Hstep).
    + destruct (is_setup (e_time m) (e_event m)) eqn:Hsm.
      * exists x. split; [|now split].
        apply (stays_queue (@step_stays rng w w' m rest m H Hpop Hstep (behind_self H Hpop))).
        apply (Permutation_in _ Hperm) in Hx. destruct Hx as [<- | Hx]; [|exact Hx].
        congruence.
      * inversion Hs as [ | cbs Hev | c cbs Hev | c cbs l0 l1 i l Hev H0 H1 Hi Hrt
                        | r Hev Har | c l cbs Hev Hcb | c l st cbs Hev Hst Hcb | l Hev
                        | cbs Hev Hcb | g cbs Hev Hcb | ]; subst w';
          rewrite Hev in Hsm; try discriminate;
          apply looped_setup_pending; exact Hm0.
  - exfalso. inversion Hs as [Hu | | | | | | | | | | ]; subst.
    assert (E := ok_until (Hq m Hin) Hu). unfold SIMULATION_TIME in E. lra.
  - exfalso. inversion Hs as [ | | | | | | | | | | Hev]; subst.
    destruct (queue_all_popped Hpop (reachable_failures_explained Hr)) as [Hf _].
    unfold on_event in Hf. rewrite Hev in Hf. destruct Hf as (k & _ & Hneg).
    specialize (samples_zero k). lra.
  - inversion Hs.
Qed.

Lemma stuck_run (n : nat) : forall w,
  reachable rng w -> (now (env w) == 0)%Q -> setup_pending w ->
  exists w', run rng n w = Running w' /\ (now (env w') == 0)%Q.
Proof.
  induction n as [|n IH]; intros w Hr Hnow Hp; cbn [run].
  - now exists w.
  - destruct (stuck_step Hr Hnow Hp) as (w' & Hstep & Hnow' & Hp').
    rewrite Hstep. apply IH; auto. eapply reachable_step; eassumption.
Qed.

End Stuck.

(** X14: a run that never ends.  [env.timeout] accepts a delay of 0: if
    every sample is 0, [env.run] never returns and never raises; after any
    number of events the run is still going on and the clock is still at
    0, [setup] spawning one customer after the other. *)
Theorem zero_samples_never_end (rng : nat -> Q) (n : nat) :
  (forall k, (rng k == 0)%Q) ->
  exists w, run rng n initial = Running w /\ (now (env w) == 0)%Q.
Proof.
  intros Hz. apply stuck_run; auto.
  - apply reachable_initial.
  - reflexivity.
  - eexists. split; [right; left; reflexivity|]. split; reflexivity.
Qed.

Lemma zero_samples_never_end_witness :
  exists w, run rng_stuck 20 initial = Running w /\ (now (env w) == 0)%Q.
Proof.
  apply (@zero_samples_never_end rng_stuck 20).
  intros k. reflexivity.
Defined.

(** ** What the output names *)

Lemma line_ok_later (n n' : nat) (l : Line) : n <= n' -> line_ok n l -> line_ok n' l.
Proof. intros Hle. destruct l; cbn; intros; lia. Qed.

Lemma line_ok_openings (n : nat) (lane0 lane1 : Resource) (al : nat) (t : Q) :
  Forall (line_ok n) (openings lane0 lane1 al t).
Proof.
  unfold openings. apply Forall_app. split.
  - destruct (MAX_QUEUE <=? load lane0); [|constructor].
    constructor; [left; reflexivity | constructor].
  - destruct (_ && _); [|constructor].
    constructor; [right; reflexivity | constructor].
Qed.

Lemma in_holders (q : list Entry) (x : Entry) (r : Request) :
  In x q -> In r (holder (e_event x)) -> In r (holders q).
Proof. intros Hx Hr. apply in_flat_map. now exists x. Qed.

(** A request that holds a lane was made by a customer who has arrived,
    for a lane of the store. *)
Lemma holder_bounds (rng : nat -> Q) (w : World) (r : Request) :
  reachable rng w -> In r (holders (queue (env w))) ->
  1 <= rq_customer r <= arrived_count w /\ rq_lane r < NUM_CHECKOUT_LANES.
Proof.
  intros Hr Hin. destruct (reachable_lanes_ok Hr) as [H1 H2 _].
  apply (Permutation_in _ H2) in Hin.
  destruct (in_flat_map_users _ _ Hin) as (i & lane & Hnth & Hu).
  destruct (H1 i lane Hnth) as [_ L2 _]. rewrite Forall_forall in L2.
  destruct (L2 r) as [El Hc]; [apply in_or_app; now left|].
  split; [exact Hc|]. rewrite El.
  rewrite <- (shape_length (inv_shape (reachable_inv Hr))).
  apply nth_error_Some. congruence.
Qed.

Section OutputNames.
Variable rng : nat -> Q.

Lemma reachable_lines_ok (w : World) :
  reachable rng w -> Forall (line_ok (arrived_count w)) (stdout w).
Proof.
  revert w. apply reachable_stepped_ind.
  - constructor.
  - intros w m rest w' Hr IH Hpop Hstep.
    assert (Hin : In m (queue (env w))) by (eapply heappop_in; [exact Hpop | now left]).
    destruct (queue_all_popped Hpop (lanes_callbacks (reachable_lanes_ok Hr))) as [Hcb _].
    unfold callbacks_ok in Hcb.
    destruct (queue_all_popped Hpop (ids_entries (reachable_ids_ok Hr))) as [Hid _].
    unfold id_entry_ok in Hid.
    assert (Hb := fun r H => @holder_bounds rng w r Hr (@in_holders _ m r Hin H)).
    assert (Hal := shape_active (inv_shape (reachable_inv Hr))).
    rewrite (stepped_arrived_count Hstep).
    assert (Hold : Forall (line_ok (arrived_count w + is_start (e_time m) (e_event m)))
                          (stdout w)).
    { eapply Forall_impl; [|exact IH]. intros l. apply line_ok_later. lia. }
    inversion Hstep as [ | cbs Hev | c cbs Hev | c cbs l0 l1 i l Hev H0 H1 Hi Hrt | r Hev Har
                       | c l cbs Hev Hcb' | c l st cbs Hev Hst Hcb' | l Hev | cbs Hev Hcb'
                       | g cbs Hev Hcb' | ]; subst w'; rewrite Hev in *;
      cbn [is_start holder] in *.
    + now rewrite (same_stdout (same_records_looped rng 0 cbs (popped m rest w))).
    + now rewrite (same_stdout (same_records_looped rng (S c) cbs _)).
    + rewrite arrived_stdout. destruct Hid as (Ec & _).
      apply Forall_app. split; [exact Hold|].
      constructor; [cbn; lia|]. apply Forall_app. split; [apply line_ok_openings|].
      constructor; [|constructor]. cbn. split; [lia|].
      destruct Hrt as [Hlt _].
      assert (Hn := @next_active_bounds l0 l1 (active_lanes (store w)) Hal). lia.
    + unfold granted.
      change (stdout (scheduled ?e ?p ?d (printed ?x ?y))) with (stdout y ++ [x]).
      apply Forall_app. split; [exact Hold|]. constructor; [|constructor].
      destruct (Hb r) as [Hc Hl]; [now left|]. cbn. lia.
    + now rewrite (same_stdout (same_records_started rng c l cbs (popped m rest w))).
    + unfold served.
      change (stdout (scheduled ?e ?p ?d (with_store ?f (printed ?x ?y))))
        with (stdout y ++ [x]).
      apply Forall_app. split; [exact Hold|]. constructor; [|constructor].
      destruct Hcb as (r & Er & Ec & El).
      destruct (Hb r) as [Hc Hl]; [rewrite Er; now left|]. cbn. lia.
    + destruct (nth_error _ _); [rewrite (same_stdout (same_records_triggered _ _ _))|];
        exact Hold.
    + now rewrite (same_stdout (same_records_fold_departed None cbs (popped m rest w))).
    + change (fold_left ?f cbs (departed ?v g ?x)) with (fold_left f (g :: cbs) x).
      now rewrite (same_stdout (same_records_fold_departed (Some ValueError) (g :: cbs)
                                  (popped m rest w))).
Qed.

End OutputNames.

(** X15: what the output names.  In every state of a run, and when the
    run has ended, every line printed about a customer names a customer who
    has arrived, with an id between 1 and the number of arrivals, and a lane
    between 1 and [NUM_CHECKOUT_LANES]; the only lanes announced as opening
    are lanes 2 and 3. *)
Theorem output_names_arrived_customers (rng : nat -> Q) (w : World) :
  reachable rng w \/ final rng w ->
  Forall (line_ok (length (arrivals_printed (stdout w)))) (stdout w).
Proof.
  intros [Hr | (w0 & Hr & Hstop)].
  - exact (reachable_lines_ok Hr).
  - destruct (@step_stop rng w0 w Hstop) as (_ & -> & _). exact (reachable_lines_ok Hr).
Qed.

Lemma output_names_arrived_customers_witness :
  Forall (line_ok (length (arrivals_printed (stdout (advance rng_crowded 56 initial)))))
         (stdout (advance rng_crowded 56 initial)).
Proof.
  apply (@output_names_arrived_customers rng_crowded (advance rng_crowded 56 initial)).
  left. apply advance_reachable, reachable_initial.
Defined.

(** X16: a service time is recorded after the wait time of the same
    customer.  In every state of a run, and when the run has ended,
    [service_times] is not longer than [waiting_times], and the wait times
    in excess are at least as many as the checkouts under way. *)
Theorem service_times_follow_waiting_times (rng : nat -> Q) (w : World) :
  reachable rng w \/ final rng w ->
  length (service_times (store w)) + pending_services (queue (env w))
  <= length (waiting_times (store w)).
Proof.
  intros [Hr | Hf].
  - assert (H := inv_counts (reachable_inv Hr)). lia.
  - destruct (final_popped Hf) as (w0 & m & rest & Hr & Hpop & Hu & ->).
    assert (H := inv_counts (reachable_inv Hr)).
    rewrite (pending_services_perm (proj1 (heappop_spec _ Hpop))) in H.
    rewrite pending_services_cons, Hu in H.
    change (queue (env (popped m rest w0))) with rest.
    change (store (popped m rest w0)) with (store w0). cbn [in_service] in H. lia.
Qed.

Lemma service_times_follow_waiting_times_witness :
  length (service_times (store (advance rng_crowded 56 initial)))
  + pending_services (queue (env (advance rng_crowded 56 initial)))
  <= length (waiting_times (store (advance rng_crowded 56 initial))).
Proof.
  apply (@service_times_follow_waiting_times rng_crowded (advance rng_crowded 56 initial)).
  left. apply advance_reachable, reachable_initial.
Defined.

(** * The customers at the horizon *)

(** ** The lines of a customer *)

Lemma lines_app (p : Line -> bool) (out out' : list Line) :
  lines p (out ++ out') = lines p out + lines p out'.
Proof. unfold lines. now rewrite filter_app, length_app. Qed.

Lemma lines_cons (p : Line -> bool) (l : Line) (out : list Line) :
  lines p (l :: out) = (if p l then 1 else 0) + lines p out.
Proof. unfold lines. cbn [filter]. now destruct (p l). Qed.

Lemma lines_openings (p : Line -> bool) (lane0 lane1 : Resource) (al : nat) (t : Q) :
  (forall k t', p (LaneOpens k t') = false) ->
  lines p (openings lane0 lane1 al t) = 0.
Proof.
  intros Hp. unfold openings. rewrite lines_app.
  destruct (MAX_QUEUE <=? load lane0); destruct (_ && _);
    rewrite ?lines_cons, ?Hp; reflexivity.
Qed.

Lemma lines_arrived (p : Line -> bool) (customer_id i : nat) (lane0 lane1 lane : Resource)
    (w : World) :
  (forall k t, p (LaneOpens k t) = false) ->
  (forall a b n, p (CustomerJoins a b n) = false) ->
  lines p (stdout (arrived customer_id i lane0 lane1 lane w)) =
  lines p (stdout w) + (if p (CustomerArrives customer_id (now (env w))) then 1 else 0).
Proof.
  intros Ho Hj.
  destruct (arrived_records customer_id i lane0 lane1 lane w) as (_ & -> & _).
  rewrite lines_app, lines_cons, lines_app, lines_openings, lines_cons, Hj by assumption.
  cbn. lia.
Qed.

Lemma lines_same (p : Line -> bool) (w w' : World) :
  same_records w w' -> lines p (stdout w') = lines p (stdout w).
Proof. intros H. now rewrite (same_stdout H). Qed.

Lemma lines_in (p : Line -> bool) (out : list Line) :
  1 <= lines p out -> exists l, In l out /\ p l = true.
Proof.
  unfold lines. intros H. destruct (filter p out) as [|l rest] eqn:E; [cbn in H; lia|].
  exists l. apply filter_In. rewrite E. now left.
Qed.

Lemma lines_none (p : Line -> bool) (out : list Line) (l : Line) :
  lines p out = 0 -> In l out -> p l = false.
Proof.
  unfold lines. intros H Hin. destruct (p l) eqn:E; [|reflexivity].
  assert (Hf : In l (filter p out)) by (apply filter_In; now split).
  destruct (filter p out); [contradiction | discriminate].
Qed.

(** ** The requests in the lanes *)

Lemma queued_list_set (c : nat) (lanes : list Resource) (i : nat) (old new : Resource) :
  nth_error lanes i = Some old ->
  queued c (list_set lanes i new) + list_sum (map (names c) (put_queue old)) =
  queued c lanes + list_sum (map (names c) (put_queue new)).
Proof.
  revert i. induction lanes as [|lane lanes IH]; intros [|i] H; try discriminate.
  - inversion H; subst. unfold queued. cbn [list_set map].
    change (list_sum (?a :: ?l)) with (a + list_sum l). lia.
  - change (nth_error (lane :: lanes) (S i)) with (nth_error lanes i) in H.
    specialize (IH i H). unfold queued in *. cbn [list_set map].
    change (list_sum (?a :: ?l)) with (a + list_sum l). lia.
Qed.

Lemma queued_in (c : nat) (lanes : list Resource) :
  1 <= queued c lanes ->
  exists lane r, In lane lanes /\ In r (put_queue lane) /\ rq_customer r = c.
Proof.
  unfold queued. induction lanes as [|lane lanes IH]; cbn [map]; [cbn; lia|].
  change (list_sum (?a :: ?l)) with (a + list_sum l). intros H.
  destruct (list_sum (map (names c) (put_queue lane))) as [|n] eqn:E.
  - destruct IH as (lane' & r & H1 & H2 & H3); [lia|].
    exists lane', r. repeat split; auto. now right.
  - clear IH H. exists lane. induction (put_queue lane) as [|r q IH]; [discriminate|].
    cbn [map] in E. change (list_sum (?a :: ?l)) with (a + list_sum l) in E.
    unfold names in E at 1. destruct (rq_customer r =? c) eqn:Er.
    + exists r. apply Nat.eqb_eq in Er. repeat split; auto; now left.
    + destruct IH as (r' & H1 & H2 & H3); [exact E|].
      exists r'. repeat split; auto. now right.
Qed.

Lemma queued_none (c : nat) (lanes : list Resource) (lane : Resource) (r : Request) :
  queued c lanes = 0 -> In lane lanes -> In r (put_queue lane) -> rq_customer r <> c.
Proof.
  unfold queued. intros H Hl Hr Hc.
  induction lanes as [|lane' lanes IH]; [contradiction|].
  cbn [map] in H. change (list_sum (?a :: ?l)) with (a + list_sum l) in H.
  destruct Hl as [-> | Hl]; [|apply IH; solve [assumption | lia]].
  assert (E : list_sum (map (names c) (put_queue lane)) = 0) by lia. clear H IH.
  induction (put_queue lane) as [|r' q IH]; [contradiction|].
  cbn [map] in E. change (list_sum (?a :: ?l)) with (a + list_sum l) in E.
  destruct Hr as [-> | Hr]; [|apply IH; solve [assumption | lia]].
  unfold names in E at 1. apply Nat.eqb_eq in Hc. rewrite Hc in E. lia.
Qed.

Section InLanes.
Variable c : nat.

Lemma in_lanes_frame (w w' : World) :
  queue (env w') = queue (env w) ->
  checkout_lanes (store w') = checkout_lanes (store w) ->
  in_lanes c w' = in_lanes c w.
Proof. unfold in_lanes, mu. now intros -> ->. Qed.

Lemma in_lanes_popped (w : World) (m : Entry) (rest : list Entry) :
  heappop (queue (env w)) = Some (m, rest) ->
  in_lanes c w = grant_of c (e_time m) (e_event m) + in_lanes c (popped m rest w).
Proof.
  intros Hpop. unfold in_lanes. rewrite (@mu_popped (grant_of c) 0 w m rest Hpop).
  change (checkout_lanes (store (popped m rest w))) with (checkout_lanes (store w)). lia.
Qed.

Lemma in_lanes_scheduled (ev : Event) (priority : nat) (delay : Q) (w : World) :
  in_lanes c (scheduled ev priority delay w) =
  grant_of c (now (env w) + delay)%Q ev + in_lanes c w.
Proof.
  unfold in_lanes. rewrite mu_scheduled.
  change (checkout_lanes (store (scheduled ev priority delay w)))
    with (checkout_lanes (store w)). lia.
Qed.

Lemma in_lanes_put_lane (i : nat) (old new : Resource) (w : World) :
  nth_error (checkout_lanes (store w)) i = Some old ->
  in_lanes c (put_lane i new w) + list_sum (map (names c) (put_queue old)) =
  in_lanes c w + list_sum (map (names c) (put_queue new)).
Proof.
  intros H. unfold in_lanes.
  assert (E := @mu_put_lane (grant_of c) 0 i old new w H).
  change (checkout_lanes (store (put_lane i new w)))
    with (list_set (checkout_lanes (store w)) i new).
  assert (E' := @queued_list_set c (checkout_lanes (store w)) i old new H). lia.
Qed.

Lemma in_lanes_triggered (i : nat) (res : Resource) (w : World) :
  nth_error (checkout_lanes (store w)) i = Some res ->
  in_lanes c (triggered i res w) = in_lanes c w.
Proof.
  intros H. unfold triggered.
  destruct (_trigger_put_cases res) as [-> | (g & rest & Hq & Hu & ->)]; [reflexivity|].
  rewrite in_lanes_scheduled.
  assert (E := @in_lanes_put_lane i res (mkResource [g] rest) w H).
  rewrite Hq in E. cbn [put_queue map] in E.
  change (list_sum (?a :: ?l)) with (a + list_sum l) in E.
  cbn [grant_of]. lia.
Qed.

Lemma in_lanes_requested (r : Request) (res : Resource) (w : World) :
  nth_error (checkout_lanes (store w)) (rq_lane r) = Some res ->
  in_lanes c (requested r res w) = in_lanes c w + names c r.
Proof.
  intros H. unfold requested.
  set (res1 := mkResource (users res) (put_queue res ++ [r])).
  assert (E := @in_lanes_put_lane (rq_lane r) res res1 w H).
  unfold res1 in E at 2. cbn [put_queue] in E. rewrite map_app, list_sum_app in E.
  cbn [map] in E. change (list_sum [names c r]) with (names c r + 0) in E.
  rewrite in_lanes_triggered.
  - lia.
  - change (checkout_lanes (store (put_lane (rq_lane r) res1 w)))
      with (list_set (checkout_lanes (store w)) (rq_lane r) res1).
    apply nth_error_list_set_eq. apply nth_error_Some. congruence.
Qed.

Lemma in_lanes_released (r : Request) (w : World) :
  in_lanes c (released r w) = in_lanes c w.
Proof.
  unfold released. rewrite in_lanes_scheduled. cbn [grant_of].
  destruct (nth_error (checkout_lanes (store w)) (rq_lane r)) as [res|] eqn:E; [|reflexivity].
  assert (E' := @in_lanes_put_lane (rq_lane r) res
                  (mkResource (users_remove r (users res)) (put_queue res)) w E).
  cbn [put_queue] in E'. lia.
Qed.

Lemma in_lanes_departed (value : option exn) (g : Generator) (w : World) :
  in_lanes c (departed value g w) = in_lanes c w.
Proof.
  destruct g as [|[| |r]|]; try reflexivity.
  unfold departed. rewrite in_lanes_scheduled, in_lanes_released. reflexivity.
Qed.

Lemma in_lanes_fold_departed (value : option exn) (callbacks : list Generator) :
  forall w, in_lanes c (fold_left (fun w g => departed value g w) callbacks w) = in_lanes c w.
Proof.
  induction callbacks as [|g cbs IH]; intros w; cbn [fold_left]; [reflexivity|].
  now rewrite IH, in_lanes_departed.
Qed.

Lemma in_lanes_arrived (customer_id i : nat) (lane0 lane1 lane : Resource) (w : World) :
  nth_error (checkout_lanes (store w)) i = Some lane ->
  in_lanes c (arrived customer_id i lane0 lane1 lane w) =
  in_lanes c w + (if customer_id =? c then 1 else 0).
Proof.
  intros H. unfold arrived.
  set (w3 := printed _ (observed customer_id lane0 lane1 w)).
  assert (Hl : checkout_lanes (store w3) = checkout_lanes (store w)).
  { unfold w3. change (checkout_lanes (store (printed ?l ?x))) with (checkout_lanes (store x)).
    apply observed_lanes. }
  assert (He : env w3 = env w).
  { unfold w3, observed. change (env (printed ?l ?x)) with (env x).
    change (env (with_store ?f ?x)) with (env x). now rewrite managed_env. }
  rewrite in_lanes_requested by (cbn [rq_lane]; congruence).
  rewrite (@in_lanes_frame w w3) by congruence. reflexivity.
Qed.

Lemma in_lanes_looped (rng : nat -> Q) (customer_id : nat) (callbacks : list Generator)
    (w : World) :
  in_lanes c (looped rng customer_id callbacks w) = in_lanes c w.
Proof.
  unfold looped. destruct (Qltb _ _); [destruct (Qltb _ _)|];
    rewrite in_lanes_scheduled; reflexivity.
Qed.

Lemma in_lanes_started (rng : nat -> Q) (customer_id lane_number : nat)
    (callbacks : list Generator) (w : World) :
  in_lanes c (started rng customer_id lane_number callbacks w) = in_lanes c w.
Proof. unfold started. destruct (Qltb _ _); rewrite in_lanes_scheduled; reflexivity. Qed.

(** ** The checkouts under way *)

Lemma services_departed (value : option exn) (g : Generator) (w : World) :
  mu (service_of c) 0 (departed value g w) = mu (service_of c) 0 w.
Proof.
  destruct g as [|[| |r]|]; try reflexivity. rewrite mu_departed. cbn [service_of]. lia.
Qed.

Lemma services_fold_departed (value : option exn) (callbacks : list Generator) :
  forall w, mu (service_of c) 0 (fold_left (fun w g => departed value g w) callbacks w) =
            mu (service_of c) 0 w.
Proof.
  induction callbacks as [|g cbs IH]; intros w; cbn [fold_left]; [reflexivity|].
  now rewrite IH, services_departed.
Qed.

Lemma services_looped (rng : nat -> Q) (customer_id : nat) (callbacks : list Generator)
    (w : World) :
  mu (service_of c) 0 (looped rng customer_id callbacks w) = mu (service_of c) 0 w.
Proof.
  unfold looped. destruct (Qltb _ _); [destruct (Qltb _ _)|]; rewrite mu_scheduled; reflexivity.
Qed.

Lemma services_started (rng : nat -> Q) (customer_id lane_number : nat)
    (callbacks : list Generator) (w : World) :
  has_failure (started rng customer_id lane_number callbacks w) \/
  mu (service_of c) 0 (started rng customer_id lane_number callbacks w) =
  (if customer_id =? c then 1 else 0) + mu (service_of c) 0 w.
Proof.
  unfold started. destruct (Qltb _ _).
  - left. apply head_failure.
  - right. rewrite mu_scheduled. reflexivity.
Qed.

End InLanes.

Lemma lines_granted (p : Line -> bool) (r : Request) (w : World) :
  lines p (stdout (granted r w)) =
  lines p (stdout w) +
  (if p (CustomerWaited (rq_customer r) (now (env w) - rq_arrival r) (rq_lane r + 1))
   then 1 else 0).
Proof.
  change (stdout (granted r w))
    with (stdout w ++ [CustomerWaited (rq_customer r) (now (env w) - rq_arrival r)
                                      (rq_lane r + 1)]).
  rewrite lines_app, lines_cons. cbn. lia.
Qed.

Lemma lines_served (p : Line -> bool) (customer_id lane_number : nat) (service_time : Q)
    (callbacks : list Generator) (w : World) :
  lines p (stdout (served customer_id lane_number service_time callbacks w)) =
  lines p (stdout w) +
  (if p (CustomerCheckedOut customer_id (lane_number + 1) service_time) then 1 else 0).
Proof.
  change (stdout (served customer_id lane_number service_time callbacks w))
    with (stdout w ++ [CustomerCheckedOut customer_id (lane_number + 1) service_time]).
  rewrite lines_app, lines_cons. cbn. lia.
Qed.

Lemma in_lanes_granted (c : nat) (r : Request) (w : World) :
  in_lanes c (granted r w) = in_lanes c w.
Proof. unfold granted. rewrite in_lanes_scheduled. reflexivity. Qed.

Lemma in_lanes_served (c customer_id lane_number : nat) (service_time : Q)
    (callbacks : list Generator) (w : World) :
  in_lanes c (served customer_id lane_number service_time callbacks w) = in_lanes c w.
Proof. unfold served. rewrite in_lanes_scheduled. reflexivity. Qed.

(** ** Every customer is at one stage *)

Section Staged.
Variable rng : nat -> Q.
Variable c : nat.

Lemma failure_stays (w w' : World) :
  Inv w -> has_failure w -> step rng w = Continue w' -> has_failure w'.
Proof.
  intros H (f & Hf & Hfail) Hstep.
  destruct (heappop (queue (env w))) as [[m rest]|] eqn:Hpop;
    [|unfold step in Hstep; rewrite Hpop in Hstep; discriminate].
  assert (Hs := step_stepped rng H Hpop). rewrite Hstep in Hs.
  apply (Permutation_in _ (proj1 (heappop_spec _ Hpop))) in Hf. destruct Hf as [<- | Hf].
  - destruct Hfail as [cbs Hev].
    inversion Hs as [ | | | | | | | | | g cbs' Hev' Hcb | ]; try congruence. subst.
    inversion Hcb; subst.
    destruct (@fold_departed_failure cbs' g (popped m rest w)) as (f' & Hf' & Hev'');
      [assumption|].
    exists f'. split; [exact Hf' | exists []; exact Hev''].
  - exists f. split; [|exact Hfail].
    apply (stays_queue (@step_stays rng w w' m rest m H Hpop Hstep (behind_self H Hpop))).
    exact Hf.
Qed.

Ltac same_lines R := rewrite !(lines_same _ R).

Lemma staged_step (w w' : World) :
  Inv w -> staged c w -> step rng w = Continue w' -> staged c w'.
Proof.
  intros H [HA HS] Hstep.
  destruct (heappop (queue (env w))) as [[m rest]|] eqn:Hpop;
    [|unfold step in Hstep; rewrite Hpop in Hstep; discriminate].
  assert (Hs := step_stepped rng H Hpop). rewrite Hstep in Hs.
  split.
  - rewrite (@in_lanes_popped c w m rest Hpop) in HA.
    change (stdout w) with (stdout (popped m rest w)) in HA.
    inversion Hs as [ | cbs Hev | c0 cbs Hev | c0 cbs l0 l1 i l Hev H0 H1 Hi Hrt | r Hev Har
                    | c0 l cbs Hev Hcb | c0 l st cbs Hev Hst Hcb | l Hev | cbs Hev Hcb
                    | g cbs Hev Hcb | ]; subst w'; rewrite Hev in HA; cbn [grant_of] in HA.
    + rewrite in_lanes_looped. same_lines (same_records_looped rng 0 cbs (popped m rest w)). exact HA.
    + rewrite in_lanes_looped, in_lanes_scheduled. cbn [grant_of].
      same_lines (same_records_looped rng (S c0) cbs
                    (scheduled (InitializeEv (GCustomer (customer_start (S c0))) []) URGENT 0 (popped m rest w))).
      exact HA.
    + rewrite !lines_arrived by reflexivity. rewrite in_lanes_arrived by exact Hi.
      cbn [arrival_of wait_of]. lia.
    + rewrite !lines_granted, in_lanes_granted. cbn [arrival_of wait_of].
      unfold names in HA. lia.
    + rewrite in_lanes_started. same_lines (same_records_started rng c0 l cbs (popped m rest w)). exact HA.
    + rewrite !lines_served, in_lanes_served. cbn [arrival_of wait_of]. lia.
    + destruct (nth_error (checkout_lanes (store w)) l) as [res|] eqn:E; [|exact HA].
      rewrite in_lanes_triggered by exact E. same_lines (same_records_triggered l res (popped m rest w)).
      exact HA.
    + rewrite in_lanes_fold_departed. same_lines (same_records_fold_departed None cbs (popped m rest w)).
      exact HA.
    + change (fold_left ?f cbs (departed ?v g ?x)) with (fold_left f (g :: cbs) x).
      rewrite in_lanes_fold_departed.
      same_lines (same_records_fold_departed (Some ValueError) (g :: cbs) (popped m rest w)). exact HA.
  - destruct HS as [Hf | HS]; [left; eapply failure_stays; eassumption|].
    rewrite (@mu_popped (service_of c) 0 w m rest Hpop) in HS.
    change (stdout w) with (stdout (popped m rest w)) in HS.
    inversion Hs as [ | cbs Hev | c0 cbs Hev | c0 cbs l0 l1 i l Hev H0 H1 Hi Hrt | r Hev Har
                    | c0 l cbs Hev Hcb | c0 l st cbs Hev Hst Hcb | l Hev | cbs Hev Hcb
                    | g cbs Hev Hcb | ]; subst w'; rewrite Hev in HS; cbn [service_of] in HS.
    + right. rewrite services_looped. same_lines (same_records_looped rng 0 cbs (popped m rest w)). exact HS.
    + right. rewrite services_looped, mu_scheduled. cbn [service_of].
      same_lines (same_records_looped rng (S c0) cbs
                    (scheduled (InitializeEv (GCustomer (customer_start (S c0))) []) URGENT 0 (popped m rest w))).
      exact HS.
    + right. rewrite !lines_arrived by reflexivity. cbn [wait_of checkout_of].
      destruct (@mu_arrived (service_of c) 0 c0 i l0 l1 l (popped m rest w) Hi) as [-> | (g & ->)];
        cbn [service_of]; lia.
    + right. rewrite !lines_granted, mu_granted. cbn [wait_of checkout_of service_of]. lia.
    + destruct (@services_started c rng c0 l cbs (popped m rest w)) as [Hf | ->]; [now left | right].
      same_lines (same_records_started rng c0 l cbs (popped m rest w)). lia.
    + right. rewrite !lines_served, mu_served. cbn [wait_of checkout_of service_of]. lia.
    + right. destruct (nth_error (checkout_lanes (store w)) l) as [res|] eqn:E; [|lia].
      same_lines (same_records_triggered l res (popped m rest w)).
      destruct (@mu_triggered (service_of c) 0 l res (popped m rest w) E) as [-> | (g & Eg)]; [lia|].
      cbn [service_of] in Eg. lia.
    + right. rewrite services_fold_departed.
      same_lines (same_records_fold_departed None cbs (popped m rest w)). lia.
    + right. change (fold_left ?f cbs (departed ?v g ?x)) with (fold_left f (g :: cbs) x).
      rewrite services_fold_departed.
      same_lines (same_records_fold_departed (Some ValueError) (g :: cbs) (popped m rest w)). lia.
Qed.

Lemma reachable_staged (w : World) : reachable rng w -> staged c w.
Proof.
  induction 1 as [|w w' Hr IH Hstep]; [split; [reflexivity | right; reflexivity]|].
  eapply staged_step; [apply (reachable_inv Hr) | exact IH | exact Hstep].
Qed.

End Staged.

Lemma due_later (t t' : Q) (x : Entry) : (t <= t')%Q -> due_ok t x -> due_ok t' x.
Proof. unfold due_ok. destruct (e_event x); auto; intros; lra. Qed.

Lemma due_now (t : Q) (priority n : nat) (ev : Event) :
  due_ok t (mkEntry (t + 0) priority n ev).
Proof. unfold due_ok. destruct ev; cbn; auto; lra. Qed.

Lemma due_timeout (t t' : Q) (priority n : nat) (g : Generator) (callbacks : list Generator) :
  due_ok t (mkEntry t' priority n (TimeoutEv g callbacks)).
Proof. exact I. Qed.

Section Due.
Variable rng : nat -> Q.

Lemma due_looped (customer_id : nat) (callbacks : list Generator) (w : World) :
  queue_all (due_ok (now (env w))) w ->
  queue_all (due_ok (now (env w))) (looped rng customer_id callbacks w).
Proof.
  intros H. unfold looped.
  destruct (Qltb _ _); [destruct (Qltb _ _)|];
    apply queue_all_scheduled with (w0 := w); auto;
    solve [apply due_now | apply due_timeout].
Qed.

Lemma due_started (customer_id lane_number : nat) (callbacks : list Generator) (w : World) :
  queue_all (due_ok (now (env w))) w ->
  queue_all (due_ok (now (env w))) (started rng customer_id lane_number callbacks w).
Proof.
  intros H. unfold started.
  destruct (Qltb _ _); apply queue_all_scheduled with (w0 := w); auto;
    solve [apply due_now | apply due_timeout].
Qed.

Lemma reachable_due (w : World) :
  reachable rng w -> queue_all (due_ok (now (env w))) w.
Proof.
  revert w. apply reachable_stepped_ind.
  - repeat constructor. unfold due_ok. cbn. lra.
  - intros w m rest w' Hr IH Hpop Hstep.
    assert (Hne : e_event m <> UntilEv) by (intros Hu; inversion Hstep; congruence).
    destruct (inv_pop (reachable_inv Hr) Hpop Hne) as (_ & _ & Hle).
    destruct (queue_all_popped Hpop IH) as [_ Hp].
    assert (Hp' : queue_all (due_ok (e_time m)) (popped m rest w)).
    { revert Hp. apply queue_all_impl. intros x. now apply due_later. }
    clear Hp. rename Hp' into Hp.
    assert (En : now (env (popped m rest w)) = e_time m) by reflexivity.
    assert (Hnow := due_now (e_time m)).
    inversion Hstep as [ | cbs Hev | c cbs Hev | c cbs l0 l1 i l Hev H0 H1 Hi Hrt | r Hev Har
                       | c l cbs Hev Hcb | c l st cbs Hev Hst Hcb | l Hev | cbs Hev Hcb
                       | g cbs Hev Hcb | ]; subst w'.
    + rewrite (same_now (same_records_looped rng 0 cbs (popped m rest w))).
      now apply due_looped.
    + rewrite (same_now (same_records_looped rng (S c) cbs _)).
      apply due_looped. now apply now_scheduled with (t := e_time m).
    + rewrite (proj1 (arrived_records c i l0 l1 l (popped m rest w))).
      now apply now_arrived with (t := e_time m).
    + now apply now_scheduled with (t := e_time m).
    + rewrite (same_now (same_records_started rng c l cbs (popped m rest w))).
      now apply due_started.
    + now apply now_scheduled with (t := e_time m).
    + destruct (nth_error (checkout_lanes (store w)) l) as [res|]; [|exact Hp].
      rewrite (same_now (same_records_triggered l res (popped m rest w))).
      now apply now_triggered with (t := e_time m).
    + rewrite (same_now (same_records_fold_departed None cbs (popped m rest w))).
      now apply now_fold_departed with (t := e_time m).
    + change (fold_left ?f cbs (departed ?v g ?x)) with (fold_left f (g :: cbs) x).
      rewrite (same_now (same_records_fold_departed (Some ValueError) (g :: cbs)
                           (popped m rest w))).
      now apply now_fold_departed with (t := e_time m).
Qed.

End Due.

(** ** The customers when the run ends *)

Lemma arrivals_count (c : nat) (out : list Line) :
  lines (arrival_of c) out = count_occ Nat.eq_dec (map fst (arrivals_printed out)) c.
Proof.
  induction out as [|l out IH]; [reflexivity|].
  rewrite lines_cons, IH. unfold arrivals_printed. cbn [flat_map]. rewrite map_app, count_occ_app.
  f_equal. destruct l as [| |c' t| |]; try reflexivity.
  cbn [arrival_of map fst count_occ]. destruct (Nat.eq_dec c' c) as [E|E].
  - apply Nat.eqb_eq in E. now rewrite E.
  - apply Nat.eqb_neq in E. now rewrite E.
Qed.

Lemma in_lines (p : Line -> bool) (l : Line) (out : list Line) :
  In l out -> p l = true -> 1 <= lines p out.
Proof.
  intros Hin Hp. unfold lines.
  assert (Hf : In l (filter p out)) by (apply filter_In; now split).
  destruct (filter p out); [contradiction | cbn; lia].
Qed.

Lemma mu_in (cost : Q -> Event -> nat) (w : World) :
  1 <= mu cost 0 w -> exists x, In x (queue (env w)) /\ 1 <= cost (e_time x) (e_event x).
Proof.
  unfold mu. induction (queue (env w)) as [|x q IH]; cbn [map]; [cbn; lia|].
  change (list_sum (?a :: ?l)) with (a + list_sum l). intros H.
  destruct (cost (e_time x) (e_event x)) as [|n] eqn:E.
  - destruct IH as (y & Hy & Hc); [lia|]. exists y. split; [now right | exact Hc].
  - exists x. split; [now left | lia].
Qed.

Lemma wait_recorded_intro (c : nat) (w : World) :
  records_printed w -> 1 <= lines (wait_of c) (stdout w) -> wait_recorded c w.
Proof.
  intros (E & _ & _) H. destruct (lines_in _ _ H) as ([| | | |c' x lane] & Hin & Hp);
    try discriminate.
  apply Nat.eqb_eq in Hp. subst c'. exists x, lane. split; [exact Hin|].
  rewrite E. unfold waits_printed. apply in_flat_map. eexists. split; [exact Hin | now left].
Qed.

Lemma service_recorded_intro (c : nat) (w : World) :
  records_printed w -> 1 <= lines (checkout_of c) (stdout w) -> service_recorded c w.
Proof.
  intros (_ & E & _) H. destruct (lines_in _ _ H) as ([c' lane x| | | |] & Hin & Hp);
    try discriminate.
  apply Nat.eqb_eq in Hp. subst c'. exists lane, x. split; [exact Hin|].
  rewrite E. unfold services_printed. apply in_flat_map. eexists. split; [exact Hin | now left].
Qed.

Lemma never_waited_intro (c : nat) (w : World) :
  lines (wait_of c) (stdout w) = 0 -> never_waited c w.
Proof.
  intros H x lane Hin. assert (E := lines_none _ _ _ H Hin). cbn in E.
  now rewrite Nat.eqb_refl in E.
Qed.

Lemma never_checked_out_intro (c : nat) (w : World) :
  lines (checkout_of c) (stdout w) = 0 -> never_checked_out c w.
Proof.
  intros H lane x Hin. assert (E := lines_none _ _ _ H Hin). cbn in E.
  now rewrite Nat.eqb_refl in E.
Qed.

Lemma not_queued_intro (c : nat) (w : World) :
  queued c (checkout_lanes (store w)) = 0 -> ~ still_queued c w.
Proof. intros H (lane & r & Hl & Hr & Hc). exact (@queued_none c _ lane r H Hl Hr Hc). Qed.

Lemma not_cut_off_intro (c : nat) (w : World) :
  mu (service_of c) 0 w = 0 -> ~ service_cut_off c w.
Proof.
  intros H (x & l & st & cbs & Hin & Hev & _).
  apply mu_zero_forall in H. rewrite Forall_forall in H. specialize (H x Hin).
  rewrite Hev in H. cbn in H. rewrite Nat.eqb_refl in H. discriminate.
Qed.

Section Horizon.
Variable rng : nat -> Q.

(** What is pending when the run stops: timeouts due at or after the
    horizon. *)
Lemma stop_pending (w : World) (m : Entry) (rest : list Entry) :
  reachable rng w -> heappop (queue (env w)) = Some (m, rest) -> e_event m = UntilEv ->
  Forall (fun x => (SIMULATION_TIME <= e_time x)%Q /\
                   (e_event x = UntilEv \/ exists g callbacks, e_event x = TimeoutEv g callbacks))
         rest.
Proof.
  intros Hr Hpop Hu. assert (H := reachable_inv Hr).
  destruct (heappop_spec _ Hpop) as [Hperm Hmin].
  assert (Hq := inv_queue H). rewrite Forall_forall in Hq.
  assert (Hmt : (e_time m == SIMULATION_TIME)%Q).
  { apply (ok_until (Hq m (Permutation_in _ (Permutation_sym Hperm) (or_introl eq_refl)))).
    exact Hu. }
  destruct (queue_all_popped Hpop (reachable_due Hr)) as [_ Hd]. unfold queue_all in Hd.
  change (queue (env (popped m rest w))) with rest in Hd.
  assert (Hnow := inv_now H).
  rewrite Forall_forall in *. intros x Hx.
  assert (Ht : (SIMULATION_TIME <= e_time x)%Q).
  { destruct (Qlt_le_dec (e_time x) SIMULATION_TIME) as [C|]; [|assumption].
    exfalso. apply (Hmin x Hx). left. lra. }
  split; [exact Ht|]. specialize (Hd x Hx). unfold due_ok in Hd.
  destruct (e_event x) as [|g cbs|g cbs|r|l|v cbs]; try lra; [now left | right; eauto].
Qed.

End Horizon.

(** C2, as amended: the customers at the horizon.  Every customer the run
    admits arrives strictly before the horizon, and when
    [env.run(until=SIMULATION_TIME)] returns it is in exactly one of three
    cases.  Its service ended before the horizon: the customer ran to
    completion, and its wait time and its service time are both in the
    output.  Or the end of its service is due at or after the horizon: the
    timeout of its checkout is still pending, its wait time is in the
    output and lines 27-28 never ran for it, so it has no service time.  Or
    it still waits in the queue of a lane: neither line 65 nor lines 27-28
    ran for it. *)
Theorem admitted_customers_at_the_horizon (rng : nat -> Q) (w : World)
    (customer_id : nat) (t : Q) :
  final rng w ->
  In (CustomerArrives customer_id t) (stdout w) ->
  (t < SIMULATION_TIME)%Q /\
  ((wait_recorded customer_id w /\ service_recorded customer_id w /\
    ~ service_cut_off customer_id w /\ ~ still_queued customer_id w) \/
   (wait_recorded customer_id w /\ never_checked_out customer_id w /\
    service_cut_off customer_id w /\ ~ still_queued customer_id w) \/
   (never_waited customer_id w /\ never_checked_out customer_id w /\
    still_queued customer_id w /\ ~ service_cut_off customer_id w)).
Proof.
  intros Hf Hin.
  destruct (final_popped Hf) as (w0 & m & rest & Hr & Hpop & Hu & ->).
  assert (H := reachable_inv Hr).
  set (w := popped m rest w0) in *.
  assert (Hrec : records_printed w) by exact (reachable_records_printed Hr).
  split.
  - destruct Hrec as (_ & _ & E). destruct (reachable_stats_ok Hr) as [_ _ Ht _ _].
    rewrite Forall_forall in Ht. assert (Hnow := inv_now H).
    assert (Hq : In t (queue_record_times (store w0))).
    { change (queue_record_times (store w0)) with (queue_record_times (store w)).
      rewrite E. apply in_map_iff. exists (customer_id, t). split; [reflexivity|].
      unfold arrivals_printed. apply in_flat_map. eexists. split; [exact Hin | now left]. }
    specialize (Ht t Hq). cbn in Ht. lra.
  - destruct (reachable_staged customer_id Hr) as [HA HS].
    assert (Hpend := stop_pending Hr Hpop Hu). rewrite Forall_forall in Hpend.
    (* no grant is pending *)
    assert (Hg : mu (grant_of customer_id) 0 w = 0).
    { apply mu_zero_forall. apply Forall_forall. intros x Hx.
      destruct (Hpend x Hx) as [_ [E | (g & cbs & E)]]; now rewrite E. }
    rewrite (@in_lanes_popped customer_id w0 m rest Hpop), Hu in HA. cbn [grant_of] in HA.
    fold w in HA. unfold in_lanes in HA. rewrite Hg in HA.
    change (stdout w0) with (stdout w) in HA.
    (* no process has failed *)
    destruct HS as [(f & Hfq & cbs & Hev) | HS].
    { exfalso. apply (@until_not_first w0 m rest f H Hpop Hfq); [|exact Hu].
      rewrite Hev. exact I. }
    rewrite (@mu_popped (service_of customer_id) 0 w0 m rest Hpop), Hu in HS.
    cbn [service_of] in HS. fold w in HS. change (stdout w0) with (stdout w) in HS.
    (* the customer arrived once *)
    assert (Ha1 : 1 <= lines (arrival_of customer_id) (stdout w)).
    { apply (in_lines _ _ _ Hin). cbn. apply Nat.eqb_refl. }
    assert (Ha2 : lines (arrival_of customer_id) (stdout w) <= 1).
    { rewrite arrivals_count. change (stdout w) with (stdout w0).
      rewrite (ids_seq (reachable_ids_ok Hr)).
      apply (proj1 (NoDup_count_occ Nat.eq_dec _)). apply seq_NoDup. }
    cbn [Nat.add] in HA, HS.
    destruct (lines (wait_of customer_id) (stdout w)) as [|[|n]] eqn:Ew; [| |lia].
    + right. right. repeat split.
      * now apply never_waited_intro.
      * apply never_checked_out_intro. lia.
      * apply queued_in. change (checkout_lanes (store w)) with (checkout_lanes (store w0)).
        change (checkout_lanes (store w)) with (checkout_lanes (store w0)) in HA. lia.
      * apply not_cut_off_intro. lia.
    + assert (Hw : wait_recorded customer_id w) by (apply wait_recorded_intro; [assumption | lia]).
      assert (Hnq : ~ still_queued customer_id w) by (apply not_queued_intro; lia).
      destruct (lines (checkout_of customer_id) (stdout w)) as [|[|n]] eqn:Ec; [| |lia].
      * right. left. repeat split; try assumption.
        -- now apply never_checked_out_intro.
        -- destruct (@mu_in (service_of customer_id) w) as (x & Hx & Hc); [lia|].
           destruct (Hpend x Hx) as [Ht [E | (g & cbs & E)]];
             [rewrite E in Hc; cbn in Hc; lia|].
           rewrite E in Hc. destruct g as [| |[|c l st]]; cbn in Hc; try lia.
           destruct (c =? customer_id) eqn:Ecc; [|lia]. apply Nat.eqb_eq in Ecc. subst c.
           now exists x, l, st, cbs.
      * left. repeat split; try assumption.
        -- apply service_recorded_intro; [assumption | lia].
        -- apply not_cut_off_intro. lia.
Qed.

Lemma admitted_customers_at_the_horizon_witness :
  (599 < SIMULATION_TIME)%Q /\
  ((wait_recorded 1 (finished rng_late 6) /\ service_recorded 1 (finished rng_late 6) /\
    ~ service_cut_off 1 (finished rng_late 6) /\ ~ still_queued 1 (finished rng_late 6)) \/
   (wait_recorded 1 (finished rng_late 6) /\ never_checked_out 1 (finished rng_late 6) /\
    service_cut_off 1 (finished rng_late 6) /\ ~ still_queued 1 (finished rng_late 6)) \/
   (never_waited 1 (finished rng_late 6) /\ never_checked_out 1 (finished rng_late 6) /\
    still_queued 1 (finished rng_late 6) /\ ~ service_cut_off 1 (finished rng_late 6))).
Proof.
  apply (@admitted_customers_at_the_horizon rng_late (finished rng_late 6) 1 599%Q).
  - apply run_final with (n := 6) (w := initial); [apply reachable_initial|].
    vm_compute. reflexivity.
  - vm_compute. auto.
Defined.
